(** * VocabTest: quiz selection, session state and result aggregation

    A shallow embedding of the hooks [useVocabTest] (selection, distractors,
    session state, local storage) and [useTestResults] (result insertion,
    statistics, retention) together with the properties of the design note.

    Conventions.
    - JavaScript integers are [Z]; array lengths are [nat] and are injected
      into [Z] where the source compares them with a [number].
    - Arrays are lists; [a[i]] is stdpp's [a !! i].
    - [Math.random()] is an explicit source of fractions in [[0,1)] that is
      threaded through every function that draws from it.
    - The Supabase client is an explicit database state with a script of
      faults and a log of the calls that were issued. *)

From Stdlib Require Import ZArith QArith Qround Qpower Qabs Qfield Lqa.
From Stdlib Require Import Ascii String DecimalN DecimalPos.
From stdpp Require Import gmap strings list sorting.

Local Open Scope Z_scope.
Local Open Scope nat_scope.

(** ** The random source *)

Module Random.

(** A value of [Math.random()]: the fraction [num / (num + gap + 1)], which
    lies in [[0,1)] by construction; every rational of that interval has
    this form. *)
Record unit_fraction := UnitFraction { num : nat; gap : nat }.

Definition den (r : unit_fraction) : nat := num r + gap r + 1.

(** The source itself: the values the successive calls return, and the
    number of calls made so far. *)
Record rng := Rng { outcomes : nat → unit_fraction; calls : nat }.

(** [Math.random()] *)
Definition Math_random (g : rng) : unit_fraction * rng :=
  (outcomes g (calls g), Rng (outcomes g) (S (calls g))).

(** [Math.floor(r * n)] for a natural [n] *)
Definition floor_mul (r : unit_fraction) (n : nat) : nat :=
  (num r * n) `div` den r.

(** The fraction [j / (i + 1)] for [j <= i], whose scaled floor is [j]. *)
Definition pick (j i : nat) : unit_fraction := UnitFraction j (i - j).

End Random.
Import Random.

(** ** Arrays *)

Section Arrays.
Context {T : Type}.

(** [[a[i], a[j]] = [a[j], a[i]]]: the right-hand side is read first, then
    [a[i]] and [a[j]] are written in that order.  Both indices are inside
    the array wherever the source performs the exchange: the loop starts
    below the length and draws [j] at most [i] ([floor_mul_lt]).  Outside,
    where JavaScript would read [undefined] and extend the array, the model
    leaves the array alone. *)
Definition exchange (i j : nat) (a : list T) : list T :=
  match a !! j, a !! i with
  | Some aj, Some ai => <[j:=ai]> (<[i:=aj]> a)
  | _, _ => a
  end.

(** [Array.prototype.slice(start, end)] with its relative indices. *)
Definition slice_bound (len : nat) (k : Z) : nat :=
  if (k <? 0)%Z then Z.to_nat (Z.max (Z.of_nat len + k) 0)
  else Z.to_nat (Z.min k (Z.of_nat len)).

Definition slice (a : list T) (start fin : Z) : list T :=
  let k := slice_bound (length a) start in
  let final := slice_bound (length a) fin in
  take (final - k) (drop k a).

(** The body of [shuffleArray]'s loop, for [i] going down to [1]. *)
Fixpoint shuffle_loop (i : nat) (shuffled : list T) (g : rng)
  : list T * rng :=
  match i with
  | 0 => (shuffled, g)
  | S i' =>
      let '(r, g') := Math_random g in
      let j := floor_mul r (i + 1) in
      shuffle_loop i' (exchange i j shuffled) g'
  end.

(** [shuffleArray]: the copy [[...array]] is the list itself, values being
    immutable here; [Store.shuffleArray] below keeps the copy explicit. *)
Definition shuffleArray (array : list T) (g : rng) : list T * rng :=
  let shuffled := array in
  shuffle_loop (length shuffled - 1) shuffled g.

End Arrays.

(** ** Words and the selection engine *)

Record Word := mkWord {
  word : string;
  meaning : string;
  example : string;
  difficulty : string
}.

Global Instance Word_eq_dec : EqDecision Word.
Proof. solve_decision. Defined.

(** [selectRandomWords(words, count, difficulty = 'all')]; an omitted
    argument is [None]. *)
Definition selectRandomWords (words : list Word) (count : Z)
    (difficulty_arg : option string) (g : rng) : list Word * rng :=
  let d := default "all"%string difficulty_arg in
  let filteredWords := words in
  let filteredWords :=
    if decide (d ≠ "all"%string)
    then filter (λ w, difficulty w = d) words
    else filteredWords in
  let filteredWords :=
    if decide (Z.of_nat (length filteredWords) < count)%Z
    then words
    else filteredWords in
  let '(shuffled, g') := shuffleArray filteredWords g in
  (slice shuffled 0 count, g').

(** [generateWrongAnswers(correctWord, allWords, count = 3)] *)
Definition wrongWords (correctWord : Word) (allWords : list Word) : list Word :=
  filter (λ w, word w ≠ word correctWord) allWords.

Definition generateWrongAnswers (correctWord : Word) (allWords : list Word)
    (count_arg : option Z) (g : rng) : list string * rng :=
  let count := default 3%Z count_arg in
  let '(shuffledWrongWords, g') :=
    shuffleArray (wrongWords correctWord allWords) g in
  (meaning <$> slice shuffledWrongWords 0 count, g').

(** [createMultipleChoiceOptions(correctWord, allWords)] *)
Definition createMultipleChoiceOptions (correctWord : Word)
    (allWords : list Word) (g : rng) : list string * rng :=
  let '(wrongAnswers, g') := generateWrongAnswers correctWord allWords None g in
  let allOptions := meaning correctWord :: wrongAnswers in
  shuffleArray allOptions g'.

(** ** The shuffle on a store of arrays

    [shuffleArray] receives a reference to an array that its caller keeps
    using; the copy [[...array]] and the in-place exchanges are modelled on a
    store so that what happens to the argument is visible. *)

Module Store.
Section Store.
Context {T : Type}.

(** References are natural numbers; a store maps them to array contents. *)
Abbreviation store := (gmap nat (list T)).

(** [[...array]]: a new array with the same elements. *)
Definition spread (array : nat) (h : store) : nat * store :=
  let fresh_ref := fresh (dom h) in
  (fresh_ref, <[fresh_ref := default [] (h !! array)]> h).

(** [a[i]] *)
Definition read (a i : nat) (h : store) : option T :=
  h !! a ≫= λ elems, elems !! i.

(** [a[i] = v] *)
Definition write (a i : nat) (v : T) (h : store) : store :=
  alter (λ elems, <[i:=v]> elems) a h.

Definition exchange (a i j : nat) (h : store) : store :=
  match read a j h, read a i h with
  | Some aj, Some ai => write a j ai (write a i aj h)
  | _, _ => h
  end.

Fixpoint shuffle_loop (i : nat) (shuffled : nat) (h : store) (g : rng)
  : store * rng :=
  match i with
  | 0 => (h, g)
  | S i' =>
      let '(r, g') := Math_random g in
      let j := floor_mul r (i + 1) in
      shuffle_loop i' shuffled (exchange shuffled i j h) g'
  end.

Definition shuffleArray (array : nat) (h : store) (g : rng)
  : nat * store * rng :=
  let '(shuffled, h1) := spread array h in
  let len := length (default [] (h1 !! shuffled)) in
  let '(h2, g') := shuffle_loop (len - 1) shuffled h1 g in
  (shuffled, h2, g').

End Store.
End Store.

(** ** JSON texts ([JSON.stringify] and [JSON.parse])

    The values that the session hook stores are built from integers, strings,
    booleans, arrays and objects.  [stringify] writes such a value the way
    [JSON.stringify] does, without white space and with its escapes for
    quotes, backslashes and control characters; [parse] reads the texts of
    that form back.  Strings are sequences of 8-bit characters, and numbers
    are integers, written in plain decimal as [JSON.stringify] writes the
    integers that a [number] holds exactly. *)

Module JSON.

Local Unset Elimination Schemes.

Inductive json :=
| JNull
| JBool (b : bool)
| JNum (n : Z)
| JStr (s : string)
| JArr (items : list json)
| JObj (members : list (string * json)).

Local Set Elimination Schemes.

Abbreviation text := (list ascii).

Local Open Scope char_scope.

(** The double quote character (code 34). *)
Abbreviation dquote := (Ascii false true false false false true false false).

(** *** Writing *)

Fixpoint digits (d : Decimal.uint) : text :=
  match d with
  | Decimal.Nil => []
  | Decimal.D0 d => "0" :: digits d
  | Decimal.D1 d => "1" :: digits d
  | Decimal.D2 d => "2" :: digits d
  | Decimal.D3 d => "3" :: digits d
  | Decimal.D4 d => "4" :: digits d
  | Decimal.D5 d => "5" :: digits d
  | Decimal.D6 d => "6" :: digits d
  | Decimal.D7 d => "7" :: digits d
  | Decimal.D8 d => "8" :: digits d
  | Decimal.D9 d => "9" :: digits d
  end.

Definition print_int (n : Z) : text :=
  if (n <? 0)%Z then "-" :: digits (N.to_uint (Z.abs_N n))
  else digits (N.to_uint (Z.to_N n)).

Definition hex_digit (n : N) : ascii :=
  if (n <? 10)%N then ascii_of_N (48 + n) else ascii_of_N (87 + n).

(** How [JSON.stringify] writes one character of a string. *)
Definition escape (c : ascii) : text :=
  let n := N_of_ascii c in
  if c =? dquote then ["\"; dquote]
  else if c =? "\" then ["\"; "\"]
  else if (n =? 8)%N then ["\"; "b"]
  else if (n =? 9)%N then ["\"; "t"]
  else if (n =? 10)%N then ["\"; "n"]
  else if (n =? 12)%N then ["\"; "f"]
  else if (n =? 13)%N then ["\"; "r"]
  else if (n <? 32)%N
       then ["\"; "u"; "0"; "0"; hex_digit (n / 16); hex_digit (n mod 16)]
  else [c].

Definition quote (s : string) : text :=
  dquote :: flat_map escape (list_ascii_of_string s) ++ [dquote].

Fixpoint join_commas (parts : list text) : text :=
  match parts with
  | [] => []
  | [p] => p
  | p :: parts' => p ++ "," :: join_commas parts'
  end.

Fixpoint print (v : json) : text :=
  match v with
  | JNull => ["n"; "u"; "l"; "l"]
  | JBool true => ["t"; "r"; "u"; "e"]
  | JBool false => ["f"; "a"; "l"; "s"; "e"]
  | JNum n => print_int n
  | JStr s => quote s
  | JArr items => "[" :: join_commas (List.map print items) ++ ["]"]
  | JObj members =>
      "{" :: join_commas
               (List.map (λ m, quote (fst m) ++ ":" :: print (snd m)) members)
          ++ ["}"]
  end.

(** [JSON.stringify(value)] *)
Definition stringify (v : json) : string := string_of_list_ascii (print v).

(** *** Reading *)

Definition digit_of (c : ascii) : option (Decimal.uint → Decimal.uint) :=
  if c =? "0" then Some Decimal.D0
  else if c =? "1" then Some Decimal.D1
  else if c =? "2" then Some Decimal.D2
  else if c =? "3" then Some Decimal.D3
  else if c =? "4" then Some Decimal.D4
  else if c =? "5" then Some Decimal.D5
  else if c =? "6" then Some Decimal.D6
  else if c =? "7" then Some Decimal.D7
  else if c =? "8" then Some Decimal.D8
  else if c =? "9" then Some Decimal.D9
  else None.

(** The longest run of digits at the head of a text, and what follows it. *)
Fixpoint read_uint (s : text) : Decimal.uint * text :=
  match s with
  | [] => (Decimal.Nil, [])
  | c :: s' =>
      match digit_of c with
      | Some digit => let '(d, rest) := read_uint s' in (digit d, rest)
      | None => (Decimal.Nil, s)
      end
  end.

Definition hex_value (c : ascii) : option N :=
  let n := N_of_ascii c in
  if (48 <=? n)%N && (n <=? 57)%N then Some (n - 48)%N
  else if (97 <=? n)%N && (n <=? 102)%N then Some (n - 87)%N
  else if (65 <=? n)%N && (n <=? 70)%N then Some (n - 55)%N
  else None.

(** The character that a backslash followed by [e] stands for, for the
    one-letter escapes. *)
Definition unescape (e : ascii) : option ascii :=
  if e =? dquote then Some dquote
  else if e =? "\" then Some "\"
  else if e =? "/" then Some "/"
  else if e =? "b" then Some (ascii_of_N 8)
  else if e =? "t" then Some (ascii_of_N 9)
  else if e =? "n" then Some (ascii_of_N 10)
  else if e =? "f" then Some (ascii_of_N 12)
  else if e =? "r" then Some (ascii_of_N 13)
  else None.

(** The characters of a string literal after its opening quote, up to the
    closing quote, and what follows it.  A code above 255 has no 8-bit
    character and is refused, like an unescaped control character. *)
Fixpoint read_string (s : text) : option (list ascii * text) :=
  match s with
  | [] => None
  | c :: rest =>
      if c =? dquote then Some ([], rest)
      else if c =? "\" then
        match rest with
        | [] => None
        | e :: rest1 =>
            if e =? "u" then
              match rest1 with
              | h1 :: h2 :: h3 :: h4 :: rest2 =>
                  match hex_value h1, hex_value h2, hex_value h3, hex_value h4
                  with
                  | Some a, Some b, Some c', Some d =>
                      let code := (((a * 16 + b) * 16 + c') * 16 + d)%N in
                      if (code <? 256)%N
                      then match read_string rest2 with
                           | Some (cs, rest3) =>
                               Some (ascii_of_N code :: cs, rest3)
                           | None => None
                           end
                      else None
                  | _, _, _, _ => None
                  end
              | _ => None
              end
            else
              match unescape e with
              | Some c' =>
                  match read_string rest1 with
                  | Some (cs, rest2) => Some (c' :: cs, rest2)
                  | None => None
                  end
              | None => None
              end
        end
      else if (N_of_ascii c <? 32)%N then None
      else match read_string rest with
           | Some (cs, rest1) => Some (c :: cs, rest1)
           | None => None
           end
  end.

(** [expect word s]: [s] without its prefix [word]. *)
Fixpoint expect (word s : text) : option text :=
  match word, s with
  | [], _ => Some s
  | w :: word', c :: s' => if w =? c then expect word' s' else None
  | _ :: _, [] => None
  end.

(** A value at the head of a text, and what follows it.  [fuel] bounds the
    nesting of the recursion; [parse] supplies the length of the text. *)
Fixpoint parse_value (fuel : nat) (s : text) : option (json * text) :=
  match fuel with
  | 0 => None
  | S fuel' =>
      match s with
      | [] => None
      | c :: rest =>
          if c =? "n" then
            rest' ← expect ["u"; "l"; "l"] rest; Some (JNull, rest')
          else if c =? "t" then
            rest' ← expect ["r"; "u"; "e"] rest; Some (JBool true, rest')
          else if c =? "f" then
            rest' ← expect ["a"; "l"; "s"; "e"] rest; Some (JBool false, rest')
          else if c =? dquote then
            '(cs, rest') ← read_string rest;
            Some (JStr (string_of_list_ascii cs), rest')
          else if c =? "[" then
            match rest with
            | c' :: rest' =>
                if c' =? "]" then Some (JArr [], rest')
                else '(items, rest'') ← parse_elements fuel' rest;
                     Some (JArr items, rest'')
            | [] => None
            end
          else if c =? "{" then
            match rest with
            | c' :: rest' =>
                if c' =? "}" then Some (JObj [], rest')
                else '(members, rest'') ← parse_members fuel' rest;
                     Some (JObj members, rest'')
            | [] => None
            end
          else if c =? "-" then
            match read_uint rest with
            | (Decimal.Nil, _) => None
            | (d, rest') => Some (JNum (- Z.of_N (N.of_uint d)), rest')
            end
          else
            match read_uint s with
            | (Decimal.Nil, _) => None
            | (d, rest') => Some (JNum (Z.of_N (N.of_uint d)), rest')
            end
      end
  end
with parse_elements (fuel : nat) (s : text) : option (list json * text) :=
  match fuel with
  | 0 => None
  | S fuel' =>
      '(v, rest) ← parse_value fuel' s;
      match rest with
      | c :: rest' =>
          if c =? "," then
            '(vs, rest'') ← parse_elements fuel' rest'; Some (v :: vs, rest'')
          else if c =? "]" then Some ([v], rest')
          else None
      | [] => None
      end
  end
with parse_members (fuel : nat) (s : text)
  : option (list (string * json) * text) :=
  match fuel with
  | 0 => None
  | S fuel' =>
      match s with
      | q :: s' =>
          if q =? dquote then
            '(cs, rest) ← read_string s';
            match rest with
            | colon :: rest0 =>
                if colon =? ":" then
                  '(v, rest1) ← parse_value fuel' rest0;
                  let member := (string_of_list_ascii cs, v) in
                  match rest1 with
                  | c :: rest' =>
                      if c =? "," then
                        '(ms, rest'') ← parse_members fuel' rest';
                        Some (member :: ms, rest'')
                      else if c =? "}" then Some ([member], rest')
                      else None
                  | [] => None
                  end
                else None
            | [] => None
            end
          else None
      | [] => None
      end
  end.

(** The fuel that reading a written value takes. *)
Fixpoint need (v : json) : nat :=
  match v with
  | JArr items =>
      S (fold_right (λ x acc, S (Nat.max (need x) acc)) 0 items)
  | JObj members =>
      S (fold_right (λ m acc, S (Nat.max (need (snd m)) acc)) 0 members)
  | _ => 1
  end.

(** A text that cannot continue a number: it is empty or starts with a
    character that is not a digit. *)
Definition ends_number (rest : text) : Prop :=
  match rest with
  | [] => True
  | c :: _ => digit_of c = None
  end.

Definition need_elements (items : list json) : nat :=
  fold_right (λ x acc, S (Nat.max (need x) acc)) 0 items.

Definition need_members (members : list (string * json)) : nat :=
  fold_right (λ m acc, S (Nat.max (need (snd m)) acc)) 0 members.

(** What it means for a value to be read back from its text, whatever
    follows the text. *)
Definition reads_back (v : json) : Prop :=
  ∀ fuel rest, need v ≤ fuel → ends_number rest →
    parse_value fuel (print v ++ rest) = Some (v, rest).

(** [JSON.parse(text)] for the texts that [stringify] writes; [None] stands
    for the [SyntaxError] it throws.  A text with white space between its
    tokens, or with a number that has a fraction, an exponent or a leading
    zero, is not of that form. *)
Definition parse (s : string) : option json :=
  let t := list_ascii_of_string s in
  match parse_value (length t) t with
  | Some (v, []) => Some v
  | _ => None
  end.

(** [value[name]] on a parsed value: the member of an object, the last one
    when the text repeats the name. *)
Definition member (name : string) (v : json) : option json :=
  match v with
  | JObj members =>
      match list_find (λ m, fst m = name) (reverse members) with
      | Some (_, (_, v')) => Some v'
      | None => None
      end
  | _ => None
  end.

End JSON.

(** ** The quiz session ([useTestState]) *)

Record Answer := mkAnswer {
  questionIndex : Z;
  selectedAnswer : string;
  correct : bool
}.

Record TestState := mkTestState {
  currentQuestionIndex : Z;
  score : Z;
  selectedWords : list Word;
  answers : list Answer;
  startTime : Z
}.

(** [Partial<TestState>]: the fields an update carries. *)
Record PartialTestState := mkPartial {
  new_currentQuestionIndex : option Z;
  new_score : option Z;
  new_selectedWords : option (list Word);
  new_answers : option (list Answer);
  new_startTime : option Z
}.

Definition no_updates : PartialTestState := mkPartial None None None None None.

(** [{ ...testState, ...updates }] *)
Definition spread_updates (testState : TestState) (updates : PartialTestState)
  : TestState :=
  {| currentQuestionIndex :=
       default (currentQuestionIndex testState)
               (new_currentQuestionIndex updates);
     score := default (score testState) (new_score updates);
     selectedWords :=
       default (selectedWords testState) (new_selectedWords updates);
     answers := default (answers testState) (new_answers updates);
     startTime := default (startTime testState) (new_startTime updates) |}.

(** [Array.prototype.findIndex]: the first index whose element satisfies the
    predicate, [-1] when there is none. *)
Definition findIndex {A} (P : A → Prop) `{∀ x, Decision (P x)} (l : list A) : Z :=
  match list_find P l with
  | Some (i, _) => Z.of_nat i
  | None => (-1)%Z
  end.

(** The field [questionIndex], under a name that parameters called
    [questionIndex] do not hide. *)
Definition Answer_questionIndex (a : Answer) : Z := questionIndex a.

(** *** Sessions as JavaScript values

    What a session looks like as a value, with its members in the order in
    which [initializeTest] creates them, and how the members that the code
    accesses are read from a value. *)

Import JSON.

Definition js_of_Word (w : Word) : json :=
  JObj [("word", JStr (word w)); ("meaning", JStr (meaning w));
        ("example", JStr (example w)); ("difficulty", JStr (difficulty w))]%string.

Definition js_of_Answer (a : Answer) : json :=
  JObj [("questionIndex", JNum (questionIndex a));
        ("selectedAnswer", JStr (selectedAnswer a));
        ("correct", JBool (correct a))]%string.

Definition js_of_TestState (st : TestState) : json :=
  JObj [("currentQuestionIndex", JNum (currentQuestionIndex st));
        ("score", JNum (score st));
        ("selectedWords", JArr (js_of_Word <$> selectedWords st));
        ("answers", JArr (js_of_Answer <$> answers st));
        ("startTime", JNum (startTime st))]%string.

Definition as_number (v : json) : option Z :=
  match v with JNum n => Some n | _ => None end.

Definition as_string (v : json) : option string :=
  match v with JStr s => Some s | _ => None end.

Definition as_boolean (v : json) : option bool :=
  match v with JBool b => Some b | _ => None end.

(** An array whose elements are all read by [f]. *)
Definition as_array_of {A} (f : json → option A) (v : json)
  : option (list A) :=
  match v with JArr items => mapM f items | _ => None end.

Definition Word_of_js (v : json) : option Word :=
  w ← member "word" v ≫= as_string;
  m ← member "meaning" v ≫= as_string;
  e ← member "example" v ≫= as_string;
  d ← member "difficulty" v ≫= as_string;
  Some (mkWord w m e d).

Definition Answer_of_js (v : json) : option Answer :=
  q ← member "questionIndex" v ≫= as_number;
  s ← member "selectedAnswer" v ≫= as_string;
  c ← member "correct" v ≫= as_boolean;
  Some (mkAnswer q s c).

(** [value.currentQuestionIndex], [value.score] and [value.answers] *)
Definition js_currentQuestionIndex (v : json) : option Z :=
  member "currentQuestionIndex" v ≫= as_number.

Definition js_score (v : json) : option Z :=
  member "score" v ≫= as_number.

Definition js_answers (v : json) : option (list Answer) :=
  member "answers" v ≫= as_array_of Answer_of_js.

(** A value read as a session: [None] for [null] and for any value that
    lacks a member of a session or has one of another type.  TypeScript
    does not check the value that [JSON.parse] returns; the hook only ever
    stores sessions and [null], and those are read back as they were
    ([TestState_of_js_of]). *)
Definition TestState_of_js (v : json) : option TestState :=
  i ← js_currentQuestionIndex v;
  s ← js_score v;
  ws ← member "selectedWords" v ≫= as_array_of Word_of_js;
  ans ← js_answers v;
  t ← member "startTime" v ≫= as_number;
  Some (mkTestState i s ws ans t).

(** *** The browser's store and [useLocalStorage] *)

(** [window.localStorage]: the stored items, and whether [setItem] stores a
    given item or throws (a full or disabled store). *)
Record localStorage := mkLocalStorage {
  items : gmap string string;
  accepts : string → string → bool
}.

(** [typeof window === 'undefined'] on the server; in a browser the window
    has its store. *)
Inductive window :=
| NoWindow
| Window (store : localStorage).

Definition getItem (ls : localStorage) (key : string) : option string :=
  items ls !! key.

(** [None] when [setItem] throws. *)
Definition setItem (ls : localStorage) (key value : string)
  : option localStorage :=
  if accepts ls key value
  then Some (mkLocalStorage (<[key := value]> (items ls)) (accepts ls))
  else None.

Definition removeItem (ls : localStorage) (key : string) : localStorage :=
  mkLocalStorage (delete key (items ls)) (accepts ls).

(** An instance of the hook: its React state and the window it runs in. *)
Record hook := mkHook {
  storedValue : json;
  win : window
}.

Section useLocalStorage.
Context (key : string) (initialValue : json).

(** The initial state [useState(() => ...)] computes when the component
    mounts; an empty item is falsy, and a text that [JSON.parse] refuses is
    caught. *)
Definition mount (w : window) : hook :=
  let initial :=
    match w with
    | NoWindow => initialValue
    | Window ls =>
        match getItem ls key with
        | Some item =>
            if decide (item = EmptyString) then initialValue
            else match JSON.parse item with
                 | Some v => v
                 | None => initialValue
                 end
        | None => initialValue
        end
    end in
  mkHook initial w.

(** [setValue(value)], for a value or a function of the stored value. *)
Definition setValue (value : json + (json → json)) (h : hook) : hook :=
  let valueToStore :=
    match value with
    | inl v => v
    | inr f => f (storedValue h)
    end in
  match win h with
  | NoWindow => mkHook valueToStore NoWindow
  | Window ls =>
      match setItem ls key (JSON.stringify valueToStore) with
      | Some ls' => mkHook valueToStore (Window ls')
      | None => mkHook valueToStore (Window ls)
      end
  end.

Definition removeValue (h : hook) : hook :=
  match win h with
  | NoWindow => mkHook initialValue NoWindow
  | Window ls => mkHook initialValue (Window (removeItem ls key))
  end.

End useLocalStorage.

(** *** [useTestState] *)

Module Session.

(** The functions of the hook read the session [testState] of the current
    render and hand the next session to [setTestState].  Successive calls
    are chained on the assumption that the component has rendered in
    between, so that a call sees the session its predecessor has set. *)

Definition key : string := "vocabtest-state".

Definition testState (h : hook) : option TestState :=
  TestState_of_js (storedValue h).

Definition setTestState (st : TestState) (h : hook) : hook :=
  setValue key (inl (js_of_TestState st)) h.

Definition clearTestState (h : hook) : hook := removeValue key JNull h.

(** The state of the hook when the page loads. *)
Definition load (w : window) : hook := mount key JNull w.

(** [initializeTest(words)], with the value of [Date.now()] *)
Definition initializeTest (words : list Word) (now : Z) (h : hook) : hook :=
  let newTestState :=
    {| currentQuestionIndex := 0; score := 0; selectedWords := words;
       answers := []; startTime := now |} in
  setTestState newTestState h.

Definition updateTestState (updates : PartialTestState) (h : hook) : hook :=
  match testState h with
  | Some st => setTestState (spread_updates st updates) h
  | None => h
  end.

Definition recordAnswer (questionIndex : Z) (selectedAnswer : string)
    (correct : bool) (h : hook) : hook :=
  match testState h with
  | Some st =>
      let newAnswer := mkAnswer questionIndex selectedAnswer correct in
      let updatedAnswers := answers st in
      let existingIndex :=
        findIndex (λ a, Answer_questionIndex a = questionIndex) updatedAnswers in
      let updatedAnswers :=
        if decide (0 ≤ existingIndex)%Z
        then <[Z.to_nat existingIndex := newAnswer]> updatedAnswers
        else updatedAnswers ++ [newAnswer] in
      updateTestState
        {| new_currentQuestionIndex := None;
           new_score := Some (if correct then (score st + 1)%Z else score st);
           new_selectedWords := None;
           new_answers := Some updatedAnswers;
           new_startTime := None |} h
  | None => h
  end.

Definition nextQuestion (h : hook) : hook :=
  match testState h with
  | Some st =>
      if decide (currentQuestionIndex st
                 < Z.of_nat (length (selectedWords st)) - 1)%Z
      then updateTestState
             {| new_currentQuestionIndex := Some (currentQuestionIndex st + 1)%Z;
                new_score := None; new_selectedWords := None;
                new_answers := None; new_startTime := None |} h
      else h
  | None => h
  end.

Definition resetTest (h : hook) : hook := clearTestState h.

End Session.

(** ** The results store ([useTestResults])

    The hook talks to three parts of the world: the Supabase tables
    [test_results] and [user_stats], and the clock.  A call to Supabase
    resolves to data, resolves to an error, or rejects; which of these
    happens is scripted by the list [faults] of the world, one entry per
    call, and every call issued is recorded in [log]. *)

(** [number] values that are not integers: the values of IEEE 754 binary64,
    a finite one as the rational that it is, the two infinities and NaN.
    The sign of a zero is not kept; [JSON.stringify] writes either zero as
    [0].  Integers are [Z], as everywhere: a [number] holds them exactly
    below [2 ^ 53]. *)
Inductive jsnum :=
| Finite (q : Q)
| PosInfinity
| NegInfinity
| NaN.

Definition of_int (n : Z) : jsnum := Finite (inject_Z n).

(** The integer nearest to [q], the even one of two that are equally
    near. *)
Definition nearest_even (q : Q) : Z :=
  let f := Qfloor q in
  match (q - inject_Z f ?= 1 # 2)%Q with
  | Lt => f
  | Gt => (f + 1)%Z
  | Eq => if Z.even f then f else (f + 1)%Z
  end.

(** The largest [e] with [2 ^ e ≤ q], for a positive [q]. *)
Definition floor_log2 (q : Q) : Z :=
  let k := (Z.log2 (Qnum q) - Z.log2 (Zpos (Qden q)))%Z in
  if Qle_bool (2 ^ k) q then k else (k - 1)%Z.

(** The binary64 value nearest to a positive [q]: a multiple of [2 ^ p] of
    at most 53 bits, where [p] is at least [-1074]; infinite from
    [2 ^ 1024] on. *)
Definition binary64_pos (q : Q) : jsnum :=
  let e := floor_log2 q in
  let p := (Z.max e (-1022) - 52)%Z in
  let v := (inject_Z (nearest_even (q / 2 ^ p)) * 2 ^ p)%Q in
  if Qle_bool (2 ^ 1024) v then PosInfinity else Finite (Qred v).

Definition negated (x : jsnum) : jsnum :=
  match x with
  | Finite q => Finite (- q)
  | PosInfinity => NegInfinity
  | NegInfinity => PosInfinity
  | NaN => NaN
  end.

(** The binary64 value nearest to [q]: what an operation on [number]s
    yields when [q] is its exact result. *)
Definition binary64 (q : Q) : jsnum :=
  match Qnum q with
  | Z0 => Finite 0
  | Zpos _ => binary64_pos q
  | Zneg _ => negated (binary64_pos (- q))
  end.

(** The error of that rounding: at most [eps64] of the number, or [tiny64]
    for the least numbers. *)
Definition eps64 : Q := 2 ^ (-53).
Definition tiny64 : Q := 2 ^ (-1075).

(** [a / b] for integers [a] and [b] *)
Definition js_div (a b : Z) : jsnum :=
  if decide (b = 0)%Z then
    if decide (a = 0)%Z then NaN
    else if decide (0 < a)%Z then PosInfinity else NegInfinity
  else binary64 (inject_Z a / inject_Z b).

(** [x * n] for a positive integer [n] *)
Definition js_mul_pos (x : jsnum) (n : positive) : jsnum :=
  match x with
  | Finite q => binary64 (q * inject_Z (Z.pos n))
  | other => other
  end.

(** Two values denote the same number, or both none. *)
Definition num_eq (x y : jsnum) : Prop :=
  match x, y with
  | Finite p, Finite q => p == q
  | PosInfinity, PosInfinity | NegInfinity, NegInfinity | NaN, NaN => True
  | _, _ => False
  end.

(** *** Numbers on their way into a [DECIMAL(5,2)] column

    The client sends a row as JSON.  [JSON.stringify] writes a finite
    [number] as the decimal with the fewest digits that is read back as that
    [number], and writes [null] for NaN and the infinities.  The column
    rounds what it is given to two decimals, halves away from zero, refuses
    a number that then has more than three digits before the point, and is
    NULL for [null]. *)

(** [10 ^ p] as a rational. *)
Definition pow10 (p : Z) : Q :=
  if decide (0 ≤ p)%Z then inject_Z (10 ^ p)
  else Qmake 1 (Z.to_pos (10 ^ (- p))).

(** Whether the decimal [d] is read as the binary64 value [x]. *)
Definition reads_as (d x : Q) : bool :=
  match binary64 d with
  | Finite y => Qeq_bool y x
  | _ => false
  end.

(** The shortest decimal that is read as the positive binary64 value [x],
    looked for among the multiples of the units [10 ^ p], [10 ^ (p - 1)],
    ..., [steps] units far: of the two multiples of a unit around [x] the
    one that is read as [x]; the nearer one if both are, and the even one
    if they are equally near. *)
Fixpoint shortest_from (steps : nat) (x : Q) (p : Z) : Q :=
  match steps with
  | O => x
  | S steps' =>
      let unit := pow10 p in
      let s := Qfloor (x / unit) in
      let below := (inject_Z s * unit)%Q in
      let above := (inject_Z (s + 1) * unit)%Q in
      let below_ok := bool_decide (0 < s)%Z && reads_as below x in
      let above_ok := reads_as above x in
      if below_ok && above_ok then
        match (x - below ?= above - x)%Q with
        | Lt => below
        | Gt => above
        | Eq => if Z.even s then below else above
        end
      else if below_ok then below
      else if above_ok then above
      else shortest_from steps' x (p - 1)
  end.

(** An exponent [p] with [x < 10 ^ p] for a positive [x], at most 3 above
    the least one: [1233 / 4096 < log 2 / log 10 < 1234 / 4096]. *)
Definition upper_exponent (x : Q) : Z :=
  let a := Qnum x in
  let b := Zpos (Qden x) in
  if decide (b ≤ a)%Z then ((Z.log2 (a / b) + 1) * 1234 / 4096 + 1)%Z
  else (1 - Z.log2 (b / a) * 1233 / 4096)%Z.

(** The number that [JSON.stringify] writes for the binary64 value [x]; it
    has at most 17 digits. *)
Definition shortest_decimal (x : Q) : Q :=
  match Qnum x with
  | Z0 => 0%Q
  | Zpos _ => shortest_from 24 x (upper_exponent x)
  | Zneg _ => (- shortest_from 24 (- x) (upper_exponent (- x)))%Q
  end.

(** [d] rounded to two decimals, halves away from zero, in hundredths. *)
Definition hundredths (d : Q) : Z :=
  match Qnum d with
  | Zneg _ => (- Qfloor ((- d) * 100 + (1 # 2))%Q)%Z
  | _ => Qfloor (d * 100 + (1 # 2))%Q
  end.

(** What a [DECIMAL(5,2)] column keeps of a [number] sent to it, [None]
    when it refuses the number.  A column that is NULL is kept as [NaN]:
    not a number. *)
Definition decimal_5_2 (x : jsnum) : option jsnum :=
  match x with
  | Finite q =>
      let h := hundredths (shortest_decimal q) in
      if decide (Z.abs h < 100000)%Z then Some (Finite (Qred (Qmake h 100)))
      else None
  | _ => Some NaN
  end.

(** [Math.round(n / 1000)] for an integer [n]: the nearest integer, halves
    going up. *)
Definition round_div_1000 (n : Z) : Z := ((n + 500) `div` 1000)%Z.

Record User := mkUser { user_id : string }.

(** The values [saveTestResult] inserts into [test_results]. *)
Record NewTestResult := mkNewTestResult {
  n_user_id : string;
  n_score : Z;
  n_total_questions : Z;
  n_difficulty : string;
  n_time_taken : Z;
  n_answers : list Answer
}.

(** A row of [test_results]: the inserted values with the [id] and the
    [created_at] that the database supplies. *)
Record TestResult := mkTestResult {
  r_id : nat;
  r_created_at : Z;
  r_values : NewTestResult
}.

Definition r_user_id (r : TestResult) : string := n_user_id (r_values r).

(** The columns that the hook writes to [user_stats]. *)
Record StatsValues := mkStatsValues {
  total_tests : Z;
  total_questions : Z;
  correct_answers : Z;
  accuracy_percentage : jsnum;
  average_score : jsnum;
  best_score : Z
}.

(** A row of [user_stats]; the table is keyed by [user_id], which is
    [UNIQUE]. *)
Record UserStats := mkUserStats {
  s_values : StatsValues;
  s_created_at : Z;
  s_updated_at : Z
}.

(** What the columns of [user_stats] keep of the values sent, as
    [final_database_setup.sql] declares them: [total_tests],
    [total_questions], [correct_answers] and [best_score] are [INTEGER],
    [accuracy_percentage] and [average_score] are [DECIMAL(5,2)]; [None] when
    one of these refuses its value.  The integers are taken to be in the
    range of [INTEGER]. *)
Definition stored_stats (values : StatsValues) : option StatsValues :=
  accuracy ← decimal_5_2 (accuracy_percentage values);
  average ← decimal_5_2 (average_score values);
  Some {| total_tests := total_tests values;
          total_questions := total_questions values;
          correct_answers := correct_answers values;
          accuracy_percentage := accuracy;
          average_score := average;
          best_score := best_score values |}.

Inductive fault := NoFault | ReturnsError | Rejects.

Inductive call :=
| InsertTestResult (values : NewTestResult)
| SelectUserStats (user : string)
| UpdateUserStats (user : string) (values : StatsValues) (updated_at : Z)
| InsertUserStats (user : string) (values : StatsValues)
| SelectTestResults (user : string)
| DeleteTestResults (ids : list nat).

Record world := mkWorld {
  test_results : list TestResult;
  user_stats : gmap string UserStats;
  next_id : nat;      (* the next [id] of [test_results] *)
  db_time : Z;        (* [NOW()] in the database *)
  js_time : Z;        (* [Date.now()] in the browser *)
  faults : list fault;
  log : list call
}.

(** *** Asynchronous code that may throw *)

Inductive outcome (A : Type) :=
| Returned (a : A)
| Thrown.
Arguments Returned {A} a.
Arguments Thrown {A}.

Definition M (A : Type) : Type := world → outcome A * world.

Global Instance M_ret : MRet M := λ A a w, (Returned a, w).

Global Instance M_bind : MBind M := λ A B f m w,
  match m w with
  | (Returned a, w') => f a w'
  | (Thrown, w') => (Thrown, w')
  end.

(** [try { body } catch (error) { handler }] *)
Definition try_catch {A} (body handler : M A) : M A := λ w,
  match body w with
  | (Thrown, w') => handler w'
  | returned => returned
  end.

Definition get {A} (f : world → A) : M A := λ w, (Returned (f w), w).

(** *** The Supabase client *)

Module supabase.

(** Issuing a call: it is logged, and the next entry of the script says how
    it fares; a script that has run out means no fault. *)
Definition issue (c : call) : M fault := λ w,
  let f := default NoFault (head (faults w)) in
  let w' := mkWorld (test_results w) (user_stats w) (next_id w) (db_time w)
                    (js_time w) (tail (faults w)) (log w ++ [c]) in
  match f with
  | Rejects => (Thrown, w')
  | _ => (Returned f, w')
  end.

Definition set_test_results (rows : list TestResult) (next : nat) : M () := λ w,
  (Returned (),
   mkWorld rows (user_stats w) next (db_time w) (js_time w) (faults w) (log w)).

Definition set_user_stats (stats : gmap string UserStats) : M () := λ w,
  (Returned (),
   mkWorld (test_results w) stats (next_id w) (db_time w) (js_time w)
           (faults w) (log w)).

(** [from('test_results').insert(values).select().single()]: the inserted
    row as [data], or [None] with an [error]. *)
Definition insert_test_result (values : NewTestResult) : M (option TestResult) :=
  f ← issue (InsertTestResult values);
  match f with
  | NoFault =>
      rows ← get test_results; next ← get next_id; now ← get db_time;
      let row := mkTestResult next now values in
      set_test_results (rows ++ [row]) (S next);;
      mret (Some row)
  | _ => mret None
  end.

(** [from('user_stats').select('*').eq('user_id', user).single()]: the row
    as [data], which is [null] when there is none or on an error. *)
Definition select_user_stats (user : string) : M (option UserStats) :=
  f ← issue (SelectUserStats user);
  match f with
  | NoFault => stats ← get user_stats; mret (stats !! user)
  | _ => mret None
  end.

(** [from('user_stats').update({...values, updated_at}).eq('user_id', user)];
    the hook does not look at the result, which is an error when a column
    refuses its value. *)
Definition update_user_stats (user : string) (values : StatsValues)
    (updated_at : Z) : M () :=
  f ← issue (UpdateUserStats user values updated_at);
  match f with
  | NoFault =>
      stats ← get user_stats;
      match stored_stats values with
      | Some kept =>
          set_user_stats
            (alter (λ row, mkUserStats kept (s_created_at row) updated_at)
                   user stats)
      | None => mret ()
      end
  | _ => mret ()
  end.

(** [from('user_stats').insert({user_id, ...values})]; a second row for a
    user violates [UNIQUE] and is refused, as is a value that its column
    refuses.  [created_at] and [updated_at] default to [NOW()]. *)
Definition insert_user_stats (user : string) (values : StatsValues) : M () :=
  f ← issue (InsertUserStats user values);
  match f with
  | NoFault =>
      stats ← get user_stats; now ← get db_time;
      match stats !! user, stored_stats values with
      | None, Some kept =>
          set_user_stats (<[user := mkUserStats kept now now]> stats)
      | _, _ => mret ()
      end
  | _ => mret ()
  end.

(** [.order('created_at', { ascending: false })]: newest first; rows of one
    time keep their order of insertion. *)
Definition not_older (a b : TestResult) : Prop :=
  (r_created_at b ≤ r_created_at a)%Z.

Global Instance not_older_dec a b : Decision (not_older a b).
Proof. unfold not_older. apply _. Defined.

Definition newest_first (rows : list TestResult) : list TestResult :=
  merge_sort not_older rows.

Definition rows_of (user : string) (rows : list TestResult) : list TestResult :=
  filter (λ r, r_user_id r = user) rows.

(** [from('test_results').select('id, created_at').eq('user_id', user)
    .order('created_at', { ascending: false })]: [data], or [None] with an
    [error]. *)
Definition select_test_results (user : string)
  : M (option (list (nat * Z))) :=
  f ← issue (SelectTestResults user);
  match f with
  | NoFault =>
      rows ← get test_results;
      mret (Some ((λ r, (r_id r, r_created_at r))
                    <$> newest_first (rows_of user rows)))
  | _ => mret None
  end.

(** [from('test_results').delete().in('id', ids)]: whether it went without
    an [error]. *)
Definition delete_test_results (ids : list nat) : M bool :=
  f ← issue (DeleteTestResults ids);
  match f with
  | NoFault =>
      rows ← get test_results; next ← get next_id;
      set_test_results (filter (λ r, r_id r ∉ ids) rows) next;;
      mret true
  | _ => mret false
  end.

End supabase.

(** *** The hook *)

(** The values of the statistics after a test of [totalQuestions] questions
    with [correctAnswers] right, on top of the row [currentStats]: the
    branch [if (currentStats)] of [updateUserStats]. *)
Definition updated_stats (currentStats : StatsValues)
    (totalQuestions correctAnswers : Z) : StatsValues :=
  let newTotalTests := (total_tests currentStats + 1)%Z in
  let newTotalQuestions := (total_questions currentStats + totalQuestions)%Z in
  let newCorrectAnswers := (correct_answers currentStats + correctAnswers)%Z in
  let newAccuracy := js_mul_pos (js_div newCorrectAnswers newTotalQuestions) 100 in
  let newAverageScore := js_div newCorrectAnswers newTotalTests in
  let newBestScore := Z.max (best_score currentStats) correctAnswers in
  {| total_tests := newTotalTests;
     total_questions := newTotalQuestions;
     correct_answers := newCorrectAnswers;
     accuracy_percentage := newAccuracy;
     average_score := newAverageScore;
     best_score := newBestScore |}.

(** The values of the first statistics of a user: the [else] branch. *)
Definition created_stats (totalQuestions correctAnswers : Z) : StatsValues :=
  let accuracy := js_mul_pos (js_div correctAnswers totalQuestions) 100 in
  {| total_tests := 1;
     total_questions := totalQuestions;
     correct_answers := correctAnswers;
     accuracy_percentage := accuracy;
     average_score := of_int correctAnswers;
     best_score := correctAnswers |}.

Definition updateUserStats (user : option User) (testState : option TestState)
  : M () :=
  match user, testState with
  | Some u, Some st =>
      try_catch
        (currentStats ← supabase.select_user_stats (user_id u);
         let totalQuestions := Z.of_nat (length (selectedWords st)) in
         let correctAnswers := score st in
         match currentStats with
         | Some row =>
             now ← get js_time;
             supabase.update_user_stats (user_id u)
               (updated_stats (s_values row) totalQuestions correctAnswers) now
         | None =>
             supabase.insert_user_stats (user_id u)
               (created_stats totalQuestions correctAnswers)
         end)
        (mret ())
  | _, _ => mret ()
  end.

Definition cleanupOldTests (user : option User) : M bool :=
  match user with
  | Some u =>
      try_catch
        (allTests ← supabase.select_test_results (user_id u);
         match allTests with
         | None => mret false
         | Some allTests =>
             if decide (20 < length allTests) then
               let testsToDelete := drop 20 allTests in
               let idsToDelete := fst <$> testsToDelete in
               deleted ← supabase.delete_test_results idsToDelete;
               if deleted : bool then mret true else mret false
             else mret true
         end)
        (mret false)
  | None => mret false
  end.

(** The values that both versions of [saveTestResult] insert. *)
Definition new_test_result (u : User) (st : TestState) (difficulty : string)
    (endTime : Z) : NewTestResult :=
  let timeTaken := round_div_1000 (endTime - startTime st) in
  {| n_user_id := user_id u;
     n_score := score st;
     n_total_questions := Z.of_nat (length (selectedWords st));
     n_difficulty := difficulty;
     n_time_taken := timeTaken;
     n_answers := answers st |}.

(** [saveTestResult(testState, difficulty, endTime = Date.now())] of the
    hook that prunes the history. *)
Definition saveTestResult (user : option User) (testState : option TestState)
    (difficulty : string) (endTime_arg : option Z) : M (option TestResult) :=
  now ← get js_time;
  let endTime := default now endTime_arg in
  match user, testState with
  | Some u, Some st =>
      try_catch
        (testResult ← supabase.insert_test_result
                        (new_test_result u st difficulty endTime);
         match testResult with
         | None => mret None
         | Some row =>
             updateUserStats user testState;;
             cleanupOldTests user;;
             mret (Some row)
         end)
        (mret None)
  | _, _ => mret None
  end.

(** [src/app/hooks/useTestResults.ts]: the version of the hook that the
    result page imports.  Its [updateUserStats] is the one above; it has no
    [cleanupOldTests]. *)
Module AppHooks.

Definition saveTestResult (user : option User) (testState : option TestState)
    (difficulty : string) (endTime_arg : option Z) : M (option TestResult) :=
  now ← get js_time;
  let endTime := default now endTime_arg in
  match user, testState with
  | Some u, Some st =>
      try_catch
        (testResult ← supabase.insert_test_result
                        (new_test_result u st difficulty endTime);
         match testResult with
         | None => mret None
         | Some row =>
             updateUserStats user testState;;
             mret (Some row)
         end)
        (mret None)
  | _, _ => mret None
  end.

End AppHooks.

(** ** Notions used in the statements *)

(** *** Selection *)

(** The index that step [i'] of a shuffle loop started at [i] draws from
    [g]. *)
Definition drawn (g : rng) (i i' : nat) : nat :=
  floor_mul (outcomes g (calls g + (i - i'))) (i' + 1).

(** Outcomes under which the shuffle of an array of length [n] moves the
    element at index [k] to the front: the step at index [k] draws [0], every
    other step [i] draws [i] itself. *)
Definition front_rng (n k : nat) : rng :=
  Rng (λ call, let i := n - 1 - call in
               if decide (i = k) then pick 0 i else pick i i) 0.

(** How many of the options are the given string. *)
Definition occurrences (s : string) (options : list string) : nat :=
  length (filter (λ o, o = s) options).

(** *** The session *)

(** The answers that [recordAnswer] stores for the recorded answers [l] and
    a new answer: the statements of its branch [if (existingIndex >= 0)]. *)
Definition recorded (l : list Answer) (newAnswer : Answer) : list Answer :=
  let existingIndex :=
    findIndex (λ a, Answer_questionIndex a = questionIndex newAnswer) l in
  if decide (0 ≤ existingIndex)%Z
  then <[Z.to_nat existingIndex := newAnswer]> l
  else l ++ [newAnswer].

(** The session [recordAnswer] sets from the session [st]. *)
Definition answered (st : TestState) (q : Z) (a : string) (c : bool)
  : TestState :=
  {| currentQuestionIndex := currentQuestionIndex st;
     score := if c then (score st + 1)%Z else score st;
     selectedWords := selectedWords st;
     answers := recorded (answers st) (mkAnswer q a c);
     startTime := startTime st |}.

(** The session [nextQuestion] sets from the session [st] when it
    advances. *)
Definition advanced (st : TestState) : TestState :=
  {| currentQuestionIndex := (currentQuestionIndex st + 1)%Z;
     score := score st;
     selectedWords := selectedWords st;
     answers := answers st;
     startTime := startTime st |}.

(** The index of the last question of a session. *)
Definition last_index (st : TestState) : Z :=
  (Z.of_nat (length (selectedWords st)) - 1)%Z.

(** C9 as stated, for the session held by [h]: [nextQuestion] adds one to
    the current index unless that index is the last one, where it leaves
    the hook as it is. *)
Definition advances_unless_last (h : hook) : Prop :=
  ∀ st, Session.testState h = Some st →
    (currentQuestionIndex st ≠ last_index st →
     currentQuestionIndex <$> Session.testState (Session.nextQuestion h)
       = Some (currentQuestionIndex st + 1)%Z) ∧
    (currentQuestionIndex st = last_index st → Session.nextQuestion h = h).

(** *** The aggregation as the design note words it *)

(** Statistics that are all zero. *)
Definition zero_stats : StatsValues :=
  {| total_tests := 0; total_questions := 0; correct_answers := 0;
     accuracy_percentage := of_int 0; average_score := of_int 0;
     best_score := 0 |}.

(** The prior values of a user: those of the row, or zero without a row. *)
Definition prior_values (prior : option UserStats) : StatsValues :=
  match prior with
  | Some row => s_values row
  | None => zero_stats
  end.

(** The record of the design note, its quotients as the rationals that
    they are. *)
Record Aggregate := mkAggregate {
  totalTests : Z;
  totalQuestions : Z;
  correctAnswers : Z;
  accuracyPercentage : Q;
  averageScore : Q;
  bestScore : Z
}.

(** [totalTests += 1], [totalQuestions += session.totalQuestions],
    [correctAnswers += session.score],
    [accuracyPercentage = correctAnswers / totalQuestions * 100],
    [averageScore = correctAnswers / totalTests],
    [bestScore = max(bestScore, session.score)]. *)
Definition aggregate_spec (prior : StatsValues) (questions session_score : Z)
  : Aggregate :=
  let tests := (total_tests prior + 1)%Z in
  let asked := (total_questions prior + questions)%Z in
  let right := (correct_answers prior + session_score)%Z in
  {| totalTests := tests;
     totalQuestions := asked;
     correctAnswers := right;
     accuracyPercentage := (inject_Z right / inject_Z asked * 100)%Q;
     averageScore := (inject_Z right / inject_Z tests)%Q;
     bestScore := Z.max (best_score prior) session_score |}.

(** A [number] that is the rational [r] but for the rounding of binary64
    arithmetic: it is within [2 ^ -51] of [r], relatively. *)
Definition near (x : jsnum) (r : Q) : Prop :=
  ∃ v, x = Finite v ∧ (Qabs (v - r) <= Qabs r * (1 # 2251799813685248))%Q.

(** The values that the hook sends are those of the aggregate. *)
Definition written_as (values : StatsValues) (a : Aggregate) : Prop :=
  total_tests values = totalTests a ∧
  total_questions values = totalQuestions a ∧
  correct_answers values = correctAnswers a ∧
  near (accuracy_percentage values) (accuracyPercentage a) ∧
  near (average_score values) (averageScore a) ∧
  best_score values = bestScore a.

(** A number of hundredths that is the rational [r] rounded to two
    decimals, but for the rounding of binary64 arithmetic on the way: it is
    within half a hundredth and a billionth of [r]. *)
Definition cents_of (x : jsnum) (r : Q) : Prop :=
  ∃ h : Z, x = Finite (Qred (Qmake h 100)) ∧
           (Qabs (Qmake h 100 - r) <= 5000001 # 1000000000)%Q.

(** The values that a row of [user_stats] holds are those of the
    aggregate, the quotients to two decimals. *)
Definition kept_as (values : StatsValues) (a : Aggregate) : Prop :=
  total_tests values = totalTests a ∧
  total_questions values = totalQuestions a ∧
  correct_answers values = correctAnswers a ∧
  cents_of (accuracy_percentage values) (accuracyPercentage a) ∧
  cents_of (average_score values) (averageScore a) ∧
  best_score values = bestScore a.

(** Totals that the columns of [user_stats] hold: counts within [INTEGER],
    and an accuracy and an average of at most 999, which [DECIMAL(5,2)] has
    room for. *)
Definition within_columns (tests asked right : Z) : Prop :=
  (0 < tests < 2 ^ 31)%Z ∧ (0 < asked < 2 ^ 31)%Z ∧ (0 ≤ right < 2 ^ 31)%Z ∧
  (100 * right ≤ 999 * asked)%Z ∧ (right ≤ 999 * tests)%Z.

(** C5 as stated, for a row of [user_stats]: its [accuracy_percentage] is
    [correct_answers / total_questions * 100] and its [average_score] is
    [correct_answers / total_tests], be it as the code computes these
    quotients or as the rationals that they are. *)
Definition holds_quotients (values : StatsValues) : Prop :=
  let right := correct_answers values in
  let asked := total_questions values in
  let tests := total_tests values in
  (num_eq (accuracy_percentage values) (js_mul_pos (js_div right asked) 100) ∨
   num_eq (accuracy_percentage values)
          (Finite (inject_Z right / inject_Z asked * 100))) ∧
  (num_eq (average_score values) (js_div right tests) ∨
   num_eq (average_score values) (Finite (inject_Z right / inject_Z tests))).

(** C5 as stated, for the row that [updateUserStats] leaves. *)
Definition leaves_quotients (u : User) (st : TestState) (w : world) : Prop :=
  ∃ row, user_stats (updateUserStats (Some u) (Some st) w).2 !! user_id u
           = Some row ∧
         holds_quotients (s_values row).

(** The call by which [updateUserStats] writes [values], given the row it
    has read. *)
Definition stats_write (prior : option UserStats) (user : string)
    (values : StatsValues) (now : Z) : call :=
  match prior with
  | Some _ => UpdateUserStats user values now
  | None => InsertUserStats user values
  end.

(** *** The results store *)

(** What remains of a call of [saveTestResult] that returned [null] after
    nothing but the insertion was attempted. *)
Definition only_insert_attempted (values : NewTestResult) (w : world)
    (result : outcome (option TestResult) * world) : Prop :=
  result.1 = Returned None ∧
  log result.2 = log w ++ [InsertTestResult values] ∧
  user_stats result.2 = user_stats w ∧
  test_results result.2 = test_results w.

(** The [id]s of [test_results] are distinct and below the next one. *)
Definition wf_world (w : world) : Prop :=
  NoDup (r_id <$> test_results w) ∧
  Forall (λ r, r_id r < next_id w) (test_results w).

(** The rows that [cleanupOldTests] keeps when it deletes the rows with the
    given [id]s. *)
Definition kept (ids : list nat) (rows : list TestResult) : list TestResult :=
  filter (λ r, r_id r ∉ ids) rows.

(** Whether a call deletes rows of [test_results]. *)
Definition is_delete (c : call) : bool :=
  match c with
  | DeleteTestResults _ => true
  | _ => false
  end.

(** ** Sample data *)

Definition sample_numbers : list nat := [10; 20; 30; 40].

(** A source whose [n]-th value is [n / (n + 2)]. *)
Definition sample_rng : rng := Rng (λ n, UnitFraction n 1) 0.

Definition sample_pool : list Word :=
  [ mkWord "abate" "to lessen" "The storm abated." "easy";
    mkWord "brazen" "bold and shameless" "A brazen lie." "hard";
    mkWord "candid" "frank" "A candid answer." "easy";
    mkWord "deft" "skilful" "A deft move." "medium" ].

(** Two words with one meaning. *)
Definition word_big : Word := mkWord "big" "large" "A big house." "easy".
Definition word_huge : Word := mkWord "huge" "large" "A huge wave." "easy".

Definition word_abate : Word :=
  mkWord "abate" "to lessen" "The storm abated." "easy".

(** A browser whose store is empty and accepts every item, and the hook of a
    page loaded in it. *)
Definition sample_browser : window := Window (mkLocalStorage ∅ (λ _ _, true)).

Definition sample_hook : hook := Session.load sample_browser.

(** A session over no words, and a session over the sample pool. *)
Definition empty_session : hook := Session.initializeTest [] 1000 sample_hook.

Definition sample_session : hook :=
  Session.initializeTest sample_pool 1000 sample_hook.

(** The answer [say "no" \ refuse], whose quotes and backslash are escaped
    when it is written. *)
Definition quoted_refusal : string :=
  ("say " ++ String JSON.dquote ("no" ++ String JSON.dquote " \ refuse"))%string.

(** A session in progress, with an answer that needs escaping. *)
Definition sample_state : TestState :=
  {| currentQuestionIndex := 1;
     score := 1;
     selectedWords := sample_pool;
     answers := [mkAnswer 0 "to lessen" true;
                 mkAnswer 1 quoted_refusal false];
     startTime := 1762146000000 |}.

Definition sample_user : User := mkUser "3f0c-user".

(** A database without rows, whose calls all succeed. *)
Definition empty_world : world := mkWorld [] ∅ 0 0 0 [] [].

(** The world at a later time of both clocks. *)
Definition at_time (t : Z) (w : world) : world :=
  mkWorld (test_results w) (user_stats w) (next_id w) t t (faults w) (log w).

(** The world in which the next calls fare as [script] says. *)
Definition with_faults (script : list fault) (w : world) : world :=
  mkWorld (test_results w) (user_stats w) (next_id w) (db_time w) (js_time w)
          script (log w).

(** A finished session: twenty questions, fifteen of them right. *)
Definition finished_session : TestState :=
  {| currentQuestionIndex := 19;
     score := 15;
     selectedWords := replicate 20 word_abate;
     answers := [];
     startTime := 0 |}.

(** A short session: three questions, one of them right. *)
Definition one_of_three : TestState :=
  {| currentQuestionIndex := 2;
     score := 1;
     selectedWords := replicate 3 word_abate;
     answers := [];
     startTime := 0 |}.

(** A database in which the sample user has the statistics of that
    session. *)
Definition world_with_stats : world :=
  (updateUserStats (Some sample_user) (Some one_of_three) empty_world).2.

(** The world after the sample user has finished one more quiz at time [t],
    saved by [save]. *)
Definition quiz_saved
    (save : option User → option TestState → string → option Z →
            M (option TestResult))
    (w : world) (t : Z) : world :=
  (save (Some sample_user) (Some finished_session) "all"%string None
        (at_time t w)).2.

(** The world after quizzes at the times [1], ..., [n]. *)
Definition after_quizzes
    (save : option User → option TestState → string → option Z →
            M (option TestResult))
    (n : nat) : world :=
  foldl (quiz_saved save) empty_world (Z.of_nat <$> seq 1 n).

(** ** Further notions: the shuffle with given draws *)

(** The loop of [shuffleArray] when step [i] draws the index
    [choice i]. *)
Fixpoint shuffle_by {T} (choice : nat → nat) (i : nat) (a : list T) : list T :=
  match i with
  | 0 => a
  | S i' => shuffle_by choice i' (exchange i (choice i) a)
  end.

(** Outcomes under which the shuffle of an array of length [n] draws
    [choice i] at step [i]. *)
Definition choice_rng (n : nat) (choice : nat → nat) : rng :=
  Rng (λ call, let i := n - 1 - call in pick (choice i) i) 0.

(** A source that always returns [0]. *)
Definition zero_rng : rng := Rng (λ _, UnitFraction 0 0) 0.


(** ** Further notions: the session hook *)

(** The session [st] at the question [i]. *)
Definition at_question (st : TestState) (i : Z) : TestState :=
  {| currentQuestionIndex := i;
     score := score st;
     selectedWords := selectedWords st;
     answers := answers st;
     startTime := startTime st |}.

(** The calls that a component can make on the hook. *)
Inductive session_call :=
| InitializeTest (words : list Word) (now : Z)
| UpdateTestState (updates : PartialTestState)
| RecordAnswer (questionIndex : Z) (selectedAnswer : string) (correct : bool)
| NextQuestion
| ResetTest.

Definition perform (h : hook) (c : session_call) : hook :=
  match c with
  | InitializeTest words now => Session.initializeTest words now h
  | UpdateTestState updates => Session.updateTestState updates h
  | RecordAnswer q a c => Session.recordAnswer q a c h
  | NextQuestion => Session.nextQuestion h
  | ResetTest => Session.resetTest h
  end.

(** A browser whose store accepts every item. *)
Definition accepting (w : window) : Prop :=
  match w with
  | Window ls => ∀ key value, accepts ls key value = true
  | NoWindow => False
  end.

(** The store holds what the hook holds: loading the page again gives the
    hook as it is. *)
Definition in_sync (h : hook) : Prop := Session.load (win h) = h.

(** A store that refuses every item. *)
Definition full_browser : window := Window (mkLocalStorage ∅ (λ _ _, false)).

(** A browser whose store holds the sample session and refuses every new
    item. *)
Definition stuck_browser : window :=
  Window (mkLocalStorage
            {[Session.key := JSON.stringify (js_of_TestState sample_state)]}
            (λ _ _, false)).

(** Some calls of a quiz. *)
Definition sample_calls : list session_call :=
  [InitializeTest sample_pool 1000; RecordAnswer 0 "to lessen" true;
   NextQuestion; RecordAnswer 1 "frank" false; ResetTest;
   InitializeTest [] 2000; NextQuestion].


(** ** The quiz page ([TestContent] of [src/app/test/page.tsx])

    The state that the handlers of the page read and write, and the session
    hook it uses.  The catalog, the options shown and the loading flag are
    set by effects and are not read by the handlers. *)

(** [a[i]] for a [number] index: [undefined] outside the array. *)
Definition js_index {A} (l : list A) (i : Z) : option A :=
  if decide (0 ≤ i)%Z then l !! Z.to_nat i else None.

Record quiz_page := mkQuizPage {
  session : hook;              (* useTestState() *)
  selected : string;           (* the state [selectedAnswer] *)
  showAnswer : bool;
  isAnswerCorrect : bool;
  showExample : bool;
  pushed : option string       (* the route given to [router.push] *)
}.

(** The states [useState] starts with. *)
Definition fresh_page (h : hook) : quiz_page :=
  mkQuizPage h EmptyString false false false None.

(** [searchParams.get('difficulty') || 'all'] *)
Definition difficulty_of (param : option string) : string :=
  match param with
  | Some d => if decide (d = EmptyString) then "all"%string else d
  | None => "all"%string
  end.

(** Whether a value counts as true in a condition. *)
Definition truthy (v : option JSON.json) : bool :=
  match v with
  | None | Some JSON.JNull => false
  | Some (JSON.JBool b) => b
  | Some (JSON.JNum n) => negb (n =? 0)%Z
  | Some (JSON.JStr s) => negb (bool_decide (s = EmptyString))
  | Some (JSON.JArr _) | Some (JSON.JObj _) => true
  end.

(** The page when it opens: the hook mounts, and the effect [loadWords]
    fetches the catalog, [None] standing for a fetch that fails, and starts
    a session if the value that the hook holds does not count as true:
    [if (!testState)]. *)
Definition open_quiz (w : window) (fetched : option (list Word))
    (param : option string) (now : Z) (g : rng) : quiz_page * rng :=
  let h := Session.load w in
  match fetched with
  | Some allWords =>
      if truthy (Some (storedValue h)) then (fresh_page h, g)
      else
        let '(selectedWords, g') :=
          selectRandomWords allWords 20 (Some (difficulty_of param)) g in
        (fresh_page (Session.initializeTest selectedWords now h), g')
  | None => (fresh_page h, g)
  end.

(** The effect that sets the options shown for the current word: [None]
    when it sets nothing. *)
Definition options_effect (p : quiz_page) (words : list Word) (g : rng)
  : option (list string) * rng :=
  match Session.testState (session p) with
  | Some st =>
      if decide (0 < length words) then
        match js_index (selectedWords st) (currentQuestionIndex st) with
        | Some currentWord =>
            let '(options, g') :=
              createMultipleChoiceOptions currentWord words g in
            (Some options, g')
        | None => (None, g)
        end
      else (None, g)
  | None => (None, g)
  end.

Definition handleAnswerSelect (answer : string) (p : quiz_page) : quiz_page :=
  if showAnswer p then p
  else
    let currentWord :=
      match Session.testState (session p) with
      | Some st => js_index (selectedWords st) (currentQuestionIndex st)
      | None => None
      end in
    match Session.testState (session p), currentWord with
    | Some st, Some currentWord =>
        let correct := bool_decide (answer = meaning currentWord) in
        mkQuizPage
          (Session.recordAnswer (currentQuestionIndex st) answer correct
             (session p))
          answer true correct (showExample p) (pushed p)
    | _, _ =>
        mkQuizPage (session p) answer (showAnswer p) (isAnswerCorrect p)
                   (showExample p) (pushed p)
    end.

Definition handleNextQuestion (p : quiz_page) : quiz_page :=
  let isLastQuestion :=
    match Session.testState (session p) with
    | Some st =>
        bool_decide (Z.of_nat (length (selectedWords st)) - 1
                     ≤ currentQuestionIndex st)%Z
    | None => false
    end in
  if isLastQuestion
  then mkQuizPage (session p) (selected p) (showAnswer p) (isAnswerCorrect p)
                  (showExample p) (Some "/result"%string)
  else mkQuizPage (Session.nextQuestion (session p)) EmptyString false false
                  false (pushed p).

(** What the user can click.  The buttons for the next question and for the
    example are rendered only while the answer is shown. *)
Inductive click :=
| ClickOption (option : string)
| ClickNext
| ClickExample.

Definition click_on (p : quiz_page) (c : click) : quiz_page :=
  match c with
  | ClickOption o => handleAnswerSelect o p
  | ClickNext => if showAnswer p then handleNextQuestion p else p
  | ClickExample =>
      if showAnswer p
      then mkQuizPage (session p) (selected p) (showAnswer p)
                      (isAnswerCorrect p) (negb (showExample p)) (pushed p)
      else p
  end.

(** The page after the browser has loaded it again in the same window, with
    the catalog [words]. *)
Definition reloaded (p : quiz_page) (words : list Word)
    (param : option string) (now : Z) (g : rng) : quiz_page :=
  (open_quiz (win (session p)) (Some words) param now g).1.

(** The number of answers that are marked correct. *)
Definition marked_correct (l : list Answer) : nat :=
  length (filter (λ a, correct a = true) l).

(** An answer is marked as the words of the session grade it. *)
Definition graded (ws : list Word) (a : Answer) : Prop :=
  ∃ w, js_index ws (questionIndex a) = Some w ∧
       correct a = bool_decide (selectedAnswer a = meaning w).

(** The state of a quiz that has been answered in order: the questions
    before the current one, and the current one while its answer is shown,
    each have one answer, marked as the words grade it, and the score is the
    number of answers marked correct. *)
Definition answered_in_order (p : quiz_page) : Prop :=
  ∃ st, Session.testState (session p) = Some st ∧
    (0 ≤ currentQuestionIndex st)%Z ∧
    (Z.to_nat (currentQuestionIndex st) < length (selectedWords st) ∨
     currentQuestionIndex st = 0%Z ∧ selectedWords st = [] ∧
     showAnswer p = false) ∧
    questionIndex <$> answers st =
      Z.of_nat <$> seq 0 (Z.to_nat (currentQuestionIndex st)
                          + (if showAnswer p then 1 else 0)) ∧
    Forall (graded (selectedWords st)) (answers st) ∧
    score st = Z.of_nat (marked_correct (answers st)).

(** The current question of the page is one of the questions of its
    session. *)
Definition at_a_question (p : quiz_page) : Prop :=
  ∃ st, Session.testState (session p) = Some st ∧
    (0 ≤ currentQuestionIndex st < Z.of_nat (length (selectedWords st)))%Z.

(** Some clicks of a quiz over the sample pool. *)
Definition sample_clicks : list click :=
  [ClickOption "to lessen"; ClickOption "frank"; ClickExample; ClickNext;
   ClickNext; ClickOption "frank"; ClickNext].

(** The first word of the sample quiz, and the session after its question
    has been answered right. *)
Definition word_deft : Word := mkWord "deft" "skilful" "A deft move." "medium".

Definition first_answered : TestState :=
  {| currentQuestionIndex := 0;
     score := 1;
     selectedWords :=
       (selectRandomWords sample_pool 20 (Some "all"%string) sample_rng).1;
     answers := [mkAnswer 0 "skilful" true];
     startTime := 1000 |}.


(** ** The rest of [useTestResults]: reading and deleting the history *)

Module supabase_more.

(** The fate of a call for which [log] has no entry: the next entry of the
    script, as in [supabase.issue], without a record in [log]. *)
Definition attempt : M fault := λ w,
  let f := default NoFault (head (faults w)) in
  let w' := mkWorld (test_results w) (user_stats w) (next_id w) (db_time w)
                    (js_time w) (tail (faults w)) (log w) in
  match f with
  | Rejects => (Thrown, w')
  | _ => (Returned f, w')
  end.



(** [from('test_results').select('*').eq('user_id', user)
    .order('created_at', { ascending: false }).limit(limit)]: [data], or
    [None] with an [error]. *)
Definition select_history (user : string) (limit : nat)
  : M (option (list TestResult)) :=
  f ← attempt;
  match f with
  | NoFault =>
      rows ← get test_results;
      mret (Some (take limit
                    (supabase.newest_first (supabase.rows_of user rows))))
  | _ => mret None
  end.

(** [from('test_results').delete().eq('user_id', user)]: whether it went
    without an [error]. *)
Definition delete_user_test_results (user : string) : M bool :=
  f ← attempt;
  match f with
  | NoFault =>
      rows ← get test_results; next ← get next_id;
      supabase.set_test_results (filter (λ r, r_user_id r ≠ user) rows) next;;
      mret true
  | _ => mret false
  end.

(** [from('user_stats').update({...values, updated_at}).eq('user_id', user)]:
    whether it went without an [error]; a value that its column refuses is
    one. *)
Definition update_user_stats_checked (user : string) (values : StatsValues)
    (updated_at : Z) : M bool :=
  f ← supabase.issue (UpdateUserStats user values updated_at);
  match f with
  | NoFault =>
      stats ← get user_stats;
      match stored_stats values with
      | Some kept =>
          supabase.set_user_stats
            (alter (λ row, mkUserStats kept (s_created_at row) updated_at)
                   user stats);;
          mret true
      | None => mret false
      end
  | _ => mret false
  end.

(** [from('user_stats').insert({user_id, ...values, created_at, updated_at})]:
    whether it went without an [error]; a second row for a user is
    refused, as is a value that its column refuses. *)
Definition insert_user_stats_stamped (user : string) (values : StatsValues)
    (created_at updated_at : Z) : M bool :=
  f ← supabase.issue (InsertUserStats user values);
  match f with
  | NoFault =>
      stats ← get user_stats;
      match stats !! user, stored_stats values with
      | None, Some kept =>
          supabase.set_user_stats
            (<[user := mkUserStats kept created_at updated_at]> stats);;
          mret true
      | _, _ => mret false
      end
  | _ => mret false
  end.

End supabase_more.


(** [getUserTestHistory(limit = 10)] *)
Definition getUserTestHistory (user : option User) (limit_arg : option nat)
  : M (list TestResult) :=
  let limit := default 10 limit_arg in
  match user with
  | None => mret []
  | Some u =>
      try_catch
        (data ← supabase_more.select_history (user_id u) limit;
         match data with
         | None => mret []
         | Some rows => mret rows
         end)
        (mret [])
  end.

(** The values [deleteAllTestHistory] resets the statistics to. *)
Definition reset_stats : StatsValues :=
  {| total_tests := 0; total_questions := 0; correct_answers := 0;
     accuracy_percentage := of_int 0; average_score := of_int 0;
     best_score := 0 |}.

(** [deleteAllTestHistory()] *)
Definition deleteAllTestHistory (user : option User) : M bool :=
  match user with
  | None => mret false
  | Some u =>
      try_catch
        (deleted ← supabase_more.delete_user_test_results (user_id u);
         if negb deleted then mret false
         else
           existingStats ← supabase.select_user_stats (user_id u);
           match existingStats with
           | Some _ =>
               now ← get js_time;
               updated ← supabase_more.update_user_stats_checked
                           (user_id u) reset_stats now;
               if negb updated then mret false else mret true
           | None =>
               now ← get js_time;
               inserted ← supabase_more.insert_user_stats_stamped
                            (user_id u) reset_stats now now;
               if negb inserted then mret false else mret true
           end)
        (mret false)
  end.

(** ** Further notions: the results store *)




(** The tables of two worlds are the same. *)
Definition same_tables (w w' : world) : Prop :=
  test_results w' = test_results w ∧ user_stats w' = user_stats w ∧
  next_id w' = next_id w.

(** Whether the first call of a world goes without a fault. *)
Definition first_call_succeeds (w : world) : bool :=
  match default NoFault (head (faults w)) with
  | NoFault => true
  | _ => false
  end.

(** A second user, and a world in which both users have rows. *)
Definition other_user : User := mkUser "77aa-user".

Definition shared_world : world :=
  (saveTestResult (Some other_user) (Some finished_session) "easy"%string None
     (at_time 50 (after_quizzes AppHooks.saveTestResult 23))).2.

(** The statistics of the sample user in that world. *)
Definition sample_stats_row : UserStats :=
  default (mkUserStats reset_stats 0 0)
          (user_stats shared_world !! user_id sample_user).


(** ** The cache of the sign-in ([AuthCache])

    The class keeps items in [localStorage], each wrapped with the time it
    was written and the time it lapses.  A value that may be [undefined] is
    an [option json], [None] standing for [undefined]. *)

Module CACHE_KEYS.
Definition USER_PROFILE : string := "vocabtest_user_profile".
Definition AUTH_REMEMBER : string := "vocabtest_remember_auth".
Definition LAST_SESSION : string := "vocabtest_last_session".
Definition USER_PREFERENCES : string := "vocabtest_user_preferences".
Definition TEST_HISTORY_CACHE : string := "vocabtest_test_history".
Definition STATS_CACHE : string := "vocabtest_stats_cache".

(** [Object.values(CACHE_KEYS)] *)
Definition values : list string :=
  [USER_PROFILE; AUTH_REMEMBER; LAST_SESSION; USER_PREFERENCES;
   TEST_HISTORY_CACHE; STATS_CACHE].
End CACHE_KEYS.

(** [n > x] for an integer [n] and a number [x] *)
Definition int_greater (n : Z) (x : jsnum) : bool :=
  match x with
  | Finite q => negb (Qle_bool (inject_Z n) q)
  | NegInfinity => true
  | PosInfinity | NaN => false
  end.

Module AuthCache.
Import JSON.

Section coercion.

(** The number that JavaScript converts a value to that is not a number,
    when it compares it with one; the conversion of strings, arrays and
    objects is not modelled, the functions below are defined for any. *)
Variable ToNumber : json → jsnum.

(** [Date.now() > expiry] *)
Definition now_greater (now : Z) (expiry : option json) : bool :=
  match expiry with
  | Some (JNum n) => bool_decide (n < now)%Z
  | Some other => int_greater now (ToNumber other)
  | None => false
  end.

(** [set(key, data, config)] with the [expiry] of [config], at the time
    [now] of [Date.now()] *)
Definition set (key : string) (data : json) (expiry : option Z) (now : Z)
    (w : window) : bool * window :=
  match w with
  | NoWindow => (false, w)
  | Window ls =>
      let item :=
        JObj [("data"%string, data);
              ("timestamp"%string, JNum now);
              ("expiry"%string,
               match expiry with
               | Some e => if decide (e ≠ 0)%Z then JNum (now + e) else JNull
               | None => JNull
               end)] in
      match setItem ls key (stringify item) with
      | Some ls' => (true, Window ls')
      | None => (false, w)
      end
  end.

(** [remove(key)] *)
Definition remove (key : string) (w : window) : bool * window :=
  match w with
  | NoWindow => (false, w)
  | Window ls => (true, Window (removeItem ls key))
  end.

(** [get(key)]; reading a member of [null] throws, as [JSON.parse] does on
    a text it refuses. *)
Definition get (key : string) (now : Z) (w : window) : option json * window :=
  match w with
  | NoWindow => (Some JNull, w)
  | Window ls =>
      let caught := (Some JNull, (remove key w).2) in
      match getItem ls key with
      | None => (Some JNull, w)
      | Some cached =>
          if decide (cached = EmptyString) then (Some JNull, w)
          else
            match parse cached with
            | None => caught
            | Some JNull => caught
            | Some item =>
                if truthy (member "expiry" item)
                   && now_greater now (member "expiry" item)
                then (Some JNull, (remove key w).2)
                else (member "data" item, w)
            end
      end
  end.

(** [clear()] *)
Definition clear (w : window) : bool * window :=
  match w with
  | NoWindow => (false, w)
  | Window _ =>
      (true, foldl (λ w key, (remove key w).2) w CACHE_KEYS.values)
  end.

(** [isExpired(key)] *)
Definition isExpired (key : string) (now : Z) (w : window) : bool :=
  match w with
  | NoWindow => true
  | Window ls =>
      match getItem ls key with
      | None => true
      | Some cached =>
          if decide (cached = EmptyString) then true
          else
            match parse cached with
            | None => true
            | Some JNull => true
            | Some item =>
                if truthy (member "expiry" item)
                then now_greater now (member "expiry" item)
                else false
            end
      end
  end.

(** [setUserSession(session, rememberMe = false)] *)
Definition setUserSession (session : json) (rememberMe_arg : option bool)
    (now : Z) (w : window) : window :=
  let rememberMe := default false rememberMe_arg in
  let expiry :=
    if rememberMe then Some (30 * 24 * 60 * 60 * 1000)%Z else None in
  let w := (set CACHE_KEYS.LAST_SESSION session expiry now w).2 in
  (set CACHE_KEYS.AUTH_REMEMBER (JBool rememberMe) None now w).2.

(** [getUserSession()] *)
Definition getUserSession (now : Z) (w : window) : option json * window :=
  get CACHE_KEYS.LAST_SESSION now w.

(** [isRemembered()] *)
Definition isRemembered (now : Z) (w : window) : bool * window :=
  let '(value, w) := get CACHE_KEYS.AUTH_REMEMBER now w in
  (match value with Some (JBool true) => true | _ => false end, w).

(** [setUserProfile(profile)] *)
Definition setUserProfile (profile : json) (now : Z) (w : window) : window :=
  let '(remembered, w) := isRemembered now w in
  let expiry :=
    if remembered then Some (7 * 24 * 60 * 60 * 1000)%Z else None in
  (set CACHE_KEYS.USER_PROFILE profile expiry now w).2.

(** [getUserProfile()] *)
Definition getUserProfile (now : Z) (w : window) : option json * window :=
  get CACHE_KEYS.USER_PROFILE now w.

End coercion.
End AuthCache.

(** ** Further notions: the cache *)

(** Whether an item written at the time [written] with the given [expiry]
    of its configuration has lapsed at the time [now]: an [expiry] of zero
    counts as none, and so does a time of lapse that is zero. *)
Definition lapsed (expiry : option Z) (written now : Z) : bool :=
  match expiry with
  | Some e => bool_decide (e ≠ 0 ∧ written + e ≠ 0 ∧ written + e < now)%Z
  | None => false
  end.

(** The item stored under a key, if the window has a store. *)
Definition stored (w : window) (key : string) : option string :=
  match w with
  | Window ls => getItem ls key
  | NoWindow => None
  end.

(** The item that [set] writes. *)
Definition cache_item (data : JSON.json) (expiry : option Z) (now : Z)
  : JSON.json :=
  JSON.JObj [("data"%string, data);
             ("timestamp"%string, JSON.JNum now);
             ("expiry"%string,
              match expiry with
              | Some e =>
                  if decide (e ≠ 0)%Z then JSON.JNum (now + e)
                  else JSON.JNull
              | None => JSON.JNull
              end)].

(** A conversion for the examples. *)
Definition no_number : JSON.json → jsnum := λ _, NaN.

(** A session and a profile, as values. *)
Definition sample_login : JSON.json :=
  JSON.JObj [("access_token"%string, JSON.JStr "t0k3n");
             ("expires_in"%string, JSON.JNum 3600)].

Definition sample_profile : JSON.json :=
  JSON.JObj [("id"%string, JSON.JStr "3f0c-user");
             ("email"%string, JSON.JStr "ada@example.org");
             ("full_name"%string, JSON.JNull)].

(** * Properties *)

(** ** Facts about the random source *)

Lemma floor_mul_lt r n : 0 < n → floor_mul r n < n.
Proof.
  intros Hn. unfold floor_mul, den.
  apply Nat.Div0.div_lt_upper_bound. nia.
Qed.

Lemma floor_mul_pick j i : j ≤ i → floor_mul (pick j i) (S i) = j.
Proof.
  intros Hj. unfold floor_mul, den, pick; simpl num; simpl gap.
  replace (j + (i - j) + 1) with (S i) by lia.
  apply Nat.div_mul. lia.
Qed.

(** ** Facts about arrays and the shuffle *)

Section ArrayFacts.
Context {T : Type}.
Implicit Types a : list T.

Lemma length_exchange i j a : length (exchange i j a) = length a.
Proof.
  unfold exchange. destruct (a !! j), (a !! i); auto.
  by rewrite !length_insert.
Qed.

Lemma lookup_exchange i j a k :
  i < length a → j < length a →
  exchange i j a !! k =
    a !! (if decide (k = i) then j else if decide (k = j) then i else k).
Proof.
  intros Hi Hj. unfold exchange.
  destruct (lookup_lt_is_Some_2 a j Hj) as [aj Haj].
  destruct (lookup_lt_is_Some_2 a i Hi) as [ai Hai].
  rewrite Haj, Hai.
  destruct (decide (k = j)) as [->|Hkj].
  - rewrite list_lookup_insert_eq by (by rewrite length_insert).
    destruct (decide (j = i)) as [->|]; congruence.
  - rewrite list_lookup_insert_ne by done.
    destruct (decide (k = i)) as [->|Hki].
    + by rewrite list_lookup_insert_eq.
    + by rewrite list_lookup_insert_ne.
Qed.

Lemma exchange_Permutation i j a :
  i < length a → j < length a → exchange i j a ≡ₚ a.
Proof.
  intros Hi Hj. apply Permutation_inj. split; [apply length_exchange|].
  exists (λ k, if decide (k = i) then j else if decide (k = j) then i else k).
  split.
  - intros x y. repeat case_decide; intros; subst; congruence.
  - intros k. by apply lookup_exchange.
Qed.

Lemma shuffle_loop_Permutation i a g :
  i < length a ∨ i = 0 → (shuffle_loop i a g).1 ≡ₚ a.
Proof.
  revert a g. induction i as [|i IH]; intros a g Hi; [done|].
  cbn [shuffle_loop]. unfold Math_random.
  set (j := floor_mul _ _).
  assert (j < S i + 1) by (apply floor_mul_lt; lia).
  rewrite IH by (rewrite length_exchange; lia).
  apply exchange_Permutation; lia.
Qed.

Lemma shuffleArray_Permutation a g : (shuffleArray a g).1 ≡ₚ a.
Proof. apply shuffle_loop_Permutation. destruct a; simpl; lia. Qed.

Lemma shuffleArray_length a g : length (shuffleArray a g).1 = length a.
Proof. by rewrite shuffleArray_Permutation. Qed.

Lemma slice_prefix a (c : Z) :
  (0 ≤ c)%Z → slice a 0 c = take (Z.to_nat c) a.
Proof.
  intros Hc. unfold slice, slice_bound.
  rewrite (proj2 (Z.ltb_ge 0 0)) by lia.
  rewrite (proj2 (Z.ltb_ge c 0)) by lia.
  replace (Z.to_nat (Z.min 0 _)) with 0 by lia.
  rewrite Nat.sub_0_r, drop_0.
  destruct (decide (c ≤ Z.of_nat (length a))%Z).
  - by rewrite Z.min_l.
  - rewrite Z.min_r, Nat2Z.id by lia.
    rewrite !take_ge; auto; lia.
Qed.

End ArrayFacts.

(** ** The store-level shuffle refines the shuffle on values *)

Section StoreFacts.
Context {T : Type}.
Implicit Types h : gmap nat (list T).

Lemma exchange_refines a i j h elems :
  h !! a = Some elems →
  Store.exchange a i j h = <[a := exchange i j elems]> h.
Proof.
  intros Ha. unfold Store.exchange, exchange, Store.read, Store.write.
  rewrite Ha; simpl.
  destruct (elems !! j) as [aj|], (elems !! i) as [ai|];
    try by rewrite insert_id.
  apply map_eq; intros k. destruct (decide (k = a)) as [->|].
  - by rewrite lookup_alter_eq, lookup_alter_eq, Ha, lookup_insert_eq.
  - by rewrite !lookup_alter_ne, lookup_insert_ne.
Qed.

Lemma shuffle_loop_refines i a h g elems :
  h !! a = Some elems →
  Store.shuffle_loop i a h g =
    (<[a := (shuffle_loop i elems g).1]> h,
     (shuffle_loop i elems g).2).
Proof.
  revert h g elems. induction i as [|i IH]; intros h g elems Ha.
  - simpl. by rewrite insert_id.
  - cbn [Store.shuffle_loop shuffle_loop]. unfold Math_random.
    rewrite (exchange_refines _ _ _ _ elems) by done.
    erewrite IH by apply lookup_insert_eq.
    by rewrite insert_insert_eq.
Qed.

Lemma spread_fresh array h : h !! (Store.spread array h).1 = None.
Proof. apply not_elem_of_dom, is_fresh. Qed.

End StoreFacts.

(** ** shuffleArray *)

(** C10. [shuffleArray] returns a newly allocated array whose contents are a
    permutation of the argument's (hence of the same length and with the same
    elements counted with multiplicity), and it leaves the argument's array,
    like every other array of the store, as it was. *)
Theorem shuffleArray_fresh_permutation {T : Type}
    (h : gmap nat (list T)) (array : nat) (elems : list T) (g : rng) :
  h !! array = Some elems →
  let '(shuffled, h', _) := Store.shuffleArray array h g in
  shuffled ≠ array ∧
  h !! shuffled = None ∧
  (∀ a, a ≠ shuffled → h' !! a = h !! a) ∧
  h' !! array = Some elems ∧
  ∃ result,
    h' !! shuffled = Some result ∧
    result = (shuffleArray elems g).1 ∧
    result ≡ₚ elems ∧
    length result = length elems.
Proof.
  intros Harr. unfold Store.shuffleArray.
  pose proof (spread_fresh array h) as Hfresh.
  unfold Store.spread in *. simpl in Hfresh.
  set (shuffled := fresh (dom h)) in *.
  rewrite Harr; simpl. rewrite lookup_insert_eq; simpl.
  rewrite (shuffle_loop_refines _ _ _ _ elems) by apply lookup_insert_eq.
  rewrite insert_insert_eq.
  assert (shuffled ≠ array) by congruence.
  split_and!; [done|done| | |].
  - intros a Ha. by rewrite lookup_insert_ne.
  - by rewrite lookup_insert_ne.
  - eexists. split; [apply lookup_insert_eq|].
    split; [done|]. split.
    + apply shuffleArray_Permutation.
    + apply shuffleArray_length.
Qed.

Lemma shuffleArray_fresh_permutation_witness :
  let '(shuffled, h', _) :=
    Store.shuffleArray 0 {[0 := sample_numbers]} sample_rng in
  shuffled ≠ 0 ∧
  ({[0 := sample_numbers]} : gmap nat (list nat)) !! shuffled = None ∧
  (∀ a, a ≠ shuffled →
     h' !! a = ({[0 := sample_numbers]} : gmap nat (list nat)) !! a) ∧
  h' !! 0 = Some sample_numbers ∧
  ∃ result,
    h' !! shuffled = Some result ∧
    result = (shuffleArray sample_numbers sample_rng).1 ∧
    result ≡ₚ sample_numbers ∧
    length result = length sample_numbers.
Proof.
  apply (shuffleArray_fresh_permutation
           {[0 := sample_numbers]} 0 sample_numbers sample_rng).
  reflexivity.
Defined.

(** ** selectRandomWords *)

(** The words [selectRandomWords] shuffles: the filtered words, or all of them
    when the filter is off or leaves fewer than [count]. *)
Lemma selectRandomWords_eligible words count d g :
  ∃ eligible,
    selectRandomWords words count d g =
      (slice (shuffleArray eligible g).1 0 count, (shuffleArray eligible g).2) ∧
    eligible `sublist_of` words ∧
    ((count ≤ Z.of_nat (length words))%Z →
     (count ≤ Z.of_nat (length eligible))%Z).
Proof.
  unfold selectRandomWords.
  set (filtered := if decide (default "all"%string d ≠ "all"%string)
                   then _ else _).
  assert (filtered `sublist_of` words) as Hsub.
  { unfold filtered. case_decide; [apply sublist_filter|done]. }
  destruct (decide (Z.of_nat (length filtered) < count)%Z).
  - exists words. by destruct (shuffleArray words g).
  - exists filtered. destruct (shuffleArray filtered g).
    split_and!; [done|done|lia].
Qed.

(** C2. For a pool without duplicates and a count between [0] and the size of
    the pool, [selectRandomWords] returns exactly [count] words, each of them
    a word of the pool, and no word twice. *)
Theorem selectRandomWords_count_distinct
    (P : list Word) (c : Z) (d : option string) (g : rng) :
  NoDup P →
  (0 ≤ c ≤ Z.of_nat (length P))%Z →
  let selected := (selectRandomWords P c d g).1 in
  Z.of_nat (length selected) = c ∧
  (∀ w, w ∈ selected → w ∈ P) ∧
  NoDup selected.
Proof.
  intros HP [Hc0 HcP].
  destruct (selectRandomWords_eligible P c d g) as (E & -> & Hsub & Hlen).
  specialize (Hlen HcP). cbn [fst].
  rewrite slice_prefix by done.
  pose proof (shuffleArray_Permutation E g) as Hperm.
  assert (NoDup E) as HE by (by apply (sublist_NoDup E P)).
  split_and!.
  - rewrite length_take, shuffleArray_length. lia.
  - intros w Hw. apply (elem_of_sublist E); [|done].
    rewrite <- Hperm. eapply elem_of_sublist; [done|apply sublist_take].
  - apply (sublist_NoDup _ (shuffleArray E g).1); [|apply sublist_take].
    by rewrite Hperm.
Qed.

Lemma selectRandomWords_count_distinct_witness :
  let selected := (selectRandomWords sample_pool 2 (Some "easy"%string)
                     sample_rng).1 in
  Z.of_nat (length selected) = 2%Z ∧
  (∀ w, w ∈ selected → w ∈ sample_pool) ∧
  NoDup selected.
Proof.
  apply (selectRandomWords_count_distinct
           sample_pool 2 (Some "easy"%string) sample_rng).
  - apply (bool_decide_unpack _). by vm_compute.
  - simpl. lia.
Defined.

(** *** Every word of the shuffled array can come first *)

Section Steering.
Context {T : Type}.
Implicit Types a : list T.

Lemma exchange_same i a : exchange i i a = a.
Proof.
  unfold exchange. destruct (a !! i) as [x|] eqn:Hi; [|done].
  rewrite (list_insert_id a i x Hi). by apply list_insert_id.
Qed.

Lemma drawn_next g i i' :
  i' ≤ i →
  drawn (Rng (outcomes g) (S (calls g))) i i' = drawn g (S i) i'.
Proof.
  intros Hi. unfold drawn; simpl. do 2 f_equal. lia.
Qed.

Lemma shuffle_loop_fixed i a g :
  (∀ i', 1 ≤ i' ≤ i → drawn g i i' = i') → (shuffle_loop i a g).1 = a.
Proof.
  revert a g. induction i as [|i IH]; intros a g Hdraw; [done|].
  cbn [shuffle_loop]. unfold Math_random.
  pose proof (Hdraw (S i) ltac:(lia)) as Hj. unfold drawn in Hj.
  rewrite Nat.sub_diag, Nat.add_0_r in Hj. rewrite Hj, exchange_same.
  apply IH. intros i' Hi'. rewrite drawn_next by lia. apply Hdraw. lia.
Qed.

Lemma shuffle_loop_front i a g k :
  k ≤ i → i < length a →
  (∀ i', 1 ≤ i' ≤ i → drawn g i i' = if decide (i' = k) then 0 else i') →
  (shuffle_loop i a g).1 !! 0 = a !! k.
Proof.
  revert a g. induction i as [|i IH]; intros a g Hk Hi Hdraw.
  { by replace k with 0 by lia. }
  cbn [shuffle_loop]. unfold Math_random.
  pose proof (Hdraw (S i) ltac:(lia)) as Hj. unfold drawn in Hj.
  rewrite Nat.sub_diag, Nat.add_0_r in Hj. rewrite Hj.
  destruct (decide (S i = k)) as [<-|Hne].
  - rewrite shuffle_loop_fixed.
    + rewrite lookup_exchange by lia. by rewrite decide_False, decide_True.
    + intros i' Hi'. rewrite drawn_next by lia.
      rewrite Hdraw by lia. apply decide_False. lia.
  - rewrite exchange_same. apply IH; [lia..|].
    intros i' Hi'. rewrite drawn_next by lia. apply Hdraw. lia.
Qed.

Lemma shuffleArray_front a k x :
  a !! k = Some x → (shuffleArray a (front_rng (length a) k)).1 !! 0 = Some x.
Proof.
  intros Hx. pose proof (lookup_lt_Some _ _ _ Hx) as Hk.
  unfold shuffleArray. rewrite <- Hx. apply shuffle_loop_front; [lia..|].
  intros i' Hi'. unfold drawn, front_rng; simpl.
  replace (length a - 1 - (length a - 1 - i')) with i' by lia.
  rewrite Nat.add_1_r.
  case_decide; apply floor_mul_pick; lia.
Qed.

End Steering.

(** C3. When a difficulty other than ["all"] leaves fewer than [count] words,
    [selectRandomWords] shuffles the whole pool and returns the first [count]
    words of that shuffle: the filter plays no part in the result, and every
    word of the pool is returned under some outcome of the random source. *)
Theorem selectRandomWords_fallback (P : list Word) (c : Z) (d : string) :
  d ≠ "all"%string →
  (Z.of_nat (length (filter (λ w, difficulty w = d) P)) < c)%Z →
  (∀ g, selectRandomWords P c (Some d) g =
          (slice (shuffleArray P g).1 0 c, (shuffleArray P g).2)) ∧
  (∀ w, w ∈ P → ∃ g, w ∈ (selectRandomWords P c (Some d) g).1).
Proof.
  intros Hd Hfew.
  assert (∀ g, selectRandomWords P c (Some d) g =
            (slice (shuffleArray P g).1 0 c, (shuffleArray P g).2)) as Heq.
  { intros g. unfold selectRandomWords. cbn [default].
    rewrite (decide_True _ _ Hd). rewrite (decide_True _ _ Hfew).
    by destruct (shuffleArray P g). }
  split; [done|].
  intros w [k Hk]%list_elem_of_lookup.
  exists (front_rng (length P) k). rewrite Heq; cbn [fst].
  rewrite slice_prefix by lia.
  apply elem_of_take. exists 0. split; [by apply shuffleArray_front|lia].
Qed.

Lemma selectRandomWords_fallback_witness :
  (∀ g, selectRandomWords sample_pool 2 (Some "medium"%string) g =
          (slice (shuffleArray sample_pool g).1 0 2,
           (shuffleArray sample_pool g).2)) ∧
  (∀ w, w ∈ sample_pool →
        ∃ g, w ∈ (selectRandomWords sample_pool 2 (Some "medium"%string) g).1).
Proof.
  apply (selectRandomWords_fallback sample_pool 2 "medium"%string).
  - by apply (bool_decide_unpack _).
  - vm_compute. reflexivity.
Defined.

(** ** createMultipleChoiceOptions *)

Lemma wrongWords_spec correctWord allWords w :
  w ∈ wrongWords correctWord allWords ↔
  word w ≠ word correctWord ∧ w ∈ allWords.
Proof. unfold wrongWords. by rewrite list_elem_of_filter. Qed.

Lemma slice_sublist {T} (a : list T) start fin :
  slice a start fin `sublist_of` a.
Proof.
  unfold slice. etrans; [apply sublist_take|apply sublist_drop].
Qed.

Lemma filter_none {T} (P : T → Prop) `{∀ x, Decision (P x)} (l : list T) :
  (∀ x, x ∈ l → ¬ P x) → filter P l = [].
Proof.
  induction l as [|x l IH]; intros Hl; [done|].
  rewrite filter_cons_False by (apply Hl; left).
  apply IH. intros y Hy. apply Hl. by right.
Qed.

Lemma generateWrongAnswers_from_candidates correctWord allWords count g m :
  m ∈ (generateWrongAnswers correctWord allWords count g).1 →
  ∃ w, m = meaning w ∧ w ∈ wrongWords correctWord allWords.
Proof.
  unfold generateWrongAnswers.
  pose proof (shuffleArray_Permutation (wrongWords correctWord allWords) g)
    as Hperm.
  destruct (shuffleArray _ g) as [shuffled g']; cbn [fst] in *.
  intros (w & -> & Hw)%list_elem_of_fmap. exists w. split; [done|].
  rewrite <- Hperm. eapply elem_of_sublist; [done|apply slice_sublist].
Qed.

Lemma createMultipleChoiceOptions_Permutation correctWord allWords g :
  (createMultipleChoiceOptions correctWord allWords g).1 ≡ₚ
  meaning correctWord :: (generateWrongAnswers correctWord allWords None g).1.
Proof.
  unfold createMultipleChoiceOptions.
  destruct (generateWrongAnswers _ _ _ g) as [wrongAnswers g'].
  apply shuffleArray_Permutation.
Qed.

(** C4, as the code has it.  The options always contain the correct meaning;
    the distractor candidates are the words of the pool whose word differs
    from the correct item's; and the correct meaning occurs exactly once
    provided that no word of the pool with another word has that same
    meaning. *)
Theorem createMultipleChoiceOptions_correct_meaning
    (correctWord : Word) (allWords : list Word) (g : rng) :
  let options := (createMultipleChoiceOptions correctWord allWords g).1 in
  meaning correctWord ∈ options ∧
  (∀ w, w ∈ wrongWords correctWord allWords ↔
        word w ≠ word correctWord ∧ w ∈ allWords) ∧
  ((∀ w, w ∈ allWords → word w ≠ word correctWord →
         meaning w ≠ meaning correctWord) →
   occurrences (meaning correctWord) options = 1).
Proof.
  cbn zeta.
  pose proof (createMultipleChoiceOptions_Permutation correctWord allWords g)
    as Hperm.
  split_and!.
  - rewrite Hperm. by left.
  - intros w. apply wrongWords_spec.
  - intros Hdistinct. unfold occurrences. rewrite Hperm.
    rewrite filter_cons_True by done.
    rewrite filter_none; [done|]. intros m Hm ->.
    apply generateWrongAnswers_from_candidates in Hm as (w & Hmw & Hw).
    apply wrongWords_spec in Hw as [Hword Hin].
    by apply (Hdistinct w).
Qed.

Lemma createMultipleChoiceOptions_correct_meaning_witness :
  let options :=
    (createMultipleChoiceOptions word_abate sample_pool sample_rng).1 in
  meaning word_abate ∈ options ∧
  occurrences (meaning word_abate) options = 1.
Proof.
  destruct (createMultipleChoiceOptions_correct_meaning
              word_abate sample_pool sample_rng) as (Hin & _ & Honce).
  split; [exact Hin|].
  apply Honce.
  apply (proj1 (Forall_forall
                  (λ w, word w ≠ word word_abate →
                        meaning w ≠ meaning word_abate) sample_pool)).
  apply (bool_decide_unpack _). by vm_compute.
Defined.

(** C4, as stated, fails: a distractor may carry the correct meaning, which
    then occurs twice among the options. *)
Lemma createMultipleChoiceOptions_meaning_twice :
  let options :=
    (createMultipleChoiceOptions word_big [word_big; word_huge] sample_rng).1 in
  options = ["large"; "large"]%string ∧
  occurrences (meaning word_big) options = 2 ∧
  occurrences (meaning word_big) options ≠ 1.
Proof. by vm_compute. Qed.

(** ** Reading back what [JSON.stringify] wrote *)

Module JSONFacts.
Import JSON.
Local Open Scope char_scope.

Lemma json_ind (P : json → Prop) :
  P JNull →
  (∀ b, P (JBool b)) →
  (∀ n, P (JNum n)) →
  (∀ s, P (JStr s)) →
  (∀ items, Forall P items → P (JArr items)) →
  (∀ members, Forall (λ m, P (snd m)) members → P (JObj members)) →
  ∀ v, P v.
Proof.
  intros Hnull Hbool Hnum Hstr Harr Hobj.
  fix IH 1. intros [|b|n|s|items|members].
  - exact Hnull.
  - apply Hbool.
  - apply Hnum.
  - apply Hstr.
  - apply Harr. induction items as [|x items IHitems]; constructor.
    + apply IH.
    + exact IHitems.
  - apply Hobj. induction members as [|[k x] members IHmembers]; constructor.
    + apply IH.
    + exact IHmembers.
Qed.

(** *** Numbers *)

Lemma read_uint_digits d rest :
  ends_number rest → read_uint (digits d ++ rest) = (d, rest).
Proof.
  intros Hrest.
  induction d as [|d IH|d IH|d IH|d IH|d IH|d IH|d IH|d IH|d IH|d IH];
    try (cbn [digits app read_uint]; cbn [digit_of Ascii.eqb Bool.eqb];
         by rewrite IH).
  destruct rest as [|c rest]; [done|].
  cbn [digits app read_uint]. cbn in Hrest. by rewrite Hrest.
Qed.

Lemma to_uint_nonnil n : N.to_uint n ≠ Decimal.Nil.
Proof.
  destruct n as [|p]; [done|]. apply DecimalPos.Unsigned.to_uint_nonnil.
Qed.

(** A number starts with a digit, which selects the last branch of
    [parse_value]. *)
Lemma parse_value_digits fuel d rest :
  d ≠ Decimal.Nil → ends_number rest →
  parse_value (S fuel) (digits d ++ rest) =
    Some (JNum (Z.of_N (N.of_uint d)), rest).
Proof.
  intros Hd Hrest.
  pose proof (read_uint_digits d rest Hrest) as Hread.
  destruct d; [done|..];
    cbn [digits app parse_value] in *;
    cbn [Ascii.eqb Bool.eqb]; rewrite Hread; done.
Qed.

Lemma parse_value_print_int fuel n rest :
  ends_number rest →
  parse_value (S fuel) (print_int n ++ rest) = Some (JNum n, rest).
Proof.
  intros Hrest. unfold print_int. destruct (Z.ltb_spec n 0).
  - cbn [app parse_value]. cbn [Ascii.eqb Bool.eqb].
    rewrite read_uint_digits by done.
    destruct (N.to_uint (Z.abs_N n)) eqn:Hd;
      [by apply to_uint_nonnil in Hd|..];
      rewrite <- Hd, DecimalN.Unsigned.of_to; do 3 f_equal; lia.
  - rewrite parse_value_digits by (done || apply to_uint_nonnil).
    rewrite DecimalN.Unsigned.of_to. do 3 f_equal. lia.
Qed.

(** *** Strings *)

Lemma read_string_escape c tail :
  read_string (escape c ++ tail) =
    match read_string tail with
    | Some (cs, rest) => Some (c :: cs, rest)
    | None => None
    end.
Proof.
  destruct c as [[] [] [] [] [] [] [] []]; reflexivity.
Qed.

Lemma read_string_body cs rest :
  read_string (flat_map escape cs ++ dquote :: rest) = Some (cs, rest).
Proof.
  induction cs as [|c cs IH]; [done|].
  cbn [flat_map]. rewrite <- app_assoc, read_string_escape. by rewrite IH.
Qed.

Lemma quote_eq s rest :
  quote s ++ rest =
    dquote :: flat_map escape (list_ascii_of_string s) ++ dquote :: rest.
Proof. unfold quote. cbn [app]. by rewrite <- app_assoc. Qed.

Lemma read_string_quote s rest :
  ∃ body, quote s ++ rest = dquote :: body ∧
          read_string body = Some (list_ascii_of_string s, rest).
Proof. eexists. split; [apply quote_eq|apply read_string_body]. Qed.

(** *** Values *)

(** The first character of a written value is not a closing bracket. *)
Lemma print_head v :
  ∃ c s, print v = c :: s ∧ (c =? "]") = false ∧ (c =? "}") = false.
Proof.
  destruct v as [|[]|n|s|items|members]; try (by eexists _, _).
  unfold print, print_int. destruct (n <? 0)%Z; [by eexists _, _|].
  pose proof (to_uint_nonnil (Z.to_N n)).
  destruct (N.to_uint (Z.to_N n)); [done|..]; by eexists _, _.
Qed.

Lemma parse_elements_print items fuel rest :
  Forall reads_back items → items ≠ [] → need_elements items ≤ fuel →
  parse_elements fuel (join_commas (List.map print items) ++ "]" :: rest) =
    Some (items, rest).
Proof.
  intros Hall. revert fuel.
  induction Hall as [|x items Hx Hall IH]; intros fuel Hne Hfuel; [done|].
  cbn [need_elements fold_right] in Hfuel.
  destruct fuel as [|fuel]; [lia|]. cbn [parse_elements].
  destruct items as [|y items].
  - cbn [List.map join_commas]. rewrite Hx by (done || lia).
    by cbn.
  - change (join_commas (List.map print (x :: y :: items)))
      with (print x ++ "," :: join_commas (List.map print (y :: items))).
    rewrite <- app_assoc. cbn [app]. rewrite Hx by (done || lia).
    cbn [mbind option_bind]. cbn [Ascii.eqb Bool.eqb].
    rewrite IH; [done|done|]. fold (need_elements (y :: items)) in Hfuel. lia.
Qed.

Lemma parse_members_print members fuel rest :
  Forall (λ m, reads_back (snd m)) members → members ≠ [] →
  need_members members ≤ fuel →
  parse_members fuel
    (join_commas (List.map (λ m, quote (fst m) ++ ":" :: print (snd m)) members)
       ++ "}" :: rest) = Some (members, rest).
Proof.
  intros Hall. revert fuel.
  induction Hall as [|[k x] members Hx Hall IH]; intros fuel Hne Hfuel;
    [done|].
  cbn [need_members fold_right snd] in Hfuel. cbn [snd] in Hx.
  destruct fuel as [|fuel]; [lia|]. cbn [parse_members].
  destruct members as [|y members].
  - cbn [List.map join_commas fst snd].
    rewrite <- app_assoc, quote_eq. cbn [Ascii.eqb Bool.eqb].
    rewrite read_string_body. cbn [mbind option_bind app].
    cbn [Ascii.eqb Bool.eqb]. rewrite Hx by (done || lia).
    cbn. by rewrite string_of_list_ascii_of_string.
  - change (join_commas (List.map _ ((k, x) :: y :: members)))
      with ((quote k ++ ":" :: print x) ++ "," ::
            join_commas
              (List.map (λ m, quote (fst m) ++ ":" :: print (snd m))
                 (y :: members))).
    rewrite <- !app_assoc, quote_eq. cbn [Ascii.eqb Bool.eqb].
    rewrite read_string_body. cbn [mbind option_bind app].
    cbn [Ascii.eqb Bool.eqb]. rewrite Hx by (done || lia).
    cbn [mbind option_bind]. cbn [Ascii.eqb Bool.eqb].
    rewrite IH; [|done|].
    + cbn. by rewrite string_of_list_ascii_of_string.
    + fold (need_members (y :: members)) in Hfuel. lia.
Qed.

Lemma parse_value_print v : reads_back v.
Proof.
  induction v as [|[]|n|s|items IH|members IH] using json_ind;
    intros fuel rest Hfuel Hrest;
    (destruct fuel as [|fuel]; [cbn in Hfuel; lia|]).
  - done.
  - done.
  - done.
  - by apply parse_value_print_int.
  - cbn [print]. rewrite quote_eq. cbn [parse_value].
    cbn [Ascii.eqb Bool.eqb]. rewrite read_string_body.
    cbn. by rewrite string_of_list_ascii_of_string.
  - cbn [print]. destruct items as [|x items]; [done|].
    cbn [app]. rewrite <- app_assoc. cbn [app].
    cbn [parse_value]. cbn [Ascii.eqb Bool.eqb].
    destruct (print_head x) as (c & s & Hc & Hc1 & _).
    assert (∃ s', join_commas (List.map print (x :: items)) = c :: s')
      as [s' Hs'].
    { destruct items; cbn [List.map join_commas]; rewrite Hc; by eexists. }
    rewrite Hs'. cbn [app]. rewrite Hc1.
    change (c :: s' ++ "]" :: rest) with ((c :: s') ++ "]" :: rest).
    rewrite <- Hs'.
    rewrite parse_elements_print; [done|done|done|].
    cbn [need] in Hfuel. fold (need_elements (x :: items)) in Hfuel. lia.
  - cbn [print]. destruct members as [|[k x] members]; [done|].
    cbn [app]. rewrite <- app_assoc. cbn [app].
    cbn [parse_value]. cbn [Ascii.eqb Bool.eqb].
    assert (∃ s', join_commas
                    (List.map (λ m, quote (fst m) ++ ":" :: print (snd m))
                       ((k, x) :: members)) = dquote :: s')
      as [s' Hs'].
    { destruct members; cbn [List.map join_commas]; by eexists. }
    rewrite Hs'. cbn [app]. cbn [Ascii.eqb Bool.eqb].
    change (dquote :: s' ++ "}" :: rest) with ((dquote :: s') ++ "}" :: rest).
    rewrite <- Hs'.
    rewrite parse_members_print; [done|done|done|].
    cbn [need] in Hfuel. fold (need_members ((k, x) :: members)) in Hfuel.
    lia.
Qed.

(** *** The fuel that [parse] supplies is enough *)

Lemma length_join_commas_cons (p q : text) parts :
  length (join_commas (p :: q :: parts)) =
    length p + 1 + length (join_commas (q :: parts)).
Proof. cbn [join_commas]. rewrite length_app. cbn [length]. lia. Qed.

Lemma need_join {A} (f : A → nat) (pr : A → text) (l : list A) :
  Forall (λ x, f x ≤ length (pr x) ∧ 1 ≤ length (pr x)) l →
  fold_right (λ x acc, S (Nat.max (f x) acc)) 0 l
    ≤ 1 + length (join_commas (List.map pr l)).
Proof.
  induction 1 as [|x l [Hx Hpos] Hall IH]; [cbn; lia|].
  destruct l as [|y l].
  - cbn. lia.
  - cbn [fold_right] in *. cbn [List.map] in *.
    rewrite length_join_commas_cons. lia.
Qed.

Lemma length_print_pos v : 1 ≤ length (print v).
Proof. destruct (print_head v) as (c & s & -> & _). cbn. lia. Qed.

Lemma need_le_length v : need v ≤ length (print v).
Proof.
  induction v as [|[]|n|s|items IH|members IH] using json_ind;
    try (cbn; lia); try apply length_print_pos.
  - cbn [need print length]. rewrite length_app. cbn [length].
    pose proof (need_join need print items) as Hjoin.
    cut (fold_right (λ x acc, S (Nat.max (need x) acc)) 0 items
         ≤ 1 + length (join_commas (List.map print items))); [lia|].
    apply Hjoin. eapply Forall_impl; [exact IH|].
    intros x Hx. split; [done|apply length_print_pos].
  - cbn [need print length]. rewrite length_app. cbn [length].
    pose proof (need_join (λ m, need (snd m))
                  (λ m, quote (fst m) ++ ":" :: print (snd m)) members)
      as Hjoin.
    cut (fold_right (λ m acc, S (Nat.max (need (snd m)) acc)) 0 members
         ≤ 1 + length (join_commas
                         (List.map (λ m, quote (fst m) ++ ":" :: print (snd m))
                            members))); [lia|].
    apply Hjoin. eapply Forall_impl; [exact IH|].
    intros m Hm. cbn beta in *. rewrite length_app. cbn [length]. lia.
Qed.

(** [JSON.parse(JSON.stringify(v))] is [v]. *)
Lemma parse_stringify v : parse (stringify v) = Some v.
Proof.
  unfold parse, stringify. rewrite list_ascii_of_string_of_list_ascii.
  rewrite <- (app_nil_r (print v)) at 2.
  rewrite parse_value_print; [done|apply need_le_length|done].
Qed.

End JSONFacts.

(** ** The quiz session *)

Section SessionFacts.
Import JSON.

Lemma Word_of_js_of w : Word_of_js (js_of_Word w) = Some w.
Proof. by destruct w. Qed.

Lemma Answer_of_js_of a : Answer_of_js (js_of_Answer a) = Some a.
Proof. by destruct a. Qed.

Lemma js_currentQuestionIndex_of st :
  js_currentQuestionIndex (js_of_TestState st) = Some (currentQuestionIndex st).
Proof. done. Qed.

Lemma js_score_of st : js_score (js_of_TestState st) = Some (score st).
Proof. done. Qed.

Lemma member_answers st :
  member "answers" (js_of_TestState st)
    = Some (JArr (js_of_Answer <$> answers st)).
Proof. done. Qed.

Lemma member_selectedWords st :
  member "selectedWords" (js_of_TestState st)
    = Some (JArr (js_of_Word <$> selectedWords st)).
Proof. done. Qed.

Lemma member_startTime st :
  member "startTime" (js_of_TestState st) = Some (JNum (startTime st)).
Proof. done. Qed.

Lemma js_answers_of st : js_answers (js_of_TestState st) = Some (answers st).
Proof.
  unfold js_answers. rewrite member_answers. cbn [mbind option_bind as_array_of].
  apply mapM_fmap_Forall_Some, Forall_forall. intros a _.
  apply Answer_of_js_of.
Qed.

Lemma TestState_of_js_of st : TestState_of_js (js_of_TestState st) = Some st.
Proof.
  unfold TestState_of_js.
  rewrite js_currentQuestionIndex_of, js_score_of, js_answers_of.
  rewrite member_selectedWords, member_startTime.
  cbn [mbind option_bind as_array_of as_number].
  rewrite mapM_fmap_Forall_Some.
  - by destruct st.
  - apply Forall_forall. intros w _. apply Word_of_js_of.
Qed.

Lemma storedValue_setValue key v h :
  storedValue (setValue key (inl v) h) = v.
Proof.
  unfold setValue. destruct (win h) as [|ls]; [done|].
  by destruct (setItem ls key _).
Qed.

Lemma testState_setTestState st h :
  Session.testState (Session.setTestState st h) = Some st.
Proof.
  unfold Session.testState, Session.setTestState.
  by rewrite storedValue_setValue, TestState_of_js_of.
Qed.

Lemma testState_updateTestState updates h st :
  Session.testState h = Some st →
  Session.testState (Session.updateTestState updates h)
    = Some (spread_updates st updates).
Proof.
  intros Hst. unfold Session.updateTestState. rewrite Hst.
  apply testState_setTestState.
Qed.

Lemma testState_initializeTest words now h :
  Session.testState (Session.initializeTest words now h)
    = Some (mkTestState 0 0 words [] now).
Proof. apply testState_setTestState. Qed.

End SessionFacts.

(** *** recordAnswer *)

Lemma testState_recordAnswer q a c h st :
  Session.testState h = Some st →
  Session.testState (Session.recordAnswer q a c h) = Some (answered st q a c).
Proof.
  intros Hst. unfold Session.recordAnswer. rewrite Hst.
  by rewrite (testState_updateTestState _ _ st).
Qed.

Lemma findIndex_recorded (l : list Answer) (new : Answer) :
  findIndex (λ a, Answer_questionIndex a = questionIndex new) (recorded l new)
  = match list_find (λ a, Answer_questionIndex a = questionIndex new) l with
    | Some (i, _) => Z.of_nat i
    | None => Z.of_nat (length l)
    end.
Proof.
  unfold recorded, findIndex.
  destruct (list_find _ l) as [[i x]|] eqn:Hfind.
  - rewrite decide_True by lia. rewrite Nat2Z.id.
    apply list_find_Some in Hfind as (Hi & HP & Hleast).
    erewrite (proj2 (list_find_Some _ _ i new)); [done|].
    split_and!.
    + apply list_lookup_insert_eq. by eapply lookup_lt_Some.
    + done.
    + intros j y Hj Hlt. rewrite list_lookup_insert_ne in Hj by lia. eauto.
  - rewrite decide_False by lia.
    rewrite list_find_app_r by done. cbn.
    rewrite decide_True by done. cbn. f_equal.
Qed.

(** Recording the same answer again stores the same answers. *)
Lemma recorded_idempotent (l : list Answer) (new : Answer) :
  recorded (recorded l new) new = recorded l new.
Proof.
  unfold recorded at 1. cbn zeta. rewrite findIndex_recorded.
  unfold recorded, findIndex.
  destruct (list_find _ l) as [[i x]|] eqn:Hfind.
  - rewrite !decide_True by lia. rewrite !Nat2Z.id.
    apply list_insert_insert_eq.
  - rewrite decide_True by lia. rewrite decide_False by lia.
    rewrite Nat2Z.id. rewrite insert_app_r_alt by lia.
    by rewrite Nat.sub_diag.
Qed.

(** C1, on the code.  Recording a correct answer a second time for the same
    question stores the same answers as the first recording did, yet adds
    one to the score once more. *)
Theorem recordAnswer_twice_counts_twice
    (h : hook) (st : TestState) (q : Z) (a : string) :
  Session.testState h = Some st →
  let h1 := Session.recordAnswer q a true h in
  let h2 := Session.recordAnswer q a true h1 in
  answers <$> Session.testState h2 = answers <$> Session.testState h1 ∧
  score <$> Session.testState h1 = Some (score st + 1)%Z ∧
  score <$> Session.testState h2 = Some (score st + 2)%Z.
Proof.
  intros Hst. cbn zeta.
  rewrite (testState_recordAnswer q a true _ (answered st q a true))
    by (by apply testState_recordAnswer).
  rewrite (testState_recordAnswer q a true h st) by done.
  cbn. split_and!.
  - f_equal. apply (recorded_idempotent (answers st) (mkAnswer q a true)).
  - done.
  - f_equal. lia.
Qed.

Lemma recordAnswer_twice_counts_twice_witness :
  let h1 := Session.recordAnswer 0 "to lessen" true sample_session in
  let h2 := Session.recordAnswer 0 "to lessen" true h1 in
  answers <$> Session.testState h2 = answers <$> Session.testState h1 ∧
  score <$> Session.testState h1 = Some 1%Z ∧
  score <$> Session.testState h2 = Some 2%Z.
Proof.
  apply (recordAnswer_twice_counts_twice sample_session
           (mkTestState 0 0 sample_pool [] 1000) 0 "to lessen").
  reflexivity.
Defined.

(** *** nextQuestion *)

(** C9, as the code has it.  [nextQuestion] adds one to the current index
    when that index is below the last one; otherwise, that is at the last
    index, beyond it, or in a session without words, it leaves the hook as it
    is. *)
Theorem nextQuestion_advances_below_last (h : hook) (st : TestState) :
  Session.testState h = Some st →
  Session.nextQuestion h =
    (if decide (currentQuestionIndex st < last_index st)%Z
     then Session.setTestState (advanced st) h else h) ∧
  Session.testState (Session.nextQuestion h) =
    Some (if decide (currentQuestionIndex st < last_index st)%Z
          then advanced st else st).
Proof.
  intros Hst. unfold Session.nextQuestion, last_index. rewrite Hst.
  case_decide.
  - unfold Session.updateTestState. rewrite Hst.
    split; [done|]. apply testState_setTestState.
  - done.
Qed.

Lemma nextQuestion_advances_below_last_witness :
  Session.nextQuestion sample_session =
    Session.setTestState
      (advanced (mkTestState 0 0 sample_pool [] 1000)) sample_session ∧
  Session.testState (Session.nextQuestion sample_session) =
    Some (advanced (mkTestState 0 0 sample_pool [] 1000)).
Proof.
  apply (nextQuestion_advances_below_last sample_session
           (mkTestState 0 0 sample_pool [] 1000)).
  reflexivity.
Defined.

(** C9, as stated, fails for a session without words: the current index [0]
    is not the last index, and [nextQuestion] does not advance. *)
Lemma nextQuestion_empty_session_stays : ¬ advances_unless_last empty_session.
Proof.
  intros Hclaim.
  destruct (Hclaim (mkTestState 0 0 [] [] 1000) eq_refl) as [Hadvance _].
  specialize (Hadvance ltac:(by vm_compute)).
  by vm_compute in Hadvance.
Qed.

(** ** The session survives a reload *)

Section StorageFacts.
Import JSON.

Lemma stringify_nonempty v : stringify v ≠ EmptyString.
Proof.
  unfold stringify.
  destruct (JSONFacts.print_head v) as (c & s & -> & _). done.
Qed.

(** What [useLocalStorage] stores in an accepting store is what it finds
    there when the component mounts again. *)
Lemma mount_setValue key initialValue v h ls :
  win h = Window ls →
  accepts ls key (stringify v) = true →
  storedValue (mount key initialValue (win (setValue key (inl v) h))) = v.
Proof.
  intros Hwin Haccepts. unfold setValue, setItem.
  rewrite Hwin, Haccepts. unfold mount, getItem.
  cbn [win storedValue items]. rewrite lookup_insert_eq.
  rewrite decide_False by apply stringify_nonempty.
  by rewrite JSONFacts.parse_stringify.
Qed.

(** C8. A session that the hook has written to a store that accepts it is
    the session the hook holds after the page is loaded again: the stored
    value as a whole is the same, and so are its current index, its score
    and its answers. *)
Theorem session_round_trip (st : TestState) (h : hook) (ls : localStorage) :
  win h = Window ls →
  accepts ls Session.key (stringify (js_of_TestState st)) = true →
  let reloaded := Session.load (win (Session.setTestState st h)) in
  storedValue reloaded = js_of_TestState st ∧
  js_currentQuestionIndex (storedValue reloaded)
    = Some (currentQuestionIndex st) ∧
  js_score (storedValue reloaded) = Some (score st) ∧
  js_answers (storedValue reloaded) = Some (answers st) ∧
  Session.testState reloaded = Some st.
Proof.
  intros Hwin Haccepts. cbn zeta.
  unfold Session.testState, Session.load, Session.setTestState.
  rewrite (mount_setValue _ _ _ _ ls) by done.
  split_and!.
  - done.
  - apply js_currentQuestionIndex_of.
  - apply js_score_of.
  - apply js_answers_of.
  - apply TestState_of_js_of.
Qed.

Lemma session_round_trip_witness :
  let reloaded :=
    Session.load (win (Session.setTestState sample_state sample_hook)) in
  storedValue reloaded = js_of_TestState sample_state ∧
  js_currentQuestionIndex (storedValue reloaded)
    = Some (currentQuestionIndex sample_state) ∧
  js_score (storedValue reloaded) = Some (score sample_state) ∧
  js_answers (storedValue reloaded) = Some (answers sample_state) ∧
  Session.testState reloaded = Some sample_state.
Proof.
  apply (session_round_trip sample_state sample_hook
           (mkLocalStorage ∅ (λ _ _, true))).
  - reflexivity.
  - reflexivity.
Defined.

End StorageFacts.

(** ** Numbers *)

Section Binary64Facts.
Local Open Scope Q_scope.

Lemma two_pos (k : Z) : 0 < 2 ^ k.
Proof. by apply Qpower_0_lt. Qed.

Lemma two_plus (j k : Z) : 2 ^ (j + k) == 2 ^ j * 2 ^ k.
Proof. by apply Qpower_plus. Qed.

Lemma two_succ (k : Z) : 2 ^ (k + 1) == 2 * 2 ^ k.
Proof. rewrite two_plus. change (2 ^ 1) with 2. lra. Qed.

Lemma two_of_Z (k : Z) : (0 ≤ k)%Z → inject_Z (2 ^ k) == 2 ^ k.
Proof. intros Hk. by rewrite Zpower_Qpower. Qed.

Lemma two_le (j k : Z) : (j ≤ k)%Z → 2 ^ j <= 2 ^ k.
Proof. intros. apply Qpower_le_compat_l; [done|]. lra. Qed.

Lemma two_lt_inv (j k : Z) : 2 ^ j < 2 ^ k → (j < k)%Z.
Proof.
  intros Hlt. destruct (Z.lt_ge_cases j k) as [|Hge]; [done|].
  pose proof (two_le k j Hge). lra.
Qed.

(** A positive integer lies between two powers of two. *)
Lemma log2_bounds (n : Z) :
  (0 < n)%Z → 2 ^ Z.log2 n <= inject_Z n ∧ inject_Z n < 2 ^ (Z.log2 n + 1).
Proof.
  intros Hn. destruct (Z.log2_spec n Hn) as [Hlow Hhigh].
  pose proof (Z.log2_nonneg n). rewrite <- Z.add_1_r in Hhigh.
  rewrite <- (two_of_Z (Z.log2 n)), <- (two_of_Z (Z.log2 n + 1)) by lia.
  split; [by rewrite <- Zle_Qle|by rewrite <- (Zlt_Qlt n)].
Qed.

Lemma floor_log2_spec (q : Q) :
  0 < q → 2 ^ floor_log2 q <= q ∧ q < 2 ^ (floor_log2 q + 1).
Proof.
  intros Hq. unfold floor_log2.
  destruct q as [a b]. cbn [Qnum Qden].
  assert (0 < a)%Z as Ha by (revert Hq; unfold Qlt; cbn; lia).
  destruct (log2_bounds a Ha) as [Ha1 Ha2].
  destruct (log2_bounds (Z.pos b) ltac:(lia)) as [Hb1 Hb2].
  set (la := Z.log2 a) in *. set (lb := Z.log2 (Z.pos b)) in *.
  assert (a # b == inject_Z a / inject_Z (Z.pos b)) as Hab
    by apply Qmake_Qdiv.
  assert (0 < inject_Z (Z.pos b)) as Hbpos
    by (change 0 with (inject_Z 0); rewrite <- Zlt_Qlt; lia).
  assert ((a # b) * inject_Z (Z.pos b) == inject_Z a) as Hcross.
  { rewrite Hab. field. lra. }
  set (q := a # b) in *. set (A := inject_Z a) in *.
  set (B := inject_Z (Z.pos b)) in *.
  pose proof (two_pos (la - lb)) as Hk.
  pose proof (two_pos lb) as Hlb.
  assert (2 ^ (la - lb - 1 + 1) == 2 ^ (la - lb)) as Hk1
    by (by replace (la - lb - 1 + 1)%Z with (la - lb)%Z by lia).
  assert (2 ^ la == 2 ^ (la - lb) * 2 ^ lb) as Hla.
  { rewrite <- two_plus. by replace (la - lb + lb)%Z with la by lia. }
  assert (q < 2 ^ (la - lb + 1)) as Hhigh.
  { rewrite two_succ.
    apply (Qmult_lt_r _ _ B Hbpos). rewrite Hcross.
    rewrite two_succ in Ha2.
    assert (2 * 2 ^ (la - lb) * 2 ^ lb <= 2 * 2 ^ (la - lb) * B)
      by (apply Qmult_le_l; lra).
    lra. }
  assert (2 ^ (la - lb - 1) <= q) as Hlow.
  { assert (2 * 2 ^ (la - lb - 1) == 2 ^ (la - lb)) as Hhalf
      by (by rewrite <- two_succ, Hk1).
    apply (Qmult_le_r _ _ B Hbpos). rewrite Hcross.
    rewrite two_succ in Hb2.
    pose proof (two_pos (la - lb - 1)) as Hk'.
    assert (2 ^ (la - lb - 1) * B <= 2 ^ (la - lb - 1) * (2 * 2 ^ lb))
      by (apply Qmult_le_l; lra).
    assert (2 ^ (la - lb - 1) * (2 * 2 ^ lb) == 2 ^ la) as Heq.
    { rewrite Hla, <- Hhalf. ring. }
    lra. }
  destruct (Qle_bool (2 ^ (la - lb)) q) eqn:Htest.
  - apply Qle_bool_iff in Htest. by split.
  - split; [done|]. rewrite Hk1.
    apply Qnot_le_lt. intros Hle. apply Qle_bool_iff in Hle. congruence.
Qed.

Lemma nearest_even_spec (q : Q) :
  Qabs (inject_Z (nearest_even q) - q) <= 1 # 2.
Proof.
  unfold nearest_even.
  pose proof (Qfloor_le q) as Hlow. pose proof (Qlt_floor q) as Hhigh.
  rewrite inject_Z_plus in Hhigh. change (inject_Z 1) with 1 in Hhigh.
  apply Qabs_Qle_condition.
  destruct (Qcompare_spec (q - inject_Z (Qfloor q)) (1 # 2)) as [H|H|H];
    [destruct (Z.even _)|..];
    rewrite ?inject_Z_plus; change (inject_Z 1) with 1; lra.
Qed.

Lemma nearest_even_nonneg (q : Q) : 0 <= q → (0 ≤ nearest_even q)%Z.
Proof.
  intros Hq. unfold nearest_even.
  assert (0 ≤ Qfloor q)%Z.
  { change 0%Z with (Qfloor 0). by apply Qfloor_resp_le. }
  destruct (_ ?= _); [destruct (Z.even _)|..]; lia.
Qed.

(** The nearest integer to a number below an integer is not above it. *)
Lemma nearest_even_le (q : Q) (n : Z) :
  q < inject_Z n → (nearest_even q ≤ n)%Z.
Proof.
  intros Hq. unfold nearest_even.
  assert (Qfloor q < n)%Z.
  { rewrite Zlt_Qlt. pose proof (Qfloor_le q). lra. }
  destruct (_ ?= _); [destruct (Z.even _)|..]; lia.
Qed.


(** Rounding a positive number to binary64 gives infinity or a number
    whose error is within half a unit in the last place. *)
Lemma binary64_pos_spec (q : Q) :
  0 < q →
  match binary64_pos q with
  | Finite v => Qabs (v - q) <= q * eps64 + tiny64 ∧ 0 <= v
  | PosInfinity => 2 ^ 1023 <= q
  | _ => False
  end.
Proof.
  intros Hq. unfold binary64_pos.
  destruct (floor_log2_spec q Hq) as [Hlow Hhigh].
  set (e := floor_log2 q) in *.
  set (p := (Z.max e (-1022) - 52)%Z).
  pose proof (two_pos p) as Hp.
  set (t := q / 2 ^ p).
  assert (t * 2 ^ p == q) as Ht by (unfold t; field; lra).
  pose proof (nearest_even_spec t) as Hnear.
  assert (0 <= t) as Htpos.
  { unfold t. apply Qle_shift_div_l; [done|]. lra. }
  pose proof (nearest_even_nonneg t Htpos) as Hm.
  set (m := nearest_even t) in *.
  assert (0 <= inject_Z m) as HmQ
    by (change 0 with (inject_Z 0); by rewrite <- Zle_Qle).
  assert (Qabs (inject_Z m * 2 ^ p - q) <= 2 ^ p * (1 # 2)) as Herr.
  { rewrite <- Ht.
    assert (inject_Z m * 2 ^ p - t * 2 ^ p == (inject_Z m - t) * 2 ^ p)
      as -> by ring.
    rewrite Qabs_Qmult, (Qabs_pos (2 ^ p)) by lra.
    rewrite (Qmult_comm (2 ^ p)). apply Qmult_le_compat_r; [done|lra]. }
  assert (2 ^ p * (1 # 2) <= q * eps64 + tiny64) as Hulp.
  { unfold eps64, tiny64. pose proof (two_pos (-1075)).
    pose proof (two_pos (-53)).
    destruct (Z.le_ge_cases (-1022) e) as [He|He].
    - assert (2 ^ p * (1 # 2) == 2 ^ e * 2 ^ (-53)) as ->.
      { unfold p. rewrite Z.max_l by done.
        replace (e - 52)%Z with (e + -53 + 1)%Z by lia.
        rewrite two_succ, two_plus. field. }
      assert (2 ^ e * 2 ^ (-53) <= q * 2 ^ (-53))
        by (apply Qmult_le_compat_r; lra).
      lra.
    - assert (2 ^ p * (1 # 2) == 2 ^ (-1075)) as ->.
      { unfold p. rewrite Z.max_r by done. by vm_compute. }
      assert (0 <= q * 2 ^ (-53)) by (apply Qmult_le_0_compat; lra).
      lra. }
  destruct (Qle_bool (2 ^ 1024) (inject_Z m * 2 ^ p)) eqn:Hover.
  - apply Qle_bool_iff in Hover.
    (* the value is at most [2 ^ (e + 1)] *)
    apply Qnot_lt_le. intros Hsmall.
    assert (e < 1023)%Z as He.
    { apply two_lt_inv. lra. }
    assert (t < 2 ^ 53) as Htlt.
    { apply (Qmult_lt_r _ _ (2 ^ p) Hp). rewrite Ht.
      rewrite <- two_plus.
      assert (2 ^ (e + 1) <= 2 ^ (53 + p)); [|lra].
      apply two_le. unfold p. lia. }
    assert (m ≤ 2 ^ 53)%Z as Hmle.
    { apply nearest_even_le. by rewrite two_of_Z. }
    assert (inject_Z m * 2 ^ p <= 2 ^ 53 * 2 ^ p).
    { apply Qmult_le_compat_r; [|lra].
      rewrite <- (two_of_Z 53) by done. by rewrite <- Zle_Qle. }
    assert (2 ^ 53 * 2 ^ p <= 2 ^ 1023).
    { rewrite <- two_plus. apply two_le. unfold p. lia. }
    assert (2 ^ 1023 < 2 ^ 1024) by (by vm_compute).
    lra.
  - rewrite Qred_correct. split; [lra|].
    apply Qmult_le_0_compat; lra.
Qed.


Lemma Qnum_pos (q : Q) : 0 < q → ∃ a, Qnum q = Zpos a.
Proof.
  destruct q as [[|a|a] b]; unfold Qlt; cbn; intros Hq; [lia| |lia].
  by exists a.
Qed.

(** Rounding a positive number below [2 ^ 1023] gives a finite one. *)
Lemma binary64_spec (q : Q) :
  0 < q → q < 2 ^ 1023 →
  ∃ v, binary64 q = Finite v ∧ Qabs (v - q) <= q * eps64 + tiny64 ∧ 0 <= v.
Proof.
  intros Hq Hsmall. unfold binary64.
  destruct (Qnum_pos q Hq) as [a ->].
  pose proof (binary64_pos_spec q Hq) as Hspec.
  destruct (binary64_pos q) as [v| | |]; [by exists v|lra|done..].
Qed.

Lemma binary64_zero (q : Q) : q == 0 → binary64 q = Finite 0.
Proof.
  intros Hq. unfold binary64.
  destruct q as [[|a|a] b]; unfold Qeq in Hq; cbn in *; [done|lia..].
Qed.

Lemma eps64_value : eps64 == 1 # 9007199254740992.
Proof. reflexivity. Qed.

Lemma tiny64_small : 0 < tiny64 ∧ tiny64 <= 1 # 2037035976334486086268445688409378161051468393665936250636140449354381299763336706183397376.
Proof. split; by vm_compute. Qed.

Lemma two_1023_large : 1 # 1 <= 2 ^ 1023 ∧ 1267650600228229401496703205376 # 1 <= 2 ^ 1023.
Proof. split; by vm_compute. Qed.

(** A quotient of counts, as the code computes it, is near the quotient. *)
Lemma js_div_near (a b : Z) :
  (0 ≤ a < 2 ^ 31)%Z → (0 < b < 2 ^ 31)%Z →
  near (js_div a b) (inject_Z a / inject_Z b).
Proof.
  intros Ha Hb. unfold js_div, near.
  rewrite decide_False by lia.
  assert (0 < inject_Z b) as HbQ
    by (change 0 with (inject_Z 0); rewrite <- Zlt_Qlt; lia).
  assert (inject_Z b <= 2147483648 # 1) as HbQ'
    by (change (2147483648 # 1) with (inject_Z (2 ^ 31)); rewrite <- Zle_Qle; lia).
  set (q := inject_Z a / inject_Z b).
  assert (q * inject_Z b == inject_Z a) as Hcross by (unfold q; field; lra).
  destruct (decide (a = 0%Z)) as [->|Hne].
  - assert (q == 0) as Hzero by (unfold q; field; lra).
    rewrite (binary64_zero q Hzero). exists 0. split; [done|].
    rewrite Hzero. by vm_compute.
  - assert (1 <= inject_Z a) as HaQ
      by (change 1 with (inject_Z 1); rewrite <- Zle_Qle; lia).
    assert (inject_Z a <= 2147483648 # 1) as HaQ'
      by (change (2147483648 # 1) with (inject_Z (2 ^ 31)); rewrite <- Zle_Qle; lia).
    assert ((1 # 2147483648) <= q) as Hq.
    { apply (Qmult_le_r _ _ (inject_Z b) HbQ). rewrite Hcross.
      assert ((1 # 2147483648) * inject_Z b <= (1 # 2147483648) * (2147483648 # 1))
        by (apply Qmult_le_l; [reflexivity|done]).
      lra. }
    assert (q <= 2147483648 # 1) as Hq'.
    { apply (Qmult_le_r _ _ (inject_Z b) HbQ). rewrite Hcross.
      assert ((2147483648 # 1) * 1 <= (2147483648 # 1) * inject_Z b).
      { apply Qmult_le_l; [reflexivity|].
        change 1 with (inject_Z 1). rewrite <- Zle_Qle. lia. }
      lra. }
    destruct two_1023_large as [_ Hlarge].
    destruct (binary64_spec q) as (v & -> & Herr & Hv); [lra|lra|].
    exists v. split; [done|].
    destruct tiny64_small as [Htiny Htiny'].
    rewrite eps64_value in Herr. rewrite (Qabs_pos q) by lra.
    apply Qabs_diff_Qle_condition.
    apply Qabs_diff_Qle_condition in Herr. lra.
Qed.

(** So is the accuracy, which takes two roundings. *)
Lemma accuracy_near (a b : Z) :
  (0 ≤ a < 2 ^ 31)%Z → (0 < b < 2 ^ 31)%Z →
  near (js_mul_pos (js_div a b) 100) (inject_Z a / inject_Z b * 100).
Proof.
  intros Ha Hb. unfold js_div, near.
  rewrite decide_False by lia.
  assert (0 < inject_Z b) as HbQ
    by (change 0 with (inject_Z 0); rewrite <- Zlt_Qlt; lia).
  assert (inject_Z b <= 2147483648 # 1) as HbQ'
    by (change (2147483648 # 1) with (inject_Z (2 ^ 31)); rewrite <- Zle_Qle; lia).
  set (q := inject_Z a / inject_Z b).
  assert (q * inject_Z b == inject_Z a) as Hcross by (unfold q; field; lra).
  destruct (decide (a = 0%Z)) as [->|Hne].
  - assert (q == 0) as Hzero by (unfold q; field; lra).
    rewrite (binary64_zero q Hzero). cbn [js_mul_pos].
    rewrite binary64_zero by reflexivity.
    exists 0. split; [done|]. rewrite Hzero. by vm_compute.
  - assert (1 <= inject_Z a) as HaQ
      by (change 1 with (inject_Z 1); rewrite <- Zle_Qle; lia).
    assert (inject_Z a <= 2147483648 # 1) as HaQ'
      by (change (2147483648 # 1) with (inject_Z (2 ^ 31)); rewrite <- Zle_Qle; lia).
    assert ((1 # 2147483648) <= q) as Hq.
    { apply (Qmult_le_r _ _ (inject_Z b) HbQ). rewrite Hcross.
      assert ((1 # 2147483648) * inject_Z b <= (1 # 2147483648) * (2147483648 # 1))
        by (apply Qmult_le_l; [reflexivity|done]).
      lra. }
    assert (q <= 2147483648 # 1) as Hq'.
    { apply (Qmult_le_r _ _ (inject_Z b) HbQ). rewrite Hcross.
      assert ((2147483648 # 1) * 1 <= (2147483648 # 1) * inject_Z b).
      { apply Qmult_le_l; [reflexivity|].
        change 1 with (inject_Z 1). rewrite <- Zle_Qle. lia. }
      lra. }
    destruct two_1023_large as [_ Hlarge].
    destruct tiny64_small as [Htiny Htiny'].
    destruct (binary64_spec q) as (v & -> & Herr & Hv); [lra|lra|].
    rewrite eps64_value in Herr.
    apply Qabs_diff_Qle_condition in Herr.
    cbn [js_mul_pos]. change (inject_Z 100) with 100.
    destruct (binary64_spec (v * 100)) as (v' & -> & Herr' & Hv');
      [lra|lra|].
    rewrite eps64_value in Herr'.
    apply Qabs_diff_Qle_condition in Herr'.
    exists v'. split; [done|].
    assert (0 <= q * 100) by lra. rewrite (Qabs_pos (q * 100)) by done.
    apply Qabs_diff_Qle_condition. lra.
Qed.


Lemma pow10_pos (p : Z) : 0 < pow10 p.
Proof.
  unfold pow10. case_decide as Hp; [|done].
  change 0 with (inject_Z 0). rewrite <- Zlt_Qlt.
  by apply Z.pow_pos_nonneg.
Qed.

(** A decimal that is read as [x] is near [x]. *)
Lemma reads_as_spec (d x : Q) :
  0 < d → reads_as d x = true →
  Qabs (x - d) <= d * eps64 + tiny64.
Proof.
  intros Hd. unfold reads_as, binary64.
  destruct (Qnum_pos d Hd) as [a ->].
  pose proof (binary64_pos_spec d Hd) as Hspec.
  destruct (binary64_pos d) as [y| | |]; [|done..].
  intros Hy%Qeq_bool_iff. rewrite <- Hy. tauto.
Qed.

(** What [JSON.stringify] writes for a positive number is that number or a
    decimal that is read as it. *)
Lemma shortest_from_spec (steps : nat) (x : Q) (p : Z) :
  0 < x →
  shortest_from steps x p = x ∨
  (0 < shortest_from steps x p ∧ reads_as (shortest_from steps x p) x = true).
Proof.
  intros Hx. revert p. induction steps as [|steps IH]; intros p; [by left|].
  cbn [shortest_from].
  pose proof (pow10_pos p) as Hunit.
  set (s := Qfloor (x / pow10 p)).
  assert (0 ≤ s)%Z as Hs.
  { change 0%Z with (Qfloor 0). apply Qfloor_resp_le.
    apply Qle_shift_div_l; [done|]. lra. }
  assert (0 < inject_Z (s + 1) * pow10 p) as Habove.
  { apply Qmult_lt_0_compat; [|done].
    change 0 with (inject_Z 0). rewrite <- Zlt_Qlt. lia. }
  destruct (bool_decide (0 < s)%Z) eqn:Hpos; cbn [andb].
  - apply bool_decide_eq_true in Hpos.
    assert (0 < inject_Z s * pow10 p) as Hbelow.
    { apply Qmult_lt_0_compat; [|done].
      change 0 with (inject_Z 0). by rewrite <- Zlt_Qlt. }
    destruct (reads_as (inject_Z s * pow10 p) x) eqn:Hb;
      destruct (reads_as (inject_Z (s + 1) * pow10 p) x) eqn:Ha;
      cbn [andb]; [|by right..|apply IH].
    destruct (_ ?= _); [destruct (Z.even s)|..]; by right.
  - destruct (reads_as (inject_Z (s + 1) * pow10 p) x) eqn:Ha;
      [by right|apply IH].
Qed.

Lemma shortest_decimal_spec (x : Q) :
  0 <= x →
  0 <= shortest_decimal x ∧
  Qabs (x - shortest_decimal x) <= shortest_decimal x * eps64 + tiny64.
Proof.
  intros Hx. unfold shortest_decimal.
  destruct tiny64_small as [Htiny _].
  destruct (Qnum x) as [|a|a] eqn:Hnum.
  - assert (x == 0) as -> by (destruct x; unfold Qeq; cbn in *; lia).
    split; [lra|]. rewrite eps64_value.
    change (Qabs (0 - 0)) with 0. lra.
  - assert (0 < x) as Hpos by (destruct x; unfold Qlt; cbn in *; lia).
    destruct (shortest_from_spec 24 x (upper_exponent x) Hpos)
      as [->|[Hd Hreads]].
    + split; [done|]. rewrite eps64_value.
      assert (x - x == 0) as -> by ring. change (Qabs 0) with 0. lra.
    + split; [lra|]. by apply reads_as_spec.
  - exfalso. destruct x; unfold Qle in Hx; cbn in *; lia.
Qed.

(** Rounding to two decimals moves a number by at most half a
    hundredth. *)
Lemma hundredths_spec (d : Q) :
  0 <= d →
  (0 ≤ hundredths d)%Z ∧
  inject_Z (hundredths d) <= d * 100 + (1 # 2) ∧
  Qabs ((hundredths d # 100) - d) <= 1 # 200.
Proof.
  intros Hd. unfold hundredths.
  destruct (Qnum d) as [|a|a] eqn:Hnum;
    [| |exfalso; destruct d; unfold Qle in Hd; cbn in *; lia].
  all: set (h := Qfloor (d * 100 + (1 # 2))).
  all: pose proof (Qfloor_le (d * 100 + (1 # 2))) as Hlow.
  all: pose proof (Qlt_floor (d * 100 + (1 # 2))) as Hhigh.
  all: fold h in Hlow, Hhigh.
  all: rewrite inject_Z_plus in Hhigh; change (inject_Z 1) with 1 in Hhigh.
  all: assert (0 ≤ h)%Z as Hh
         by (change 0%Z with (Qfloor 0); apply Qfloor_resp_le; lra).
  all: assert ((h # 100) == inject_Z h / 100) as -> by apply Qmake_Qdiv.
  all: split; [done|]; split; [done|].
  all: apply Qabs_diff_Qle_condition.
  all: assert (inject_Z h / 100 == inject_Z h * (1 # 100)) as -> by field.
  all: lra.
Qed.

(** A [DECIMAL(5,2)] column keeps a number that is near a rational of at
    most 999 as that rational to two decimals. *)
Lemma decimal_5_2_cents (x : jsnum) (r : Q) :
  0 <= r <= 999 → near x r →
  ∃ kept, decimal_5_2 x = Some kept ∧ cents_of kept r.
Proof.
  intros Hr (v & -> & Hnear). unfold decimal_5_2, cents_of.
  rewrite (Qabs_pos r) in Hnear by lra.
  apply Qabs_diff_Qle_condition in Hnear.
  destruct tiny64_small as [Htiny Htiny'].
  assert (0 <= v) as Hv by lra.
  destruct (shortest_decimal_spec v Hv) as [Hd Herr].
  rewrite eps64_value in Herr. apply Qabs_diff_Qle_condition in Herr.
  destruct (hundredths_spec (shortest_decimal v) Hd) as (Hh & Hle & Hcent).
  apply Qabs_diff_Qle_condition in Hcent.
  set (d := shortest_decimal v) in *. set (h := hundredths d) in *.
  assert ((h # 100) == inject_Z h / 100) as Hq by apply Qmake_Qdiv.
  assert (inject_Z h / 100 == inject_Z h * (1 # 100)) as Hq' by field.
  rewrite Hq, Hq' in Hcent.
  rewrite decide_True.
  - eexists. split; [done|]. exists h. split; [done|].
    rewrite Hq, Hq'. apply Qabs_diff_Qle_condition. lra.
  - rewrite Z.abs_eq by done. rewrite Zlt_Qlt.
    change (inject_Z 100000) with 100000. lra.
Qed.

Lemma quotients_within (tests asked right : Z) :
  within_columns tests asked right →
  0 <= inject_Z right / inject_Z asked * 100 <= 999 ∧
  0 <= inject_Z right / inject_Z tests <= 999.
Proof.
  intros ((Ht & _) & (Ha & _) & (Hr & _) & Haccuracy & Haverage).
  assert (0 < inject_Z tests) as HtQ
    by (change 0 with (inject_Z 0); by rewrite <- Zlt_Qlt).
  assert (0 < inject_Z asked) as HaQ
    by (change 0 with (inject_Z 0); by rewrite <- Zlt_Qlt).
  assert (0 <= inject_Z right) as HrQ
    by (change 0 with (inject_Z 0); by rewrite <- Zle_Qle).
  assert (100 * inject_Z right <= 999 * inject_Z asked) as Hacc.
  { change 100 with (inject_Z 100). change 999 with (inject_Z 999).
    by rewrite <- !inject_Z_mult, <- Zle_Qle. }
  assert (inject_Z right <= 999 * inject_Z tests) as Havg.
  { change 999 with (inject_Z 999). by rewrite <- inject_Z_mult, <- Zle_Qle. }
  set (q := inject_Z right / inject_Z asked).
  assert (q * inject_Z asked == inject_Z right) as Hq by (unfold q; field; lra).
  set (q' := inject_Z right / inject_Z tests).
  assert (q' * inject_Z tests == inject_Z right) as Hq'
    by (unfold q'; field; lra).
  assert (0 <= q ∧ q * 100 <= 999) as [? ?].
  { split.
    - apply (Qmult_le_r _ _ (inject_Z asked) HaQ). lra.
    - apply (Qmult_le_r _ _ (inject_Z asked) HaQ). lra. }
  assert (0 <= q' ∧ q' <= 999) as [? ?].
  { split.
    - apply (Qmult_le_r _ _ (inject_Z tests) HtQ). lra.
    - apply (Qmult_le_r _ _ (inject_Z tests) HtQ). lra. }
  split; lra.
Qed.

End Binary64Facts.


(** ** The statistics that are written and kept *)

Section StatsFacts.
Local Open Scope Q_scope.

Lemma near_exact (n : Z) : near (of_int n) (inject_Z n / inject_Z 1).
Proof.
  exists (inject_Z n). split; [done|].
  assert (inject_Z n - inject_Z n / inject_Z 1 == 0) as ->
    by (change (inject_Z 1) with 1; field).
  change (Qabs 0) with 0.
  apply Qmult_le_0_compat; [apply Qabs_nonneg|done].
Qed.

(** The values that [updateUserStats] sends are those of the aggregate over
    the prior values. *)
Lemma stats_written (prior : option UserStats) (questions session_score : Z) :
  let spec := aggregate_spec (prior_values prior) questions session_score in
  within_columns (totalTests spec) (totalQuestions spec) (correctAnswers spec) →
  written_as
    match prior with
    | Some row => updated_stats (s_values row) questions session_score
    | None => created_stats questions session_score
    end spec.
Proof.
  cbn zeta. unfold aggregate_spec, written_as.
  cbn [totalTests totalQuestions correctAnswers accuracyPercentage
       averageScore bestScore].
  intros (Htests & Hasked & Hright & _).
  destruct prior as [row|]; cbn [prior_values] in *.
  - unfold updated_stats.
    cbn [total_tests total_questions correct_answers accuracy_percentage
         average_score best_score].
    split_and!; try done.
    + by apply accuracy_near.
    + by apply js_div_near.
  - unfold created_stats, zero_stats in *.
    cbn [total_tests total_questions correct_answers accuracy_percentage
         average_score best_score] in *.
    rewrite !Z.add_0_l in *.
    split_and!; try done.
    + by apply accuracy_near.
    + apply near_exact.
    + lia.
Qed.

(** The columns keep the values of an aggregate whose quotients they have
    room for, the quotients to two decimals. *)
Lemma stats_kept (written : StatsValues) (a : Aggregate) :
  written_as written a →
  0 <= accuracyPercentage a <= 999 →
  0 <= averageScore a <= 999 →
  ∃ kept, stored_stats written = Some kept ∧ kept_as kept a.
Proof.
  intros (Htests & Hasked & Hright & Haccuracy & Haverage & Hbest) Hacc Havg.
  destruct (decimal_5_2_cents _ _ Hacc Haccuracy) as (x & Hx & Hxc).
  destruct (decimal_5_2_cents _ _ Havg Haverage) as (y & Hy & Hyc).
  unfold stored_stats. rewrite Hx, Hy. cbn.
  eexists. split; [done|]. by split_and!.
Qed.

Lemma stats_written_kept (prior : option UserStats)
    (questions session_score : Z) :
  let spec := aggregate_spec (prior_values prior) questions session_score in
  let written :=
    match prior with
    | Some row => updated_stats (s_values row) questions session_score
    | None => created_stats questions session_score
    end in
  within_columns (totalTests spec) (totalQuestions spec) (correctAnswers spec) →
  written_as written spec ∧
  ∃ kept, stored_stats written = Some kept ∧ kept_as kept spec.
Proof.
  cbn zeta. intros Hwithin.
  pose proof (stats_written prior questions session_score Hwithin) as Hwritten.
  split; [done|].
  destruct (quotients_within _ _ _ Hwithin) as [Hacc Havg].
  by apply stats_kept.
Qed.

(** [updateUserStats] when its read and its write go without a fault and
    the columns keep the values it sends. *)
Lemma updateUserStats_step (u : User) (st : TestState) (w : world)
    (kept : StatsValues) :
  let prior := user_stats w !! user_id u in
  let written :=
    match prior with
    | Some row => updated_stats (s_values row)
                    (Z.of_nat (length (selectedWords st))) (score st)
    | None => created_stats (Z.of_nat (length (selectedWords st))) (score st)
    end in
  Forall (λ f, f = NoFault) (take 2 (faults w)) →
  stored_stats written = Some kept →
  ∃ w', updateUserStats (Some u) (Some st) w = (Returned (), w') ∧
    log w' = log w ++ [SelectUserStats (user_id u);
                       stats_write prior (user_id u) written (js_time w)] ∧
    s_values <$> user_stats w' !! user_id u = Some kept ∧
    faults w' = drop 2 (faults w).
Proof.
  cbn zeta. intros Hfaults Hkept.
  assert (default NoFault (head (faults w)) = NoFault ∧
          default NoFault (head (tail (faults w))) = NoFault) as [Hf1 Hf2].
  { destruct (faults w) as [|f1 [|f2 fs]]; cbn in *; [done|..].
    - by apply Forall_cons in Hfaults as [-> _].
    - apply Forall_cons in Hfaults as [-> Hfaults].
      by apply Forall_cons in Hfaults as [-> _]. }
  assert (tail (tail (faults w)) = drop 2 (faults w)) as Hdrop
    by (by destruct (faults w) as [|f1 [|f2 fs]]).
  unfold updateUserStats, try_catch, supabase.select_user_stats,
    supabase.issue, get, mbind, M_bind, mret, M_ret.
  rewrite Hf1. cbn [user_stats].
  destruct (user_stats w !! user_id u) as [row|] eqn:Hprior.
  - unfold supabase.update_user_stats, supabase.issue, supabase.set_user_stats,
      get, mbind, M_bind, mret, M_ret.
    cbn [faults js_time user_stats log]. rewrite Hf2, Hkept.
    eexists. split; [reflexivity|]. cbn [log user_stats faults].
    split_and!.
    + by rewrite <- app_assoc.
    + by rewrite lookup_alter_eq, Hprior.
    + done.
  - unfold supabase.insert_user_stats, supabase.issue, supabase.set_user_stats,
      get, mbind, M_bind, mret, M_ret.
    cbn [faults js_time user_stats log db_time]. rewrite Hf2.
    cbn [user_stats db_time]. rewrite Hprior, Hkept.
    eexists. split; [reflexivity|]. cbn [log user_stats faults].
    split_and!.
    + by rewrite <- app_assoc.
    + by rewrite lookup_insert_eq.
    + done.
Qed.

End StatsFacts.

(** ** The results store *)

(** C7. When the insertion of the test result fails, by an error or by a
    rejection, [saveTestResult] returns [null] in both versions of the hook,
    and the insertion is the only call it has issued: the statistics are
    neither read nor written. *)
Theorem saveTestResult_insert_fails
    (u : User) (st : TestState) (d : string) (endTime : option Z)
    (w : world) (f : fault) (rest : list fault) :
  faults w = f :: rest →
  f ≠ NoFault →
  let values := new_test_result u st d (default (js_time w) endTime) in
  only_insert_attempted values w
    (saveTestResult (Some u) (Some st) d endTime w) ∧
  only_insert_attempted values w
    (AppHooks.saveTestResult (Some u) (Some st) d endTime w).
Proof.
  intros Hfaults Hf. unfold only_insert_attempted.
  unfold saveTestResult, AppHooks.saveTestResult, try_catch,
    supabase.insert_test_result, supabase.issue, get, mbind, M_bind.
  rewrite Hfaults. cbn [head default].
  destruct f; [done|..]; by cbn.
Qed.

Lemma saveTestResult_insert_fails_witness :
  let w := with_faults [ReturnsError] empty_world in
  let values := new_test_result sample_user finished_session "all" 0 in
  only_insert_attempted values w
    (saveTestResult (Some sample_user) (Some finished_session) "all" None w) ∧
  only_insert_attempted values w
    (AppHooks.saveTestResult (Some sample_user) (Some finished_session)
       "all" None w).
Proof.
  apply (saveTestResult_insert_fails sample_user finished_session "all" None
           (with_faults [ReturnsError] empty_world) ReturnsError []).
  - reflexivity.
  - discriminate.
Defined.

(** *** updateUserStats *)

(** C5. When the statistics are read and written without a fault, and the
    new totals are such as the columns hold, [updateUserStats] reads the row
    of the user and sends the aggregate of the design note over the prior
    values, which are zero when the user has no row: the counts and the best
    score as they are, the accuracy and the average as the binary64 numbers
    that the quotients come to, within [2 ^ -51] of them in proportion.  The
    row of the user then holds the counts and the best score, and the accuracy
    and the average to two decimals.  A first session with 15 of 20 right is
    sent, and kept, with an accuracy of 75. *)
Theorem updateUserStats_aggregates (u : User) (st : TestState) (w : world) :
  Forall (λ f, f = NoFault) (take 2 (faults w)) →
  let prior := user_stats w !! user_id u in
  let questions := Z.of_nat (length (selectedWords st)) in
  let spec := aggregate_spec (prior_values prior) questions (score st) in
  within_columns (totalTests spec) (totalQuestions spec) (correctAnswers spec) →
  let w' := (updateUserStats (Some u) (Some st) w).2 in
  (∃ written kept,
     log w' = log w ++ [SelectUserStats (user_id u);
                        stats_write prior (user_id u) written (js_time w)] ∧
     written_as written spec ∧
     s_values <$> user_stats w' !! user_id u = Some kept ∧
     kept_as kept spec) ∧
  accuracy_percentage (created_stats 20 15) = Finite 75 ∧
  accuracy_percentage <$>
    (s_values <$>
       user_stats
         (updateUserStats (Some u) (Some finished_session) empty_world).2
         !! user_id u) = Some (Finite 75).
Proof.
  intros Hfaults prior questions spec Hwithin. cbn zeta. split_and!.
  - destruct (stats_written_kept prior questions (score st) Hwithin)
      as (Hwritten & kept & Hkept & Hkept_as).
    destruct (updateUserStats_step u st w kept Hfaults Hkept)
      as (w' & -> & Hlog & Hrow & _).
    eexists _, kept. by split_and!.
  - by vm_compute.
  - edestruct (updateUserStats_step u finished_session empty_world)
      as (w' & -> & _ & Hrow & _).
    + constructor.
    + vm_compute. reflexivity.
    + cbn [snd]. by rewrite Hrow.
Qed.

Lemma updateUserStats_aggregates_witness :
  let sent_and_kept (w : world) :=
    let prior := user_stats w !! user_id sample_user in
    let questions := Z.of_nat (length (selectedWords finished_session)) in
    let spec :=
      aggregate_spec (prior_values prior) questions (score finished_session) in
    let w' :=
      (updateUserStats (Some sample_user) (Some finished_session) w).2 in
    ∃ written kept,
      log w' = log w ++ [SelectUserStats (user_id sample_user);
                         stats_write prior (user_id sample_user) written
                                     (js_time w)] ∧
      written_as written spec ∧
      s_values <$> user_stats w' !! user_id sample_user = Some kept ∧
      kept_as kept spec in
  (user_stats empty_world !! user_id sample_user = None ∧
   sent_and_kept empty_world) ∧
  (total_tests ∘ s_values <$> user_stats world_with_stats !! user_id sample_user
     = Some 1%Z ∧
   sent_and_kept world_with_stats).
Proof.
  cbv zeta. split; (split; [by vm_compute|]).
  - refine (proj1 (updateUserStats_aggregates sample_user finished_session
                     empty_world _ _)).
    + constructor.
    + vm_compute. repeat split; discriminate.
  - refine (proj1 (updateUserStats_aggregates sample_user finished_session
                     world_with_stats _ _)).
    + constructor.
    + vm_compute. repeat split; discriminate.
Defined.

(** C5, as stated, fails on the row: after a first session with 1 of 3
    right the row holds an accuracy of 33.33, which is not the quotient, be
    it the binary64 number 33.33333333333333 that the code sends or the
    rational 100 / 3. *)
Lemma updateUserStats_keeps_two_decimals :
  ¬ leaves_quotients sample_user one_of_three empty_world.
Proof.
  intros (row & Hrow & [Haccuracy|Haccuracy] & _).
  all: vm_compute in Hrow; injection Hrow as <-.
  all: by vm_compute in Haccuracy.
Qed.

(** *** Retention *)

Section Retention.
Implicit Types rows : list TestResult.

Lemma filter_all {A} (P : A → Prop) `{∀ x, Decision (P x)} (l : list A) :
  (∀ x, x ∈ l → P x) → filter P l = l.
Proof.
  induction l as [|x l IH]; intros Hl; [done|].
  rewrite filter_cons_True by (apply Hl; left).
  f_equal. apply IH. intros y Hy. apply Hl. by right.
Qed.

Lemma filter_filter_implied {A} (P Q : A → Prop)
    `{∀ x, Decision (P x)} `{∀ x, Decision (Q x)} (l : list A) :
  (∀ x, x ∈ l → P x → Q x) → filter P (filter Q l) = filter P l.
Proof.
  induction l as [|x l IH]; intros Hl; [done|].
  assert (filter P (filter Q l) = filter P l) as IH'.
  { apply IH. intros y Hy. apply Hl. by right. }
  destruct (decide (P x)) as [HP|HP].
  - rewrite (filter_cons_True Q) by (apply Hl; [left|done]).
    rewrite !filter_cons_True by done. by rewrite IH'.
  - rewrite (filter_cons_False P x l) by done.
    destruct (decide (Q x)).
    + rewrite (filter_cons_True Q) by done.
      by rewrite filter_cons_False.
    + by rewrite (filter_cons_False Q).
Qed.

Lemma NoDup_fmap_eq {A B} (f : A → B) (l : list A) x y :
  NoDup (f <$> l) → x ∈ l → y ∈ l → f x = f y → x = y.
Proof.
  induction l as [|z l IH]; intros Hdup Hx Hy Hxy; [by inv Hx|].
  rewrite fmap_cons in Hdup. apply NoDup_cons in Hdup as [Hz Hdup].
  apply elem_of_cons in Hx as [->|Hx];
    apply elem_of_cons in Hy as [->|Hy]; [done|..].
  - destruct Hz. rewrite Hxy. by apply list_elem_of_fmap_2.
  - destruct Hz. rewrite <- Hxy. by apply list_elem_of_fmap_2.
  - by apply IH.
Qed.

Lemma rows_of_kept user ids rows :
  supabase.rows_of user (kept ids rows) = kept ids (supabase.rows_of user rows).
Proof.
  unfold supabase.rows_of, kept. rewrite !list_filter_filter.
  apply list_filter_iff. tauto.
Qed.

(** Deleting all but the first 20 of a user's rows, newest first, leaves
    that user exactly those 20 and the other users all of theirs. *)
Lemma kept_newest user rows :
  NoDup (r_id <$> rows) →
  let sorted := supabase.newest_first (supabase.rows_of user rows) in
  let ids := r_id <$> drop 20 sorted in
  supabase.rows_of user (kept ids rows) ≡ₚ take 20 sorted ∧
  ∀ other, other ≠ user →
    supabase.rows_of other (kept ids rows) = supabase.rows_of other rows.
Proof.
  intros Hdup. cbn zeta.
  set (own := supabase.rows_of user rows).
  set (sorted := supabase.newest_first own).
  set (ids := r_id <$> drop 20 sorted).
  assert (sorted ≡ₚ own) as Hsorted by apply merge_sort_Permutation.
  assert (own `sublist_of` rows) as Hown by apply sublist_filter.
  assert (NoDup (r_id <$> sorted)) as Hdup_sorted.
  { rewrite Hsorted. eapply sublist_NoDup; [exact Hdup|].
    by apply fmap_sublist. }
  split.
  - rewrite rows_of_kept. fold own. unfold kept. rewrite <- Hsorted.
    rewrite <- (take_drop 20 sorted) at 1. rewrite filter_app.
    rewrite <- (take_drop 20 sorted), fmap_app in Hdup_sorted.
    apply NoDup_app in Hdup_sorted as (_ & Hdisjoint & _).
    rewrite filter_all, filter_none, app_nil_r; [done|..].
    + intros r Hr Hkeep. apply Hkeep. by apply list_elem_of_fmap_2.
    + intros r Hr. apply Hdisjoint. by apply list_elem_of_fmap_2.
  - intros other Hother. unfold supabase.rows_of, kept.
    apply filter_filter_implied. intros r Hr Huser Hin.
    apply list_elem_of_fmap in Hin as (r' & Hid & Hr').
    assert (r' ∈ own) as Hr'own.
    { rewrite <- Hsorted. eapply elem_of_sublist; [done|apply sublist_drop]. }
    assert (r = r') as <-.
    { apply (NoDup_fmap_eq r_id rows); [done..| |done].
      by eapply elem_of_sublist. }
    apply list_elem_of_filter in Hr'own as [Huser' _]. congruence.
Qed.

Lemma updateUserStats_frame user testState w :
  ∃ w', updateUserStats user testState w = (Returned (), w') ∧
        test_results w' = test_results w ∧
        next_id w' = next_id w ∧
        (faults w = [] → faults w' = []).
Proof.
  unfold updateUserStats.
  destruct user as [u|], testState as [st|];
    try (eexists; split_and!; [reflexivity|done..]).
  unfold try_catch, supabase.select_user_stats, supabase.update_user_stats,
    supabase.insert_user_stats, supabase.issue, supabase.set_user_stats,
    get, mbind, M_bind, mret, M_ret.
  destruct (faults w) as [|f1 [|f2 fs]]; cbn [head tail default faults];
    try destruct f1; try destruct f2;
    cbn [user_stats js_time db_time faults head tail default];
    repeat case_match; simplify_eq;
    eexists; (split_and!; [reflexivity|done..]).
Qed.

Lemma cleanupOldTests_no_fault u w :
  faults w = [] →
  let sorted :=
    supabase.newest_first (supabase.rows_of (user_id u) (test_results w)) in
  ∃ w', cleanupOldTests (Some u) w = (Returned true, w') ∧
        next_id w' = next_id w ∧
        test_results w' =
          if decide (20 < length sorted)
          then kept (r_id <$> drop 20 sorted) (test_results w)
          else test_results w.
Proof.
  intros Hfaults. cbn zeta.
  unfold cleanupOldTests, try_catch, supabase.select_test_results,
    supabase.delete_test_results, supabase.issue, supabase.set_test_results,
    get, mbind, M_bind, mret, M_ret.
  rewrite Hfaults. cbn [head tail default test_results].
  rewrite length_fmap. case_decide.
  - cbn [head tail default faults test_results next_id fst snd].
    eexists. split_and!; [reflexivity|done|].
    cbn [test_results]. unfold kept.
    by rewrite <- fmap_drop, <- list_fmap_compose.
  - eexists. split_and!; [reflexivity|done|done].
Qed.

Lemma run_bind {A B} (m : M A) (f : A → M B) w a w' :
  m w = (Returned a, w') → (m ≫= f) w = f a w'.
Proof. intros Hm. unfold mbind, M_bind. by rewrite Hm. Qed.

Lemma insert_test_result_no_fault values w :
  faults w = [] →
  let row := mkTestResult (next_id w) (db_time w) values in
  supabase.insert_test_result values w =
    (Returned (Some row),
     mkWorld (test_results w ++ [row]) (user_stats w) (S (next_id w))
             (db_time w) (js_time w) [] (log w ++ [InsertTestResult values])).
Proof.
  intros Hfaults. cbn zeta.
  unfold supabase.insert_test_result, supabase.issue,
    supabase.set_test_results, get, mbind, M_bind, mret, M_ret.
  by rewrite Hfaults.
Qed.

(** After a call of the pruning [saveTestResult] in which no call to
    Supabase fails, the user has the 20 newest of the rows they had and the
    new one, and the other users have the rows they had. *)
Lemma saveTestResult_prunes u st d endTime w :
  wf_world w →
  faults w = [] →
  let row := mkTestResult (next_id w) (db_time w)
               (new_test_result u st d (default (js_time w) endTime)) in
  ∃ w', saveTestResult (Some u) (Some st) d endTime w
          = (Returned (Some row), w') ∧
        supabase.rows_of (user_id u) (test_results w') ≡ₚ
          take 20 (supabase.newest_first
                     (supabase.rows_of (user_id u) (test_results w) ++ [row])) ∧
        (∀ other, other ≠ user_id u →
           supabase.rows_of other (test_results w')
             = supabase.rows_of other (test_results w)) ∧
        wf_world w'.
Proof.
  intros [Hdup Hbelow] Hfaults. cbn zeta.
  set (row := mkTestResult _ _ _).
  pose proof (insert_test_result_no_fault
                (new_test_result u st d (default (js_time w) endTime)) w
                Hfaults) as Hinsert.
  cbn zeta in Hinsert. fold row in Hinsert.
  set (w1 := mkWorld (test_results w ++ [row]) (user_stats w) (S (next_id w))
                     (db_time w) (js_time w) [] _) in Hinsert.
  assert (NoDup (r_id <$> test_results w1)) as Hdup1.
  { cbn [w1 test_results]. rewrite fmap_app. apply NoDup_app.
    split_and!; [done| |apply NoDup_singleton].
    intros i (r & -> & Hr)%list_elem_of_fmap Hi.
    apply list_elem_of_singleton in Hi.
    rewrite Forall_forall in Hbelow. specialize (Hbelow r Hr).
    cbn in Hi. lia. }
  destruct (updateUserStats_frame (Some u) (Some st) w1)
    as (w2 & Hupdate & Hrows2 & Hnext2 & Hfaults2).
  specialize (Hfaults2 eq_refl).
  destruct (cleanupOldTests_no_fault u w2 Hfaults2)
    as (w3 & Hclean & Hnext3 & Hrows3).
  exists w3. split.
  { unfold saveTestResult. erewrite run_bind by reflexivity.
    cbv beta iota zeta. unfold try_catch.
    erewrite run_bind by exact Hinsert. cbv beta iota zeta.
    erewrite run_bind by exact Hupdate.
    by erewrite run_bind by exact Hclean. }
  rewrite Hrows2 in Hrows3. cbn [w1 test_results] in Hrows3.
  assert (supabase.rows_of (user_id u) (test_results w ++ [row])
          = supabase.rows_of (user_id u) (test_results w) ++ [row]) as Hown.
  { unfold supabase.rows_of. rewrite filter_app.
    by rewrite (filter_cons_True _ row) by done. }
  rewrite Hown in Hrows3.
  pose proof (kept_newest (user_id u) (test_results w ++ [row]) Hdup1)
    as [Hmine Hothers].
  cbn zeta in Hmine, Hothers. rewrite Hown in Hmine, Hothers.
  assert (∀ other, other ≠ user_id u →
            supabase.rows_of other (test_results w ++ [row])
            = supabase.rows_of other (test_results w)) as Hother_new.
  { intros other Hother. unfold supabase.rows_of. rewrite filter_app.
    rewrite (filter_cons_False _ row) by (cbn; congruence).
    by rewrite filter_nil, app_nil_r. }
  rewrite Hrows3. case_decide as Hlen.
  - split_and!.
    + exact Hmine.
    + intros other Hother. rewrite Hothers by done. by apply Hother_new.
    + split.
      * rewrite Hrows3.
        eapply sublist_NoDup; [exact Hdup1|].
        apply fmap_sublist, sublist_filter.
      * rewrite Hrows3, Hnext3, Hnext2.
        cbn [w1 next_id]. apply Forall_forall. intros r Hr.
        apply list_elem_of_filter in Hr as [_ Hr].
        apply elem_of_app in Hr as [Hr|Hr%list_elem_of_singleton].
        -- rewrite Forall_forall in Hbelow. specialize (Hbelow r Hr). lia.
        -- subst r. cbn. lia.
  - split_and!.
    + rewrite Hown, take_ge by lia.
      symmetry. apply merge_sort_Permutation.
    + intros other Hother. by apply Hother_new.
    + split.
      * by rewrite Hrows3.
      * rewrite Hrows3, Hnext3, Hnext2.
        cbn [w1 next_id]. apply Forall_forall. intros r Hr.
        apply elem_of_app in Hr as [Hr|Hr%list_elem_of_singleton].
        -- rewrite Forall_forall in Hbelow. specialize (Hbelow r Hr). lia.
        -- subst r. cbn. lia.
Qed.

End Retention.

(** The hook of [src/app/hooks/useTestResults.ts] only ever adds a row. *)
Lemma app_hooks_never_prunes u st d endTime w :
  faults w = [] →
  let row := mkTestResult (next_id w) (db_time w)
               (new_test_result u st d (default (js_time w) endTime)) in
  ∃ w', AppHooks.saveTestResult (Some u) (Some st) d endTime w
          = (Returned (Some row), w') ∧
        test_results w' = test_results w ++ [row].
Proof.
  intros Hfaults. cbn zeta.
  pose proof (insert_test_result_no_fault
                (new_test_result u st d (default (js_time w) endTime)) w
                Hfaults) as Hinsert.
  cbn zeta in Hinsert.
  destruct (updateUserStats_frame (Some u) (Some st)
              (supabase.insert_test_result
                 (new_test_result u st d (default (js_time w) endTime)) w).2)
    as (w2 & Hupdate & Hrows2 & _).
  rewrite Hinsert in Hupdate, Hrows2. cbn [snd test_results] in Hupdate, Hrows2.
  exists w2. split; [|done].
  unfold AppHooks.saveTestResult. erewrite run_bind by reflexivity.
  cbv beta iota zeta. unfold try_catch.
  erewrite run_bind by exact Hinsert. cbv beta iota zeta.
  by erewrite run_bind by exact Hupdate.
Qed.

(** C6, on the code.  After 21 quizzes of one user, saved at the times 1 to
    21 without any fault, the hook that calls [cleanupOldTests] has left the
    20 rows of the times 2 to 21, whereas the hook of
    [src/app/hooks/useTestResults.ts] has left all 21 rows and has never
    issued a deletion. *)
Theorem app_hooks_keeps_21_rows :
  let pruned := after_quizzes saveTestResult 21 in
  let unpruned := after_quizzes AppHooks.saveTestResult 21 in
  r_created_at <$> test_results pruned = Z.of_nat <$> seq 2 20 ∧
  length (supabase.rows_of (user_id sample_user) (test_results pruned)) = 20 ∧
  r_created_at <$> test_results unpruned = Z.of_nat <$> seq 1 21 ∧
  length (supabase.rows_of (user_id sample_user) (test_results unpruned)) = 21 ∧
  existsb is_delete (log unpruned) = false ∧
  existsb is_delete (log pruned) = true.
Proof. by vm_compute. Qed.

(** * Further properties *)

(** ** The shuffle *)

Section ShuffleMore.
Context {T : Type}.
Implicit Types a b : list T.

Lemma shuffle_loop_calls i a g :
  (shuffle_loop i a g).2 = Rng (outcomes g) (calls g + i).
Proof.
  revert a g. induction i as [|i IH]; intros a g.
  - cbn. destruct g. f_equal. cbn. lia.
  - cbn [shuffle_loop]. unfold Math_random. rewrite IH. cbn. f_equal. lia.
Qed.

(** X1. [shuffleArray] calls [Math.random] once for every element but the
    first, and returns an array of at most one element as it is. *)
Theorem shuffleArray_draws a g :
  (shuffleArray a g).2 = Rng (outcomes g) (calls g + (length a - 1)) ∧
  (length a ≤ 1 → (shuffleArray a g).1 = a).
Proof.
  split; [apply shuffle_loop_calls|].
  intros Hlen. unfold shuffleArray.
  by replace (length a - 1) with 0 by lia.
Qed.

Lemma shuffle_loop_by i a g choice :
  (∀ i', 1 ≤ i' ≤ i → drawn g i i' = choice i') →
  (shuffle_loop i a g).1 = shuffle_by choice i a.
Proof.
  revert a g. induction i as [|i IH]; intros a g Hdraw; [done|].
  cbn [shuffle_loop shuffle_by]. unfold Math_random.
  pose proof (Hdraw (S i) ltac:(lia)) as Hj. unfold drawn in Hj.
  rewrite Nat.sub_diag, Nat.add_0_r in Hj. rewrite Hj.
  apply IH. intros i' Hi'. rewrite drawn_next by lia. apply Hdraw. lia.
Qed.

Lemma shuffle_by_ext choice choice' i a :
  (∀ i', 1 ≤ i' ≤ i → choice i' = choice' i') →
  shuffle_by choice i a = shuffle_by choice' i a.
Proof.
  revert a. induction i as [|i IH]; intros a Hext; [done|].
  cbn [shuffle_by]. rewrite (Hext (S i)) by lia.
  apply IH. intros i' Hi'. apply Hext. lia.
Qed.

Lemma shuffleArray_choice a choice :
  (∀ i, choice i ≤ i) →
  (shuffleArray a (choice_rng (length a) choice)).1
    = shuffle_by choice (length a - 1) a.
Proof.
  intros Hchoice. unfold shuffleArray. apply shuffle_loop_by.
  intros i' Hi'. unfold drawn, choice_rng; simpl.
  replace (length a - 1 - (length a - 1 - i')) with i' by lia.
  rewrite Nat.add_1_r. by apply floor_mul_pick.
Qed.

Lemma drop_exchange_above i j a b x :
  j ≤ i → i < length a → a !! j = Some x → b !! i = Some x →
  drop (S i) a = drop (S i) b →
  drop i (exchange i j a) = drop i b.
Proof.
  intros Hj Hi Haj Hbi Hdrop.
  rewrite (drop_S b x i Hbi).
  assert (exchange i j a !! i = Some x) as Hx.
  { rewrite lookup_exchange by lia. by rewrite decide_True. }
  rewrite (drop_S _ x i Hx). f_equal. rewrite <- Hdrop.
  apply list_eq. intros k. rewrite !lookup_drop.
  rewrite lookup_exchange by lia.
  by rewrite !decide_False by lia.
Qed.

Lemma shuffle_by_reaches i a b :
  length a = length b →
  i < length a ∨ i = 0 →
  a ≡ₚ b →
  drop (S i) a = drop (S i) b →
  ∃ choice, (∀ i', choice i' ≤ i') ∧ shuffle_by choice i a = b.
Proof.
  revert a. induction i as [|i IH]; intros a Hlen Hi Hperm Hdrop.
  - exists (λ i', i'). split; [done|]. cbn.
    destruct a as [|x a], b as [|y b]; try done.
    cbn in Hdrop. rewrite !drop_0 in Hdrop. subst b.
    by apply (inj (.:: a)) in Hperm as ->.
  - assert (S i < length a) as Hi' by lia.
    destruct (lookup_lt_is_Some_2 b (S i)) as [x Hx]; [lia|].
    assert (take (S (S i)) a ≡ₚ take (S (S i)) b) as Htake.
    { apply (inj (.++ drop (S (S i)) a)).
      rewrite take_drop, Hdrop, take_drop. exact Hperm. }
    assert (x ∈ take (S (S i)) a) as Hin.
    { rewrite Htake. apply elem_of_take. exists (S i). split; [done|lia]. }
    apply elem_of_take in Hin as (j & Hj & Hjlt).
    destruct (IH (exchange (S i) j a)) as (choice & Hchoice & Hreach).
    + by rewrite length_exchange.
    + rewrite length_exchange. lia.
    + rewrite exchange_Permutation; [done|lia|].
      by eapply lookup_lt_Some.
    + by apply (drop_exchange_above (S i) j a b x); [lia| | | |].
    + exists (λ i', if decide (i' = S i) then j else choice i').
      split.
      * intros i'. case_decide; [lia|apply Hchoice].
      * cbn [shuffle_by]. rewrite decide_True by done.
        rewrite <- Hreach. apply shuffle_by_ext.
        intros i' Hi''. by rewrite decide_False by lia.
Qed.

(** X2. Every ordering of the array is the result of [shuffleArray] under
    some outcomes of [Math.random]. *)
Theorem shuffleArray_reaches_every_order a b :
  a ≡ₚ b → ∃ g, (shuffleArray a g).1 = b.
Proof.
  intros Hperm.
  destruct (shuffle_by_reaches (length a - 1) a b) as (choice & Hle & Hreach).
  - by apply Permutation_length.
  - destruct a; cbn; lia.
  - done.
  - rewrite !drop_ge; [done|..].
    + rewrite <- (Permutation_length Hperm). lia.
    + lia.
  - exists (choice_rng (length a) choice).
    by rewrite shuffleArray_choice.
Qed.

End ShuffleMore.

Lemma shuffleArray_reaches_every_order_witness :
  ∃ g, (shuffleArray [1; 2; 3] g).1 = [3; 1; 2].
Proof.
  apply (shuffleArray_reaches_every_order [1; 2; 3] [3; 1; 2]).
  apply (bool_decide_unpack _). by vm_compute.
Defined.

(** ** The selection engine *)

(** The array that [selectRandomWords] shuffles is the pool, or the filtered
    words when the difficulty is not ["all"] and at least [count] words have
    it. *)
Lemma selectRandomWords_cases words count d g :
  ∃ eligible,
    selectRandomWords words count d g =
      (slice (shuffleArray eligible g).1 0 count, (shuffleArray eligible g).2) ∧
    (eligible = words ∨
     default "all"%string d ≠ "all"%string ∧
     eligible = filter (λ w, difficulty w = default "all"%string d) words ∧
     (count ≤ Z.of_nat (length eligible))%Z).
Proof.
  unfold selectRandomWords.
  set (filtered := if decide (default "all"%string d ≠ "all"%string)
                   then _ else _).
  destruct (decide (Z.of_nat (length filtered) < count)%Z).
  - exists words. destruct (shuffleArray words g). auto.
  - exists filtered. destruct (shuffleArray filtered g).
    split; [done|]. unfold filtered. case_decide.
    + right. split_and!; [done|done|]. fold filtered. lia.
    + by left.
Qed.

(** X3. For a count that is not negative, [selectRandomWords] returns
    [count] words when the pool has that many and the whole pool otherwise,
    whatever the difficulty: the length of the result is the smaller of
    [count] and the size of the pool. *)
Theorem selectRandomWords_length
    (P : list Word) (c : Z) (d : option string) (g : rng) :
  (0 ≤ c)%Z →
  length (selectRandomWords P c d g).1 = Nat.min (Z.to_nat c) (length P).
Proof.
  intros Hc.
  destruct (selectRandomWords_cases P c d g) as (E & -> & HE). cbn [fst].
  rewrite slice_prefix by done. rewrite length_take, shuffleArray_length.
  destruct HE as [->|(_ & HE & Hlen)]; [done|].
  pose proof (length_filter (λ w, difficulty w = default "all"%string d) P).
  rewrite <- HE in *. lia.
Qed.

Lemma selectRandomWords_length_witness :
  length (selectRandomWords sample_pool 9 (Some "hard"%string) sample_rng).1
    = Nat.min (Z.to_nat 9) (length sample_pool).
Proof.
  apply (selectRandomWords_length sample_pool 9 (Some "hard"%string)
           sample_rng).
  lia.
Defined.

(** X4. When the pool has fewer than [count] words, [selectRandomWords]
    returns all of them, in some order, whatever the difficulty. *)
Theorem selectRandomWords_short_pool
    (P : list Word) (c : Z) (d : option string) (g : rng) :
  (Z.of_nat (length P) < c)%Z →
  (selectRandomWords P c d g).1 ≡ₚ P.
Proof.
  intros Hshort.
  destruct (selectRandomWords_cases P c d g) as (E & -> & HE). cbn [fst].
  rewrite slice_prefix by lia.
  destruct HE as [->|(_ & HE & Hlen)].
  - rewrite take_ge by (rewrite shuffleArray_length; lia).
    apply shuffleArray_Permutation.
  - pose proof (length_filter (λ w, difficulty w = default "all"%string d) P).
    rewrite <- HE in *. lia.
Qed.

Lemma selectRandomWords_short_pool_witness :
  (selectRandomWords sample_pool 20 (Some "easy"%string) sample_rng).1
    ≡ₚ sample_pool.
Proof.
  apply (selectRandomWords_short_pool sample_pool 20 (Some "easy"%string)
           sample_rng).
  cbn. lia.
Defined.

(** X5. When at least [count] words of the pool have the requested
    difficulty, every selected word has it. *)
Theorem selectRandomWords_difficulty
    (P : list Word) (c : Z) (d : string) (g : rng) :
  d ≠ "all"%string →
  (c ≤ Z.of_nat (length (filter (λ w, difficulty w = d) P)))%Z →
  ∀ w, w ∈ (selectRandomWords P c (Some d) g).1 → difficulty w = d.
Proof.
  intros Hd Hmany w Hw. unfold selectRandomWords in Hw. cbn [default] in Hw.
  rewrite (decide_True _ _ Hd) in Hw.
  rewrite decide_False in Hw by (apply Z.le_ngt; exact Hmany).
  pose proof (shuffleArray_Permutation (filter (λ w, difficulty w = d) P) g)
    as Hperm.
  destruct (shuffleArray _ g) as [shuffled g']. cbn [fst] in *.
  assert (w ∈ filter (λ w, difficulty w = d) P) as Hin.
  { rewrite <- Hperm. eapply elem_of_sublist; [done|apply slice_sublist]. }
  by apply list_elem_of_filter in Hin as [? _].
Qed.

Lemma selectRandomWords_difficulty_witness :
  Forall (λ w, difficulty w = "easy"%string)
         (selectRandomWords sample_pool 2 (Some "easy"%string) sample_rng).1.
Proof.
  apply Forall_forall.
  apply (selectRandomWords_difficulty sample_pool 2 "easy" sample_rng).
  - by apply (bool_decide_unpack _).
  - vm_compute. discriminate.
Defined.

(** ** The distractor generator *)

Lemma generateWrongAnswers_eq correctWord allWords count g :
  (generateWrongAnswers correctWord allWords count g).1 =
    meaning <$> slice (shuffleArray (wrongWords correctWord allWords) g).1
                      0 (default 3%Z count).
Proof.
  unfold generateWrongAnswers. by destruct (shuffleArray _ g).
Qed.

(** X6. [createMultipleChoiceOptions] returns the correct meaning and one
    meaning for each of up to three candidates: one more option than the
    smaller of 3 and the number of pool words whose word differs from the
    correct one.  Every option is the correct meaning or the meaning of such
    a word. *)
Theorem createMultipleChoiceOptions_length
    (correctWord : Word) (allWords : list Word) (g : rng) :
  let options := (createMultipleChoiceOptions correctWord allWords g).1 in
  length options = S (Nat.min 3 (length (wrongWords correctWord allWords))) ∧
  ∀ o, o ∈ options →
    o = meaning correctWord ∨
    ∃ w, w ∈ allWords ∧ word w ≠ word correctWord ∧ o = meaning w.
Proof.
  cbn zeta.
  pose proof (createMultipleChoiceOptions_Permutation correctWord allWords g)
    as Hperm.
  split.
  - rewrite Hperm. cbn [length]. f_equal.
    rewrite generateWrongAnswers_eq, length_fmap, slice_prefix by done.
    by rewrite length_take, shuffleArray_length.
  - intros o Ho. rewrite Hperm in Ho.
    apply elem_of_cons in Ho as [->|Ho]; [by left|right].
    apply generateWrongAnswers_from_candidates in Ho as (w & -> & Hw).
    apply wrongWords_spec in Hw as [Hword Hin]. by exists w.
Qed.

(** X7. In a pool without duplicates no word serves twice as a distractor:
    the wrong answers are the meanings of distinct words of the pool, none
    of which has the correct word. *)
Theorem generateWrongAnswers_distinct_words
    (correctWord : Word) (allWords : list Word) (count : option Z) (g : rng) :
  NoDup allWords →
  ∃ chosen,
    (generateWrongAnswers correctWord allWords count g).1 = meaning <$> chosen ∧
    NoDup chosen ∧
    ∀ w, w ∈ chosen → w ∈ allWords ∧ word w ≠ word correctWord.
Proof.
  intros Hdup. rewrite generateWrongAnswers_eq.
  eexists. split; [reflexivity|].
  pose proof (shuffleArray_Permutation (wrongWords correctWord allWords) g)
    as Hperm.
  assert (NoDup (wrongWords correctWord allWords)) as Hwrong
    by by apply NoDup_filter.
  split.
  - apply (sublist_NoDup _ (shuffleArray (wrongWords correctWord allWords) g).1);
      [by rewrite Hperm|apply slice_sublist].
  - intros w Hw.
    assert (w ∈ wrongWords correctWord allWords) as Hin.
    { rewrite <- Hperm. eapply elem_of_sublist; [done|apply slice_sublist]. }
    apply wrongWords_spec in Hin. tauto.
Qed.

Lemma generateWrongAnswers_distinct_words_witness :
  ∃ chosen,
    (generateWrongAnswers word_abate sample_pool None sample_rng).1
      = meaning <$> chosen ∧
    NoDup chosen ∧
    ∀ w, w ∈ chosen → w ∈ sample_pool ∧ word w ≠ word word_abate.
Proof.
  apply (generateWrongAnswers_distinct_words word_abate sample_pool None
           sample_rng).
  apply (bool_decide_unpack _). by vm_compute.
Defined.

(** ** The session hook *)

Section SessionMore.
Import JSON.

Lemma recorded_spec (l : list Answer) (new : Answer) :
  NoDup (questionIndex <$> l) →
  NoDup (questionIndex <$> recorded l new) ∧
  ∀ x, x ∈ recorded l new ↔
       x = new ∨ (x ∈ l ∧ questionIndex x ≠ questionIndex new).
Proof.
  intros Hdup. unfold recorded, findIndex.
  destruct (list_find _ l) as [[i y]|] eqn:Hfind.
  - rewrite decide_True by lia. rewrite Nat2Z.id.
    apply list_find_Some in Hfind as (Hi & Hy & _).
    unfold Answer_questionIndex in Hy.
    assert ((questionIndex <$> l) !! i = Some (questionIndex new)) as Hqi.
    { by rewrite list_lookup_fmap, Hi, <- Hy. }
    split.
    + by rewrite list_fmap_insert, list_insert_id.
    + intros x. rewrite list_elem_of_lookup. split.
      * intros [j [(-> & -> & _)|[Hne Hj]]%list_lookup_insert_Some];
          [by left|right].
        split; [by eapply list_elem_of_lookup_2|].
        intros Hx. apply Hne.
        apply (NoDup_lookup _ i j (questionIndex new) Hdup Hqi).
        by rewrite list_lookup_fmap, Hj, <- Hx.
      * intros [->|[[j Hj]%list_elem_of_lookup Hx]].
        -- exists i. apply list_lookup_insert_eq. by eapply lookup_lt_Some.
        -- exists j. rewrite list_lookup_insert_ne; [done|].
           intros ->. congruence.
  - rewrite decide_False by lia.
    apply list_find_None in Hfind. rewrite Forall_forall in Hfind.
    unfold Answer_questionIndex in Hfind. split.
    + rewrite fmap_app. apply NoDup_app. split_and!; [done| |apply NoDup_singleton].
      intros q (x & -> & Hx)%list_elem_of_fmap Hq.
      apply list_elem_of_singleton in Hq. by apply (Hfind x).
    + intros x. rewrite elem_of_app, list_elem_of_singleton. split.
      * intros [Hx| ->]; [right|by left]. split; [done|by apply Hfind].
      * intros [->|[Hx _]]; [by right|by left].
Qed.

(** X8. [recordAnswer] keeps one answer per question: when the recorded
    answers are for distinct questions they remain so, and afterwards they
    are the new answer together with the former answers to the other
    questions. *)
Theorem recordAnswer_one_answer_per_question
    (h : hook) (st : TestState) (q : Z) (a : string) (c : bool) :
  Session.testState h = Some st →
  NoDup (questionIndex <$> answers st) →
  ∃ st', Session.testState (Session.recordAnswer q a c h) = Some st' ∧
         NoDup (questionIndex <$> answers st') ∧
         ∀ x, x ∈ answers st' ↔
              x = mkAnswer q a c ∨ (x ∈ answers st ∧ questionIndex x ≠ q).
Proof.
  intros Hst Hdup. exists (answered st q a c).
  split; [by apply testState_recordAnswer|].
  apply (recorded_spec (answers st) (mkAnswer q a c) Hdup).
Qed.

Lemma recordAnswer_one_answer_per_question_witness :
  ∃ st', Session.testState
           (Session.recordAnswer 0 "frank" false
              (Session.setTestState sample_state sample_hook)) = Some st' ∧
         NoDup (questionIndex <$> answers st') ∧
         ∀ x, x ∈ answers st' ↔
              x = mkAnswer 0 "frank" false ∨
              (x ∈ answers sample_state ∧ questionIndex x ≠ 0%Z).
Proof.
  apply (recordAnswer_one_answer_per_question
           (Session.setTestState sample_state sample_hook) sample_state
           0 "frank" false).
  - reflexivity.
  - apply (bool_decide_unpack _). by vm_compute.
Defined.

Lemma testState_nextQuestion h st :
  Session.testState h = Some st →
  Session.testState (Session.nextQuestion h) =
    Some (at_question st
            (Z.max (currentQuestionIndex st)
                   (Z.min (currentQuestionIndex st + 1) (last_index st)))).
Proof.
  intros Hst. unfold Session.nextQuestion, last_index. rewrite Hst.
  case_decide.
  - rewrite (testState_updateTestState _ _ st Hst). f_equal.
    unfold spread_updates, at_question; cbn. f_equal. lia.
  - rewrite Hst. f_equal. destruct st.
    unfold at_question; cbn in *. f_equal. lia.
Qed.

(** X9. However often [nextQuestion] is called, the session never passes
    its last question and never goes back: after [k] calls the current index
    has grown by [k], but not beyond the last index, and nothing else in the
    session has changed. *)
Theorem nextQuestion_iterated (h : hook) (st : TestState) (k : nat) :
  Session.testState h = Some st →
  Session.testState (Nat.iter k Session.nextQuestion h) =
    Some (at_question st
            (Z.max (currentQuestionIndex st)
                   (Z.min (currentQuestionIndex st + Z.of_nat k)
                          (last_index st)))).
Proof.
  intros Hst. induction k as [|k IH].
  - change (Nat.iter 0 Session.nextQuestion h) with h. rewrite Hst. f_equal.
    destruct st. unfold at_question; cbn. f_equal. lia.
  - rewrite Nat.iter_succ. rewrite (testState_nextQuestion _ _ IH).
    f_equal. unfold at_question, last_index; cbn. f_equal. lia.
Qed.

Lemma nextQuestion_iterated_witness :
  Session.testState (Nat.iter 7 Session.nextQuestion sample_session) =
    Some (at_question (mkTestState 0 0 sample_pool [] 1000)
            (Z.max 0 (Z.min (0 + Z.of_nat 7)
                            (last_index (mkTestState 0 0 sample_pool [] 1000))))).
Proof.
  apply (nextQuestion_iterated sample_session
           (mkTestState 0 0 sample_pool [] 1000) 7).
  reflexivity.
Defined.

Lemma setTestState_in_sync st h :
  accepting (win h) →
  in_sync (Session.setTestState st h) ∧
  accepting (win (Session.setTestState st h)).
Proof.
  unfold in_sync, Session.setTestState, Session.load, setValue, setItem.
  destruct (win h) as [|ls]; [done|]. intros Haccepting.
  cbn in Haccepting. rewrite Haccepting. cbn [win].
  split; [|done]. unfold mount, getItem. cbn [items].
  rewrite lookup_insert_eq.
  rewrite decide_False by apply stringify_nonempty.
  by rewrite JSONFacts.parse_stringify.
Qed.

Lemma clearTestState_in_sync h :
  accepting (win h) →
  in_sync (Session.clearTestState h) ∧
  accepting (win (Session.clearTestState h)).
Proof.
  unfold in_sync, Session.clearTestState, Session.load, removeValue.
  destruct (win h) as [|ls]; [done|]. intros Haccepting.
  cbn [win]. split; [|done]. unfold mount, getItem, removeItem. cbn [items].
  by rewrite lookup_delete_eq.
Qed.

Lemma perform_in_sync h c :
  accepting (win h) → in_sync h →
  in_sync (perform h c) ∧ accepting (win (perform h c)).
Proof.
  intros Haccepting Hsync.
  destruct c as [words now|updates|q a c| |]; cbn [perform].
  - by apply setTestState_in_sync.
  - unfold Session.updateTestState.
    destruct (Session.testState h); [by apply setTestState_in_sync|done].
  - unfold Session.recordAnswer, Session.updateTestState.
    destruct (Session.testState h); [by apply setTestState_in_sync|done].
  - unfold Session.nextQuestion, Session.updateTestState.
    destruct (Session.testState h); [|done].
    case_decide; [by apply setTestState_in_sync|done].
  - by apply clearTestState_in_sync.
Qed.

(** X10. In a browser whose store accepts every item, the store always
    holds what the hook holds: after any sequence of calls on the hook of a
    loaded page, loading the page again gives the hook as it is. *)
Theorem session_survives_reload (w : window) (calls : list session_call) :
  accepting w →
  let h := foldl perform (Session.load w) calls in
  Session.load (win h) = h.
Proof.
  intros Haccepting. cbn zeta.
  cut (in_sync (foldl perform (Session.load w) calls) ∧
       accepting (win (foldl perform (Session.load w) calls))); [by intros []|].
  induction calls as [|c calls IH] using rev_ind.
  - by split.
  - rewrite foldl_snoc. destruct IH. by apply perform_in_sync.
Qed.

Lemma session_survives_reload_witness :
  let h := foldl perform (Session.load sample_browser) sample_calls in
  Session.load (win h) = h.
Proof.
  apply (session_survives_reload sample_browser sample_calls).
  intros key value. reflexivity.
Defined.

(** X11. When the store refuses the item, [recordAnswer] still changes the
    session that the hook holds, but the store keeps the former one: loading
    the page again gives the hook as it was before the answer. *)
Theorem recordAnswer_refused
    (h : hook) (ls : localStorage) (st : TestState)
    (q : Z) (a : string) (c : bool) :
  win h = Window ls →
  in_sync h →
  Session.testState h = Some st →
  accepts ls Session.key (stringify (js_of_TestState (answered st q a c)))
    = false →
  Session.testState (Session.recordAnswer q a c h) = Some (answered st q a c) ∧
  Session.load (win (Session.recordAnswer q a c h)) = h.
Proof.
  intros Hwin Hsync Hst Hrefuses.
  split; [by apply testState_recordAnswer|].
  transitivity (Session.load (win h)); [|exact Hsync]. f_equal.
  unfold Session.recordAnswer, Session.updateTestState. rewrite Hst.
  unfold Session.setTestState, setValue, setItem. rewrite Hwin.
  change (spread_updates st _) with (answered st q a c).
  by rewrite Hrefuses.
Qed.

Lemma recordAnswer_refused_witness :
  Session.testState
    (Session.recordAnswer 1 "frank" false (Session.load stuck_browser))
    = Some (answered sample_state 1 "frank" false) ∧
  Session.load
    (win (Session.recordAnswer 1 "frank" false (Session.load stuck_browser)))
    = Session.load stuck_browser.
Proof.
  apply (recordAnswer_refused (Session.load stuck_browser)
           (mkLocalStorage
              {[Session.key := stringify (js_of_TestState sample_state)]}
              (λ _ _, false))
           sample_state 1 "frank" false).
  - reflexivity.
  - reflexivity.
  - by vm_compute.
  - reflexivity.
Defined.

(** X12. [resetTest] clears the session for good: the hook holds no session,
    the store has no item under the session key and keeps its other items,
    and the page loads without a session, whether or not the store accepts
    items. *)
Theorem resetTest_clears (h : hook) (ls : localStorage) :
  win h = Window ls →
  let h' := Session.resetTest h in
  Session.testState h' = None ∧
  win h' = Window (removeItem ls Session.key) ∧
  getItem (removeItem ls Session.key) Session.key = None ∧
  (∀ k, k ≠ Session.key →
        getItem (removeItem ls Session.key) k = getItem ls k) ∧
  Session.testState (Session.load (win h')) = None.
Proof.
  intros Hwin. cbn zeta.
  unfold Session.resetTest, Session.clearTestState, removeValue.
  rewrite Hwin. cbn [win storedValue].
  unfold Session.load, mount, getItem, removeItem. cbn [items].
  rewrite lookup_delete_eq. split_and!; try done.
  intros k Hk. by rewrite lookup_delete_ne.
Qed.

Lemma resetTest_clears_witness :
  let h' := Session.resetTest (Session.load stuck_browser) in
  Session.testState h' = None ∧
  win h' = Window (removeItem
                     (mkLocalStorage
                        {[Session.key :=
                            stringify (js_of_TestState sample_state)]}
                        (λ _ _, false)) Session.key) ∧
  getItem (removeItem
             (mkLocalStorage
                {[Session.key := stringify (js_of_TestState sample_state)]}
                (λ _ _, false)) Session.key) Session.key = None ∧
  (∀ k, k ≠ Session.key →
        getItem (removeItem
                   (mkLocalStorage
                      {[Session.key :=
                          stringify (js_of_TestState sample_state)]}
                      (λ _ _, false)) Session.key) k
        = getItem (mkLocalStorage
                     {[Session.key :=
                         stringify (js_of_TestState sample_state)]}
                     (λ _ _, false)) k) ∧
  Session.testState (Session.load (win h')) = None.
Proof.
  apply (resetTest_clears (Session.load stuck_browser)
           (mkLocalStorage
              {[Session.key := stringify (js_of_TestState sample_state)]}
              (λ _ _, false))).
  reflexivity.
Defined.

End SessionMore.

(** ** The quiz page *)

Section PageFacts.

Lemma recorded_new (l : list Answer) (new : Answer) :
  questionIndex new ∉ questionIndex <$> l →
  recorded l new = l ++ [new].
Proof.
  intros Hnew. unfold recorded, findIndex.
  destruct (list_find _ l) as [[i y]|] eqn:Hfind.
  - apply list_find_Some in Hfind as (Hi & Hy & _).
    destruct Hnew. unfold Answer_questionIndex in Hy. rewrite <- Hy.
    apply list_elem_of_fmap_2. by eapply list_elem_of_lookup_2.
  - by rewrite decide_False by lia.
Qed.

Lemma marked_correct_snoc l a :
  marked_correct (l ++ [a]) =
    marked_correct l + (if correct a then 1 else 0).
Proof.
  unfold marked_correct. rewrite filter_app, length_app. f_equal.
  destruct (correct a) eqn:Hc.
  - by rewrite filter_cons_True.
  - rewrite filter_cons_False; [done|]. by rewrite Hc.
Qed.

Lemma answered_in_order_fresh h words now :
  Session.testState h = Some (mkTestState 0 0 words [] now) →
  answered_in_order (fresh_page h).
Proof.
  intros Hst. eexists. split; [exact Hst|]. cbn.
  split_and!; [done| |done|done|done].
  destruct words; [by right|left; cbn; lia].
Qed.

Lemma answered_in_order_select answer p :
  answered_in_order p → answered_in_order (handleAnswerSelect answer p).
Proof.
  intros (st & Hst & Hcur & Hrange & Hindices & Hgraded & Hscore).
  unfold handleAnswerSelect.
  destruct (showAnswer p) eqn:Hshow.
  { exists st. by rewrite Hshow. }
  rewrite Hst.
  destruct (js_index (selectedWords st) (currentQuestionIndex st))
    as [w|] eqn:Hw.
  - rewrite Nat.add_0_r in Hindices.
    assert (recorded (answers st)
              (mkAnswer (currentQuestionIndex st) answer
                        (bool_decide (answer = meaning w)))
            = answers st ++ [mkAnswer (currentQuestionIndex st) answer
                               (bool_decide (answer = meaning w))]) as Hrec.
    { apply recorded_new. cbn [questionIndex]. rewrite Hindices.
      intros (i & Hi & Hin)%list_elem_of_fmap.
      apply elem_of_seq in Hin. lia. }
    exists (answered st (currentQuestionIndex st) answer
              (bool_decide (answer = meaning w))).
    cbn [session showAnswer].
    split; [by apply testState_recordAnswer|].
    unfold answered. cbn [currentQuestionIndex selectedWords answers score].
    rewrite Hrec.
    unfold js_index in Hw. rewrite decide_True in Hw by done.
    split_and!.
    + done.
    + left. by eapply lookup_lt_Some.
    + rewrite fmap_app, Hindices. cbn [fmap list_fmap questionIndex].
      rewrite Nat.add_1_r, seq_S, fmap_app. cbn. by rewrite Z2Nat.id.
    + apply Forall_app. split; [done|]. apply Forall_singleton.
      exists w. cbn [questionIndex selectedAnswer correct].
      unfold js_index. by rewrite decide_True.
    + rewrite marked_correct_snoc, Hscore, Nat2Z.inj_add.
      cbn [correct]. destruct (bool_decide _); lia.
  - by exists st.
Qed.

Lemma answered_in_order_next p :
  showAnswer p = true →
  answered_in_order p → answered_in_order (handleNextQuestion p).
Proof.
  intros Hshow (st & Hst & Hcur & Hrange & Hindices & Hgraded & Hscore).
  rewrite Hshow in Hindices, Hrange.
  destruct Hrange as [Hrange|(_ & _ & ?)]; [|done].
  unfold handleNextQuestion. rewrite Hst. case_bool_decide as Hlast.
  - exists st. cbn [session showAnswer]. rewrite Hshow.
    split_and!; try done. by left.
  - exists (at_question st (currentQuestionIndex st + 1)).
    cbn [session showAnswer]. split.
    + rewrite (testState_nextQuestion _ _ Hst). f_equal.
      unfold last_index. f_equal. lia.
    + unfold at_question.
      cbn [currentQuestionIndex selectedWords answers score].
      split_and!; try done.
      * lia.
      * left. lia.
      * rewrite Hindices. do 2 f_equal. lia.
Qed.

Lemma answered_in_order_click p c :
  answered_in_order p → answered_in_order (click_on p c).
Proof.
  intros Hp. destruct c as [o| |]; cbn [click_on].
  - by apply answered_in_order_select.
  - destruct (showAnswer p) eqn:Hshow; [|done].
    by apply answered_in_order_next.
  - destruct (showAnswer p) eqn:Hshow; [|done].
    destruct Hp as (st & Hp). exists st. cbn [session showAnswer].
    by rewrite Hshow in Hp.
Qed.

Lemma load_empty w :
  stored w Session.key = None → storedValue (Session.load w) = JSON.JNull.
Proof.
  intros Hnone. unfold Session.load, mount. cbn [storedValue].
  destruct w as [|ls]; [done|]. cbn [stored] in Hnone. by rewrite Hnone.
Qed.

Lemma load_stored_session w st :
  stored w Session.key = Some (JSON.stringify (js_of_TestState st)) →
  storedValue (Session.load w) = js_of_TestState st.
Proof.
  intros Hitem. unfold Session.load, mount. cbn [storedValue].
  destruct w as [|ls]; [done|]. cbn [stored] in Hitem. rewrite Hitem.
  rewrite decide_False by apply stringify_nonempty.
  by rewrite JSONFacts.parse_stringify.
Qed.

(** A hook that holds a session holds a value that counts as true. *)
Lemma testState_truthy h st :
  Session.testState h = Some st → truthy (Some (storedValue h)) = true.
Proof.
  unfold Session.testState, TestState_of_js, js_currentQuestionIndex.
  by destruct (storedValue h).
Qed.

Lemma quiz_started_in_order w allWords param now g clicks :
  stored w Session.key = None →
  answered_in_order
    (foldl click_on (open_quiz w (Some allWords) param now g).1 clicks).
Proof.
  intros Hnone. induction clicks as [|c clicks IH] using rev_ind.
  - unfold open_quiz. rewrite (load_empty w Hnone). cbn [truthy].
    destruct (selectRandomWords _ _ _ g) as [ws g']. cbn [fst foldl].
    eapply answered_in_order_fresh. apply testState_initializeTest.
  - rewrite foldl_snoc. by apply answered_in_order_click.
Qed.

Lemma started_length allWords d g :
  length (selectRandomWords allWords 20 (Some d) g).1
    = Nat.min 20 (length allWords).
Proof.
  destruct (selectRandomWords_cases allWords 20 (Some d) g)
    as (E & -> & HE).
  cbn [fst]. rewrite slice_prefix by done.
  rewrite length_take, shuffleArray_length.
  destruct HE as [->|(_ & HE & Hlen)]; [done|].
  assert (length E ≤ length allWords).
  { rewrite HE. apply length_filter. }
  lia.
Qed.

Lemma at_a_question_click p c :
  at_a_question p → at_a_question (click_on p c).
Proof.
  intros (st & Hst & Hcur). destruct c as [o| |]; cbn [click_on].
  - unfold handleAnswerSelect.
    destruct (showAnswer p); [by exists st|]. rewrite Hst.
    destruct (js_index _ _); [|by exists st].
    eexists. cbn [session].
    split; [by apply testState_recordAnswer|done].
  - destruct (showAnswer p); [|by exists st].
    unfold handleNextQuestion. rewrite Hst.
    case_bool_decide; [by exists st|].
    eexists. cbn [session].
    split; [by apply testState_nextQuestion|].
    unfold at_question, last_index.
    cbn [currentQuestionIndex selectedWords]. lia.
  - destruct (showAnswer p); by exists st.
Qed.

Lemma quiz_started_at_a_question w allWords param now g clicks :
  stored w Session.key = None →
  allWords ≠ [] →
  at_a_question
    (foldl click_on (open_quiz w (Some allWords) param now g).1 clicks).
Proof.
  intros Hnone Hwords. induction clicks as [|c clicks IH] using rev_ind.
  - unfold open_quiz. rewrite (load_empty w Hnone). cbn [truthy].
    pose proof (started_length allWords (difficulty_of param) g) as Hlen.
    destruct (selectRandomWords _ _ _ g) as [ws g']. cbn [fst foldl] in *.
    eexists. split; [apply testState_initializeTest|].
    cbn [currentQuestionIndex selectedWords].
    destruct allWords; [done|]. cbn [length] in Hlen. lia.
  - rewrite foldl_snoc. by apply at_a_question_click.
Qed.

Lemma marked_correct_le l : marked_correct l ≤ length l.
Proof. apply length_filter. Qed.

(** X13. A quiz that starts in a browser whose store has no item under the
    session key, over a catalog that is not empty, and is then clicked
    through in any way is answered in order: the current question is always
    one of the questions of the session, each question up to it has exactly
    one stored answer, marked as the words grade it, and the score is the
    number of answers marked correct, so it never exceeds the number of
    questions answered nor the number of questions. *)
Theorem quiz_answered_in_order
    (w : window) (allWords : list Word) (param : option string) (now : Z)
    (g : rng) (clicks : list click) :
  stored w Session.key = None →
  allWords ≠ [] →
  let p := foldl click_on (open_quiz w (Some allWords) param now g).1 clicks in
  answered_in_order p ∧
  at_a_question p ∧
  ∀ st, Session.testState (session p) = Some st →
    (0 ≤ score st ≤ Z.of_nat (length (answers st)))%Z ∧
    length (answers st) ≤ length (selectedWords st).
Proof.
  intros Hnone Hwords. cbn zeta.
  pose proof (quiz_started_in_order w allWords param now g clicks Hnone)
    as Hinv.
  pose proof (quiz_started_at_a_question w allWords param now g clicks
                Hnone Hwords) as Hat.
  split; [done|]. split; [done|].
  destruct Hinv as (st & Hst & Hcur & Hrange & Hindices & _ & Hscore).
  intros st' Hst'. rewrite Hst in Hst'. injection Hst' as <-.
  pose proof (marked_correct_le (answers st)).
  assert (length (answers st)
          = Z.to_nat (currentQuestionIndex st)
            + (if showAnswer (foldl click_on
                                (open_quiz w (Some allWords) param now g).1
                                clicks) then 1 else 0)) as Hlen.
  { rewrite <- (length_fmap questionIndex), Hindices, length_fmap.
    apply length_seq. }
  split; [lia|].
  rewrite Hlen.
  destruct Hrange as [Hrange|(-> & -> & ->)]; [|cbn; lia].
  destruct (showAnswer _); lia.
Qed.

Lemma quiz_answered_in_order_witness :
  let p := foldl click_on
             (open_quiz sample_browser (Some sample_pool) None 1000
                        sample_rng).1 sample_clicks in
  answered_in_order p ∧
  at_a_question p ∧
  ∀ st, Session.testState (session p) = Some st →
    (0 ≤ score st ≤ Z.of_nat (length (answers st)))%Z ∧
    length (answers st) ≤ length (selectedWords st).
Proof.
  apply (quiz_answered_in_order sample_browser sample_pool None 1000
           sample_rng sample_clicks).
  - reflexivity.
  - discriminate.
Defined.

Lemma recorded_again (l : list Answer) (new : Answer) (i n : nat) :
  questionIndex <$> l = Z.of_nat <$> seq 0 n →
  questionIndex new = Z.of_nat i →
  i < n →
  recorded l new = <[i := new]> l.
Proof.
  intros Hindices Hnew Hi.
  assert (∀ j y, l !! j = Some y → questionIndex y = Z.of_nat j) as Hat.
  { intros j y Hj.
    assert ((questionIndex <$> l) !! j = Some (questionIndex y)) as Hq
      by by rewrite list_lookup_fmap, Hj.
    rewrite Hindices, list_lookup_fmap in Hq.
    destruct (seq 0 n !! j) as [k|] eqn:Hk; [|done].
    apply lookup_seq in Hk as [-> _]. by injection Hq as <-. }
  unfold recorded, findIndex.
  destruct (list_find _ l) as [[j y]|] eqn:Hfind.
  - apply list_find_Some in Hfind as (Hj & Hy & _).
    unfold Answer_questionIndex in Hy. rewrite (Hat j y Hj), Hnew in Hy.
    rewrite decide_True by lia. rewrite Nat2Z.id. f_equal. lia.
  - apply list_find_None in Hfind. rewrite Forall_forall in Hfind.
    destruct (lookup_lt_is_Some_2 l i) as [y Hy].
    { rewrite <- (length_fmap questionIndex), Hindices, length_fmap,
        length_seq. lia. }
    destruct (Hfind y); [by eapply list_elem_of_lookup_2|].
    unfold Answer_questionIndex. by rewrite (Hat i y Hy).
Qed.

Lemma marked_correct_insert (l : list Answer) i x y :
  l !! i = Some y → correct x = correct y →
  marked_correct (<[i := x]> l) = marked_correct l.
Proof.
  intros Hy Hc. unfold marked_correct.
  rewrite insert_take_drop by (by eapply lookup_lt_Some).
  rewrite <- (take_drop_middle l i y Hy) at 3.
  rewrite !filter_app, !length_app. f_equal.
  destruct (correct y) eqn:Hy'.
  - rewrite !filter_cons_True by congruence. done.
  - rewrite !filter_cons_False by congruence. done.
Qed.

Lemma reloaded_resumes p words param now g st :
  in_sync (session p) →
  Session.testState (session p) = Some st →
  reloaded p words param now g = fresh_page (session p).
Proof.
  intros Hsync Hst. unfold reloaded, open_quiz.
  unfold in_sync in Hsync. rewrite Hsync.
  by rewrite (testState_truthy _ st Hst).
Qed.

(** X14. After the page has been loaded again while the answer to the
    current question was shown, it accepts another answer to that question.
    When the stored answer was marked correct and the right option is
    clicked again, the score is counted a second time: it is one more than
    the number of answers marked correct, for the same number of answers. *)
Theorem reload_counts_answer_again
    (p : quiz_page) (st : TestState) (currentWord : Word) (prev : Answer)
    (words : list Word) (param : option string) (now : Z) (g : rng) :
  answered_in_order p →
  showAnswer p = true →
  in_sync (session p) →
  Session.testState (session p) = Some st →
  js_index (selectedWords st) (currentQuestionIndex st) = Some currentWord →
  answers st !! Z.to_nat (currentQuestionIndex st) = Some prev →
  correct prev = true →
  let p' := handleAnswerSelect (meaning currentWord)
              (reloaded p words param now g) in
  ∃ st', Session.testState (session p') = Some st' ∧
         score st' = (Z.of_nat (marked_correct (answers st')) + 1)%Z ∧
         length (answers st') = length (answers st).
Proof.
  intros (st0 & Hst0 & Hcur & _ & Hindices & _ & Hscore)
         Hshow Hsync Hst Hword Hprev Hcorrect.
  rewrite Hst in Hst0. injection Hst0 as <-. rewrite Hshow in Hindices.
  cbn zeta. rewrite (reloaded_resumes _ _ _ _ _ st) by done.
  unfold handleAnswerSelect, fresh_page. cbn [showAnswer session].
  rewrite Hst, Hword. cbn [session].
  rewrite bool_decide_eq_true_2 by done.
  eexists. split; [by apply testState_recordAnswer|].
  unfold answered. cbn [score answers].
  rewrite (recorded_again (answers st) _ (Z.to_nat (currentQuestionIndex st))
             (Z.to_nat (currentQuestionIndex st) + 1) Hindices)
    by (cbn [questionIndex]; lia).
  rewrite (marked_correct_insert _ _ _ prev) by done.
  rewrite length_insert. split; [|done]. lia.
Qed.

Lemma reload_counts_answer_again_witness :
  let p := foldl click_on
             (open_quiz sample_browser (Some sample_pool) None 1000
                        sample_rng).1 [ClickOption "skilful"] in
  let p' := handleAnswerSelect (meaning word_deft)
              (reloaded p sample_pool None 2000 sample_rng) in
  ∃ st', Session.testState (session p') = Some st' ∧
         score st' = (Z.of_nat (marked_correct (answers st')) + 1)%Z ∧
         length (answers st') = length (answers first_answered).
Proof.
  apply (reload_counts_answer_again
           (foldl click_on
              (open_quiz sample_browser (Some sample_pool) None 1000
                         sample_rng).1 [ClickOption "skilful"])
           first_answered word_deft (mkAnswer 0 "skilful" true)
           sample_pool None 2000 sample_rng).
  - apply (quiz_started_in_order sample_browser sample_pool None 1000
             sample_rng [ClickOption "skilful"]). reflexivity.
  - reflexivity.
  - by vm_compute.
  - by vm_compute.
  - reflexivity.
  - reflexivity.
  - reflexivity.
Defined.

(** X15. When the quiz page opens with the catalog fetched in a browser
    whose store has no item under the session key, it starts a session at
    the first question with score 0 and no answers, over 20 words of the
    catalog, or over all of them when the catalog has fewer, none of them
    twice when the catalog has no duplicates.  When the store holds a
    session as the hook writes it, the page resumes that session: it leaves
    the hook as it was loaded and draws no random number, as it does when
    the catalog cannot be fetched. *)
Theorem open_quiz_starts_or_resumes
    (w : window) (fetched : option (list Word)) (param : option string)
    (now : Z) (g : rng) :
  match fetched with
  | Some allWords =>
      (stored w Session.key = None →
       ∃ ws, Session.testState
               (session (open_quiz w fetched param now g).1)
               = Some (mkTestState 0 0 ws [] now) ∧
             length ws = Nat.min 20 (length allWords) ∧
             (∀ x, x ∈ ws → x ∈ allWords) ∧
             (NoDup allWords → NoDup ws)) ∧
      (∀ st, stored w Session.key
               = Some (JSON.stringify (js_of_TestState st)) →
             Session.testState (Session.load w) = Some st ∧
             open_quiz w fetched param now g = (fresh_page (Session.load w), g))
  | None => open_quiz w fetched param now g = (fresh_page (Session.load w), g)
  end.
Proof.
  unfold open_quiz. destruct fetched as [allWords|]; [|done]. split.
  - intros Hnone. rewrite (load_empty w Hnone). cbn [truthy].
    destruct (selectRandomWords_cases allWords 20
                (Some (difficulty_of param)) g) as (E & Heq & HE).
    rewrite Heq. cbn [fst session fresh_page].
    eexists. split; [apply testState_initializeTest|].
    pose proof (shuffleArray_Permutation E g) as Hperm.
    rewrite slice_prefix by done.
    assert (E `sublist_of` allWords) as HsubE.
    { destruct HE as [->|(_ & -> & _)]; [done|apply sublist_filter]. }
    split_and!.
    + rewrite length_take, shuffleArray_length.
      destruct HE as [->|(_ & HE & Hlen)]; [done|].
      pose proof (sublist_length _ _ HsubE). lia.
    + intros x Hx. apply (elem_of_sublist E); [|done].
      rewrite <- Hperm. eapply elem_of_sublist; [done|apply sublist_take].
    + intros Hdup.
      apply (sublist_NoDup _ (shuffleArray E g).1); [|apply sublist_take].
      rewrite Hperm. by apply (sublist_NoDup E allWords).
  - intros st Hitem.
    assert (Session.testState (Session.load w) = Some st) as Hst.
    { unfold Session.testState. rewrite (load_stored_session w st Hitem).
      apply TestState_of_js_of. }
    split; [done|]. by rewrite (testState_truthy _ st Hst).
Qed.

End PageFacts.

Lemma open_quiz_starts_or_resumes_witness :
  ∃ ws, Session.testState
          (session (open_quiz sample_browser (Some sample_pool) None 1000
                      sample_rng).1)
          = Some (mkTestState 0 0 ws [] 1000) ∧
        length ws = Nat.min 20 (length sample_pool) ∧
        (∀ x, x ∈ ws → x ∈ sample_pool) ∧
        (NoDup sample_pool → NoDup ws).
Proof.
  apply (open_quiz_starts_or_resumes sample_browser (Some sample_pool) None
           1000 sample_rng).
  reflexivity.
Defined.

(** ** The results store, further *)

Section ResultsMore.
Implicit Types (u : User) (w : world).

Lemma not_older_total : Total supabase.not_older.
Proof. intros a b. unfold supabase.not_older. lia. Qed.

Lemma not_older_trans : Transitive supabase.not_older.
Proof. intros a b c. unfold supabase.not_older. lia. Qed.

(** The rows that a query limited to [n] rows returns are not older than the
    rows it leaves out. *)
Lemma newest_first_take n rows r r' :
  r ∈ take n (supabase.newest_first rows) →
  r' ∈ drop n (supabase.newest_first rows) →
  supabase.not_older r r'.
Proof.
  intros Hr Hr'.
  pose proof not_older_total. pose proof not_older_trans.
  pose proof (StronglySorted_merge_sort supabase.not_older rows) as Hsorted.
  fold (supabase.newest_first rows) in Hsorted.
  rewrite <- (take_drop n (supabase.newest_first rows)) in Hsorted.
  by eapply StronglySorted_app_1_elem_of.
Qed.

Lemma first_call_succeeds_nil w : faults w = [] → first_call_succeeds w = true.
Proof. unfold first_call_succeeds. by intros ->. Qed.

(** What [cleanupOldTests] does to the tables, whatever the faults. *)
Lemma cleanupOldTests_cases u w :
  let sorted :=
    supabase.newest_first (supabase.rows_of (user_id u) (test_results w)) in
  ∃ b w', cleanupOldTests (Some u) w = (Returned b, w') ∧
    user_stats w' = user_stats w ∧ next_id w' = next_id w ∧
    (faults w = [] → faults w' = []) ∧
    ((test_results w' = test_results w ∧ (b = true → length sorted ≤ 20)) ∨
     (test_results w' = kept (r_id <$> drop 20 sorted) (test_results w) ∧
      20 < length sorted)).
Proof.
  cbn zeta.
  unfold cleanupOldTests, try_catch, supabase.select_test_results,
    supabase.delete_test_results, supabase.issue, supabase.set_test_results,
    get, mbind, M_bind, mret, M_ret.
  destruct (faults w) as [|f1 fs] eqn:Hfaults; cbn [head tail default id];
    [|destruct f1]; cbn [test_results faults head tail default id].
  - rewrite length_fmap. case_decide as Hlen.
    + eexists _, _. split_and!; [reflexivity|done..|right]. split; [|done].
      cbn [test_results]. unfold kept.
      by rewrite <- fmap_drop, <- list_fmap_compose.
    + eexists _, _. split_and!; [reflexivity|done..|left; split; [done|lia]].
  - rewrite length_fmap. case_decide as Hlen.
    + destruct fs as [|f2 fs]; [|destruct f2];
        cbn [head tail default id faults test_results next_id].
      1,2: eexists _, _; split_and!; [reflexivity|done..|right];
           (split; [|done]); cbn [test_results]; unfold kept;
           by rewrite <- fmap_drop, <- list_fmap_compose.
      all: eexists _, _; split_and!; [reflexivity|done..|left; by split].
    + eexists _, _. split_and!; [reflexivity|done..|left; split; [done|lia]].
  - eexists _, _. split_and!; [reflexivity|done..|left; by split].
  - eexists _, _. split_and!; [reflexivity|done..|left; by split].
Qed.


Lemma insert_test_result_succeeds values w :
  first_call_succeeds w = true →
  let row := mkTestResult (next_id w) (db_time w) values in
  supabase.insert_test_result values w =
    (Returned (Some row),
     mkWorld (test_results w ++ [row]) (user_stats w) (S (next_id w))
             (db_time w) (js_time w) (tail (faults w))
             (log w ++ [InsertTestResult values])).
Proof.
  unfold first_call_succeeds. intros Hfirst. cbn zeta.
  unfold supabase.insert_test_result, supabase.issue,
    supabase.set_test_results, get, mbind, M_bind, mret, M_ret.
  by destruct (default NoFault (head (faults w))).
Qed.

Lemma saveTestResult_first_call_fails u st d endTime w :
  first_call_succeeds w = false →
  saveTestResult (Some u) (Some st) d endTime w
    = AppHooks.saveTestResult (Some u) (Some st) d endTime w ∧
  (AppHooks.saveTestResult (Some u) (Some st) d endTime w).1 = Returned None ∧
  same_tables w (AppHooks.saveTestResult (Some u) (Some st) d endTime w).2.
Proof.
  unfold first_call_succeeds. intros Hfirst.
  unfold saveTestResult, AppHooks.saveTestResult, try_catch,
    supabase.insert_test_result, supabase.issue, get, mbind, M_bind.
  by destruct (default NoFault (head (faults w))).
Qed.

(** The rounding of the elapsed time is to the nearest second. *)
Lemma round_div_1000_nearest (n : Z) :
  (1000 * round_div_1000 n - 500 ≤ n < 1000 * round_div_1000 n + 500)%Z.
Proof.
  unfold round_div_1000.
  pose proof (Z.div_mod (n + 500) 1000 ltac:(lia)).
  pose proof (Z.mod_pos_bound (n + 500) 1000 ltac:(lia)). lia.
Qed.

(** X16. When no call to Supabase fails, the pruning [saveTestResult] leaves
    the user with 20 rows, or with one more than before if that is fewer;
    every row left is one the user had or the new one, and is not older
    than any of those rows that was dropped; the rows of the other users
    are as they were. *)
Theorem saveTestResult_caps_history u st d endTime w :
  wf_world w →
  faults w = [] →
  let own := supabase.rows_of (user_id u) (test_results w) in
  let row := mkTestResult (next_id w) (db_time w)
               (new_test_result u st d (default (js_time w) endTime)) in
  let w' := (saveTestResult (Some u) (Some st) d endTime w).2 in
  let own' := supabase.rows_of (user_id u) (test_results w') in
  length own' = 20 `min` S (length own) ∧
  (∀ r, r ∈ own' → r ∈ own ++ [row]) ∧
  (∀ r r', r ∈ own' → r' ∈ own ++ [row] → r' ∉ own' →
           supabase.not_older r r') ∧
  (∀ other, other ≠ user_id u →
     supabase.rows_of other (test_results w')
       = supabase.rows_of other (test_results w)).
Proof.
  intros Hwf Hfaults. cbn zeta.
  destruct (saveTestResult_prunes u st d endTime w Hwf Hfaults)
    as (w' & -> & Hmine & Hothers & _).
  cbn [snd]. set (row := mkTestResult _ _ _) in *.
  set (own := supabase.rows_of (user_id u) (test_results w)) in *.
  set (sorted := supabase.newest_first (own ++ [row])) in *.
  assert (sorted ≡ₚ own ++ [row]) as Hsorted by apply merge_sort_Permutation.
  split_and!.
  - rewrite Hmine, length_take, Hsorted, length_app. cbn [length]. lia.
  - intros r Hr. rewrite Hmine in Hr. rewrite <- Hsorted.
    eapply elem_of_sublist; [done|apply sublist_take].
  - intros r r' Hr Hr' Hout. rewrite Hmine in Hr, Hout.
    rewrite <- Hsorted, <- (take_drop 20 sorted) in Hr'.
    apply elem_of_app in Hr' as [Hr'|Hr']; [done|].
    by eapply newest_first_take.
  - done.
Qed.

(** X17. [saveTestResult] never throws, in either version of the hook: it
    returns the inserted row, with the [id] and the time the database gave
    it, exactly when the insertion went without a fault, whatever becomes
    of the calls for the statistics and the cleanup after it, and [null]
    otherwise.  The time taken that it inserts is within half a second of
    the time elapsed since the start of the session. *)
Theorem saveTestResult_returns_inserted_row u st d endTime w :
  let values := new_test_result u st d (default (js_time w) endTime) in
  let row := mkTestResult (next_id w) (db_time w) values in
  let expected := if first_call_succeeds w then Some row else None in
  (saveTestResult (Some u) (Some st) d endTime w).1 = Returned expected ∧
  (AppHooks.saveTestResult (Some u) (Some st) d endTime w).1
    = Returned expected ∧
  (1000 * n_time_taken values - 500
     ≤ default (js_time w) endTime - startTime st
     < 1000 * n_time_taken values + 500)%Z.
Proof.
  cbn zeta. split; [|split; [|apply round_div_1000_nearest]].
  - destruct (first_call_succeeds w) eqn:Hfirst.
    + pose proof (insert_test_result_succeeds
                    (new_test_result u st d (default (js_time w) endTime)) w
                    Hfirst) as Hinsert.
      cbn zeta in Hinsert.
      set (w1 := mkWorld _ _ _ _ _ _ _) in Hinsert.
      destruct (updateUserStats_frame (Some u) (Some st) w1)
        as (w2 & Hupdate & _).
      destruct (cleanupOldTests_cases u w2) as (b & w3 & Hclean & _).
      unfold saveTestResult. erewrite run_bind by reflexivity.
      cbv beta iota zeta. unfold try_catch.
      erewrite run_bind by exact Hinsert. cbv beta iota zeta.
      erewrite run_bind by exact Hupdate.
      by erewrite run_bind by exact Hclean.
    + destruct (saveTestResult_first_call_fails u st d endTime w Hfirst)
        as (-> & -> & _). done.
  - destruct (first_call_succeeds w) eqn:Hfirst.
    + pose proof (insert_test_result_succeeds
                    (new_test_result u st d (default (js_time w) endTime)) w
                    Hfirst) as Hinsert.
      cbn zeta in Hinsert.
      set (w1 := mkWorld _ _ _ _ _ _ _) in Hinsert.
      destruct (updateUserStats_frame (Some u) (Some st) w1)
        as (w2 & Hupdate & _).
      unfold AppHooks.saveTestResult. erewrite run_bind by reflexivity.
      cbv beta iota zeta. unfold try_catch.
      erewrite run_bind by exact Hinsert. cbv beta iota zeta.
      by erewrite run_bind by exact Hupdate.
    + by destruct (saveTestResult_first_call_fails u st d endTime w Hfirst)
        as (_ & -> & _).
Qed.


(** X18. Whatever the faults, [cleanupOldTests] does not throw, leaves the
    statistics and the rows of the other users as they are, and never
    deletes one of the user's 20 newest rows; when it returns [true], the
    user is left with exactly those 20 (or all rows, if fewer). *)
Theorem cleanupOldTests_spares_the_newest u w :
  wf_world w →
  let own := supabase.rows_of (user_id u) (test_results w) in
  ∃ b w', cleanupOldTests (Some u) w = (Returned b, w') ∧
    user_stats w' = user_stats w ∧
    (∀ other, other ≠ user_id u →
       supabase.rows_of other (test_results w')
         = supabase.rows_of other (test_results w)) ∧
    (∀ r, r ∈ take 20 (supabase.newest_first own) → r ∈ test_results w') ∧
    (b = true →
     supabase.rows_of (user_id u) (test_results w')
       ≡ₚ take 20 (supabase.newest_first own)) ∧
    wf_world w'.
Proof.
  intros [Hdup Hbelow]. cbn zeta.
  destruct (cleanupOldTests_cases u w)
    as (b & w' & Hrun & Hstats & Hnext & _ & Hrows).
  cbn zeta in Hrows.
  set (own := supabase.rows_of (user_id u) (test_results w)) in *.
  set (sorted := supabase.newest_first own) in *.
  assert (sorted ≡ₚ own) as Hsorted by apply merge_sort_Permutation.
  exists b, w'. split; [done|]. split; [done|].
  destruct Hrows as [[Hsame Hfew]|[Hkept Hmany]].
  - rewrite Hsame. split_and!.
    + done.
    + intros r Hr.
      assert (r ∈ own) as Hown.
      { rewrite <- Hsorted. eapply elem_of_sublist; [done|apply sublist_take]. }
      by apply list_elem_of_filter in Hown as [_ Hown].
    + intros ->. fold own. rewrite take_ge by auto. by symmetry.
    + split; [by rewrite Hsame|by rewrite Hsame, Hnext].
  - destruct (kept_newest (user_id u) (test_results w) Hdup)
      as [Hmine Hothers].
    cbn zeta in Hmine, Hothers. fold own sorted in Hmine, Hothers.
    rewrite Hkept. split_and!.
    + done.
    + intros r Hr. rewrite <- Hmine in Hr.
      by apply list_elem_of_filter in Hr as [_ Hr].
    + done.
    + split.
      * rewrite Hkept. eapply sublist_NoDup; [exact Hdup|].
        apply fmap_sublist, sublist_filter.
      * rewrite Hkept, Hnext. apply Forall_forall. intros r Hr.
        apply list_elem_of_filter in Hr as [_ Hr].
        rewrite Forall_forall in Hbelow. by apply Hbelow.
Qed.

(** X19. Once [cleanupOldTests] has returned [true], running it again
    removes nothing, whether or not its calls then fail. *)
Theorem cleanupOldTests_done_once u w w1 (script : list fault) :
  wf_world w →
  cleanupOldTests (Some u) w = (Returned true, w1) →
  test_results (cleanupOldTests (Some u) (with_faults script w1)).2
    = test_results w1.
Proof.
  intros [Hdup _] Hrun.
  assert (length (supabase.rows_of (user_id u) (test_results w1)) ≤ 20)
    as Hfew.
  { destruct (cleanupOldTests_cases u w) as (b & w' & Hrun' & _ & _ & _ & Hrows).
    rewrite Hrun in Hrun'. simplify_eq. cbn zeta in Hrows.
    destruct Hrows as [[Hsame Hfew]|[Hkept _]].
    - rewrite Hsame. specialize (Hfew eq_refl).
      unfold supabase.newest_first in Hfew.
      by rewrite merge_sort_Permutation in Hfew.
    - destruct (kept_newest (user_id u) (test_results w) Hdup) as [Hmine _].
      cbn zeta in Hmine. rewrite Hkept, Hmine, length_take. lia. }
  destruct (cleanupOldTests_cases u (with_faults script w1))
    as (b & w2 & -> & _ & _ & _ & Hrows).
  cbn zeta in Hrows. cbn [snd with_faults test_results] in *.
  destruct Hrows as [[Hsame _]|[_ Hmany]]; [done|].
  unfold supabase.newest_first in Hmany.
  rewrite merge_sort_Permutation in Hmany. lia.
Qed.

(** The calls of [updateUserStats] are no deletions. *)
Lemma updateUserStats_log user testState w :
  ∃ calls, log (updateUserStats user testState w).2 = log w ++ calls ∧
           existsb is_delete calls = false.
Proof.
  unfold updateUserStats.
  destruct user as [u|], testState as [st|];
    try (exists []; by rewrite app_nil_r).
  unfold try_catch, supabase.select_user_stats, supabase.update_user_stats,
    supabase.insert_user_stats, supabase.issue, supabase.set_user_stats,
    get, mbind, M_bind, mret, M_ret.
  destruct (faults w) as [|f1 [|f2 fs]]; cbn [head tail default id faults];
    try destruct f1; try destruct f2;
    cbn [user_stats js_time db_time faults head tail default id];
    repeat case_match; simplify_eq; cbn [snd log];
    rewrite <- ?app_assoc; by eexists.
Qed.

(** X20. The [saveTestResult] of [src/app/hooks/useTestResults.ts] never
    removes a row, whatever the faults: the table afterwards is the table
    before, followed by the new row when the insertion went without a
    fault, and no deletion is among the calls it issued. *)
Theorem app_hooks_only_appends u st d endTime w :
  let row := mkTestResult (next_id w) (db_time w)
               (new_test_result u st d (default (js_time w) endTime)) in
  let w' := (AppHooks.saveTestResult (Some u) (Some st) d endTime w).2 in
  test_results w'
    = test_results w ++ (if first_call_succeeds w then [row] else []) ∧
  existsb is_delete (log w') = existsb is_delete (log w).
Proof.
  cbn zeta. destruct (first_call_succeeds w) eqn:Hfirst.
  - pose proof (insert_test_result_succeeds
                  (new_test_result u st d (default (js_time w) endTime)) w
                  Hfirst) as Hinsert.
    cbn zeta in Hinsert.
    set (w1 := mkWorld _ _ _ _ _ _ _) in Hinsert.
    destruct (updateUserStats_frame (Some u) (Some st) w1)
      as (w2 & Hupdate & Hrows & _).
    destruct (updateUserStats_log (Some u) (Some st) w1)
      as (calls & Hlog & Hcalls).
    rewrite Hupdate in Hlog. cbn [snd] in Hlog.
    assert (AppHooks.saveTestResult (Some u) (Some st) d endTime w
            = (Returned (Some (mkTestResult (next_id w) (db_time w)
                 (new_test_result u st d (default (js_time w) endTime)))), w2))
      as ->.
    { unfold AppHooks.saveTestResult. erewrite run_bind by reflexivity.
      cbv beta iota zeta. unfold try_catch.
      erewrite run_bind by exact Hinsert. cbv beta iota zeta.
      by erewrite run_bind by exact Hupdate. }
    cbn [snd]. rewrite Hrows, Hlog. split; [done|].
    cbn [w1 log]. rewrite !existsb_app, Hcalls. cbn.
    by rewrite !orb_false_r.
  - destruct (saveTestResult_first_call_fails u st d endTime w Hfirst)
      as (_ & _ & Hrows & _ & _).
    rewrite Hrows, app_nil_r. split; [done|].
    revert Hfirst. unfold first_call_succeeds.
    unfold AppHooks.saveTestResult, try_catch,
      supabase.insert_test_result, supabase.issue, get, mbind, M_bind,
      mret, M_ret.
    destruct (default NoFault (head (faults w))); [done|..]; intros _;
      cbn [snd log]; rewrite existsb_app; cbn; by rewrite orb_false_r.
Qed.

(** X21. When the read of the statistics resolves to an error, the row
    read is [null], and [updateUserStats] takes the user for one without
    statistics: it issues the insertion of first statistics.  For a user
    who has a row, that leaves the statistics as they were: the session is
    not counted. *)
Theorem updateUserStats_failed_read u st w rest row :
  faults w = ReturnsError :: rest →
  user_stats w !! user_id u = Some row →
  let w' := (updateUserStats (Some u) (Some st) w).2 in
  user_stats w' = user_stats w ∧
  log w' = log w ++
    [SelectUserStats (user_id u);
     InsertUserStats (user_id u)
       (created_stats (Z.of_nat (length (selectedWords st))) (score st))].
Proof.
  intros Hfaults Hrow. cbn zeta.
  unfold updateUserStats, try_catch, supabase.select_user_stats,
    supabase.insert_user_stats, supabase.issue, supabase.set_user_stats,
    get, mbind, M_bind, mret, M_ret.
  rewrite Hfaults. cbn [head tail default id faults user_stats log].
  destruct rest as [|f2 rest]; [|destruct f2];
    cbn [head tail default id user_stats]; rewrite ?Hrow; cbn [snd];
    by rewrite <- app_assoc.
Qed.


(** *** Statistics over many saves *)










(** X23. [getUserTestHistory] never throws and changes no table.  When its
    query goes without a fault it returns [limit] rows (10 by default), or
    all rows of the user if those are fewer; they are rows of the user,
    newest first, and none is older than a row of the user that is left
    out.  Otherwise it returns the empty list. *)
Theorem getUserTestHistory_newest u (limit : option nat) w :
  let own := supabase.rows_of (user_id u) (test_results w) in
  ∃ rows w', getUserTestHistory (Some u) limit w = (Returned rows, w') ∧
    same_tables w w' ∧
    if first_call_succeeds w then
      length rows = default 10 limit `min` length own ∧
      rows ⊆+ own ∧
      StronglySorted supabase.not_older rows ∧
      (∀ r r', r ∈ rows → r' ∈ own → r' ∉ rows → supabase.not_older r r')
    else rows = [].
Proof.
  cbn zeta.
  set (own := supabase.rows_of (user_id u) (test_results w)).
  set (sorted := supabase.newest_first own).
  assert (sorted ≡ₚ own) as Hsorted by apply merge_sort_Permutation.
  unfold getUserTestHistory, try_catch, supabase_more.select_history,
    supabase_more.attempt, first_call_succeeds, get, mbind, M_bind, mret, M_ret.
  destruct (default NoFault (head (faults w)));
    cbn [test_results]; (eexists _, _; split; [reflexivity|]);
    (split; [done|]); [|done..].
  fold own sorted. split_and!.
  - by rewrite length_take, Hsorted.
  - rewrite <- Hsorted. apply sublist_submseteq, sublist_take.
  - pose proof not_older_total. pose proof not_older_trans.
    pose proof (StronglySorted_merge_sort supabase.not_older own) as Hstrong.
    fold (supabase.newest_first own) in Hstrong. fold sorted in Hstrong.
    rewrite <- (take_drop (default 10 limit) sorted) in Hstrong.
    by apply StronglySorted_app_1_l in Hstrong.
  - intros r r' Hr Hr' Hout.
    rewrite <- Hsorted, <- (take_drop (default 10 limit) sorted) in Hr'.
    apply elem_of_app in Hr' as [Hr'|Hr']; [done|].
    by eapply newest_first_take.
Qed.


(** *** Deleting the history *)

Lemma rows_of_others_deleted user other (rows : list TestResult) :
  other ≠ user →
  supabase.rows_of other (filter (λ r, r_user_id r ≠ user) rows)
    = supabase.rows_of other rows.
Proof.
  intros Hother. unfold supabase.rows_of.
  apply filter_filter_implied. intros r _ Hr. congruence.
Qed.

Lemma rows_of_deleted user (rows : list TestResult) :
  supabase.rows_of user (filter (λ r, r_user_id r ≠ user) rows) = [].
Proof.
  unfold supabase.rows_of. apply filter_none.
  by intros r [Hr _]%list_elem_of_filter.
Qed.

(** X24. When no call fails, [deleteAllTestHistory] returns [true], the
    user has no rows left, the statistics of the user are all zero, and the
    rows and the statistics of the other users are as they were. *)
Theorem deleteAllTestHistory_resets u w :
  faults w = [] →
  ∃ w', deleteAllTestHistory (Some u) w = (Returned true, w') ∧
    supabase.rows_of (user_id u) (test_results w') = [] ∧
    (∀ other, other ≠ user_id u →
       supabase.rows_of other (test_results w')
         = supabase.rows_of other (test_results w)) ∧
    s_values <$> user_stats w' !! user_id u = Some reset_stats ∧
    (∀ other, other ≠ user_id u →
       user_stats w' !! other = user_stats w !! other).
Proof.
  intros Hfaults.
  unfold deleteAllTestHistory, try_catch,
    supabase_more.delete_user_test_results, supabase_more.attempt,
    supabase.select_user_stats, supabase_more.update_user_stats_checked,
    supabase_more.insert_user_stats_stamped, supabase.issue,
    supabase.set_test_results, supabase.set_user_stats,
    get, mbind, M_bind, mret, M_ret.
  rewrite Hfaults.
  cbn [head tail default id negb faults test_results user_stats next_id].
  destruct (user_stats w !! user_id u) as [row|] eqn:Hrow;
    cbn [head tail default id negb faults test_results user_stats js_time];
    rewrite ?Hrow; cbn [negb];
    (eexists; split; [reflexivity|]); cbn [test_results user_stats].
  - split_and!.
    + apply rows_of_deleted.
    + intros other Hother. by apply rows_of_others_deleted.
    + by rewrite lookup_alter_eq, Hrow.
    + intros other Hother. by rewrite lookup_alter_ne.
  - split_and!.
    + apply rows_of_deleted.
    + intros other Hother. by apply rows_of_others_deleted.
    + by rewrite lookup_insert_eq.
    + intros other Hother. by rewrite lookup_insert_ne.
Qed.

(** X25. [deleteAllTestHistory] is not atomic: when the deletion and the
    read of the statistics go without a fault and the update of the
    statistics of a user who has some fails, it returns [false], but the
    rows of the user are gone and the statistics still count them. *)
Theorem deleteAllTestHistory_not_atomic u w (f : fault) (rest : list fault)
    (row : UserStats) :
  faults w = NoFault :: NoFault :: f :: rest →
  f ≠ NoFault →
  user_stats w !! user_id u = Some row →
  let result := deleteAllTestHistory (Some u) w in
  result.1 = Returned false ∧
  supabase.rows_of (user_id u) (test_results result.2) = [] ∧
  user_stats result.2 = user_stats w.
Proof.
  intros Hfaults Hf Hrow. cbn zeta.
  unfold deleteAllTestHistory, try_catch,
    supabase_more.delete_user_test_results, supabase_more.attempt,
    supabase.select_user_stats, supabase_more.update_user_stats_checked,
    supabase.issue, supabase.set_test_results, supabase.set_user_stats,
    get, mbind, M_bind, mret, M_ret.
  rewrite Hfaults.
  cbn [head tail default id negb faults test_results user_stats next_id].
  rewrite Hrow.
  cbn [head tail default id negb faults test_results user_stats js_time].
  destruct f; [done|..]; cbn [fst snd test_results user_stats negb];
    (split_and!; [done|apply rows_of_deleted|done]).
Qed.

End ResultsMore.

Lemma saveTestResult_caps_history_witness :
  let own := supabase.rows_of (user_id sample_user) (test_results shared_world) in
  let row := mkTestResult (next_id shared_world) (db_time shared_world)
               (new_test_result sample_user finished_session "all"
                  (default (js_time shared_world) None)) in
  let w' := (saveTestResult (Some sample_user) (Some finished_session) "all"
               None shared_world).2 in
  let own' := supabase.rows_of (user_id sample_user) (test_results w') in
  length own' = 20 `min` S (length own) ∧
  (∀ r, r ∈ own' → r ∈ own ++ [row]) ∧
  (∀ r r', r ∈ own' → r' ∈ own ++ [row] → r' ∉ own' →
           supabase.not_older r r') ∧
  (∀ other, other ≠ user_id sample_user →
     supabase.rows_of other (test_results w')
       = supabase.rows_of other (test_results shared_world)).
Proof.
  apply (saveTestResult_caps_history sample_user finished_session "all" None
           shared_world).
  - split; apply (bool_decide_unpack _); by vm_compute.
  - vm_compute. reflexivity.
Defined.

Lemma cleanupOldTests_spares_the_newest_witness :
  let u := sample_user in
  let w := with_faults [NoFault; ReturnsError] shared_world in
  let own := supabase.rows_of (user_id u) (test_results w) in
  ∃ b w', cleanupOldTests (Some u) w = (Returned b, w') ∧
    user_stats w' = user_stats w ∧
    (∀ other, other ≠ user_id u →
       supabase.rows_of other (test_results w')
         = supabase.rows_of other (test_results w)) ∧
    (∀ r, r ∈ take 20 (supabase.newest_first own) → r ∈ test_results w') ∧
    (b = true →
     supabase.rows_of (user_id u) (test_results w')
       ≡ₚ take 20 (supabase.newest_first own)) ∧
    wf_world w'.
Proof.
  apply (cleanupOldTests_spares_the_newest sample_user
           (with_faults [NoFault; ReturnsError] shared_world)).
  split; apply (bool_decide_unpack _); by vm_compute.
Defined.

Lemma cleanupOldTests_done_once_witness :
  let w1 := (cleanupOldTests (Some sample_user) shared_world).2 in
  test_results (cleanupOldTests (Some sample_user) (with_faults [Rejects] w1)).2
    = test_results w1.
Proof.
  apply (cleanupOldTests_done_once sample_user shared_world
           (cleanupOldTests (Some sample_user) shared_world).2 [Rejects]).
  - split; apply (bool_decide_unpack _); by vm_compute.
  - vm_compute. reflexivity.
Defined.

Lemma updateUserStats_failed_read_witness :
  let u := sample_user in
  let w := with_faults [ReturnsError] shared_world in
  let w' := (updateUserStats (Some u) (Some finished_session) w).2 in
  user_stats w' = user_stats w ∧
  log w' = log w ++
    [SelectUserStats (user_id u);
     InsertUserStats (user_id u)
       (created_stats (Z.of_nat (length (selectedWords finished_session)))
                      (score finished_session))].
Proof.
  apply (updateUserStats_failed_read sample_user finished_session
           (with_faults [ReturnsError] shared_world) [] sample_stats_row).
  - reflexivity.
  - vm_compute. reflexivity.
Defined.


Lemma deleteAllTestHistory_resets_witness :
  let u := sample_user in
  let w := shared_world in
  ∃ w', deleteAllTestHistory (Some u) w = (Returned true, w') ∧
    supabase.rows_of (user_id u) (test_results w') = [] ∧
    (∀ other, other ≠ user_id u →
       supabase.rows_of other (test_results w')
         = supabase.rows_of other (test_results w)) ∧
    s_values <$> user_stats w' !! user_id u = Some reset_stats ∧
    (∀ other, other ≠ user_id u →
       user_stats w' !! other = user_stats w !! other).
Proof.
  apply (deleteAllTestHistory_resets sample_user shared_world).
  vm_compute. reflexivity.
Defined.

Lemma deleteAllTestHistory_not_atomic_witness :
  let u := sample_user in
  let w := with_faults [NoFault; NoFault; ReturnsError] shared_world in
  let result := deleteAllTestHistory (Some u) w in
  result.1 = Returned false ∧
  supabase.rows_of (user_id u) (test_results result.2) = [] ∧
  user_stats result.2 = user_stats w.
Proof.
  apply (deleteAllTestHistory_not_atomic sample_user
           (with_faults [NoFault; NoFault; ReturnsError] shared_world)
           ReturnsError [] sample_stats_row).
  - reflexivity.
  - discriminate.
  - vm_compute. reflexivity.
Defined.

(** ** The cache of the sign-in *)

Section CacheFacts.
Import JSON.
Context (ToNumber : json → jsnum).
Implicit Types (w : window) (key : string).

Lemma member_expiry (d t e : json) :
  member "expiry" (JObj [("data"%string, d); ("timestamp"%string, t);
                         ("expiry"%string, e)]) = Some e.
Proof. done. Qed.

Lemma member_data (d t e : json) :
  member "data" (JObj [("data"%string, d); ("timestamp"%string, t);
                       ("expiry"%string, e)]) = Some d.
Proof. done. Qed.

Lemma stored_remove key k w :
  stored (AuthCache.remove key w).2 k
    = if decide (k = key) then None else stored w k.
Proof.
  destruct w as [|ls]; cbn; [by case_decide|].
  unfold getItem. cbn. case_decide as Hk.
  - subst. by rewrite lookup_delete_eq.
  - by rewrite lookup_delete_ne.
Qed.

(** Reading an item that [set] has written. *)
Lemma get_cache_item key data expiry written now w :
  stored w key = Some (stringify (cache_item data expiry written)) →
  AuthCache.get ToNumber key now w =
    if lapsed expiry written now
    then (Some JNull, (AuthCache.remove key w).2)
    else (Some data, w).
Proof.
  destruct w as [|ls]; [done|]. cbn [stored]. intros Hstored.
  unfold AuthCache.get. rewrite Hstored.
  rewrite decide_False by apply stringify_nonempty.
  rewrite JSONFacts.parse_stringify. unfold cache_item.
  rewrite member_expiry, member_data. unfold lapsed.
  destruct expiry as [e|]; [|done].
  case_decide as He; cbn [truthy AuthCache.now_greater].
  - destruct (Z.eqb_spec (written + e) 0) as [Hzero|Hzero]; cbn [negb andb].
    + rewrite bool_decide_eq_false_2; [done|]. tauto.
    + destruct (decide (written + e < now)%Z) as [Hlate|Hlate].
      * rewrite (bool_decide_eq_true_2 (written + e < now)%Z) by done.
        by rewrite bool_decide_eq_true_2.
      * rewrite (bool_decide_eq_false_2 (written + e < now)%Z) by done.
        rewrite bool_decide_eq_false_2; [done|]. tauto.
  - cbn. rewrite bool_decide_eq_false_2; [done|]. tauto.
Qed.

Lemma stored_set key data expiry now ls :
  accepts ls key (stringify (cache_item data expiry now)) = true →
  AuthCache.set key data expiry now (Window ls) =
    (true, Window (mkLocalStorage
                     (<[key := stringify (cache_item data expiry now)]>
                        (items ls))
                     (accepts ls))).
Proof.
  intros Haccepts. unfold AuthCache.set, setItem.
  fold (cache_item data expiry now). by rewrite Haccepts.
Qed.

(** X26. When [set] has stored an item, [get] of its key returns the data
    as they were given, until the item lapses: from the first time later
    than the time of writing plus the [expiry], [get] returns [null] and
    removes the item.  An item written without [expiry], with an [expiry]
    of zero, or with a time of lapse that is zero, never lapses. *)
Theorem cache_round_trip key data (expiry : option Z) (written now : Z)
    (ls : localStorage) :
  (AuthCache.set key data expiry written (Window ls)).1 = true →
  let w := (AuthCache.set key data expiry written (Window ls)).2 in
  let read := AuthCache.get ToNumber key now w in
  read.1 = Some (if lapsed expiry written now then JNull else data) ∧
  stored read.2 key = (if lapsed expiry written now then None else stored w key).
Proof.
  intros Hset. cbn zeta.
  assert (accepts ls key (stringify (cache_item data expiry written)) = true)
    as Haccepts.
  { revert Hset. unfold AuthCache.set, setItem.
    fold (cache_item data expiry written).
    by destruct (accepts ls key _). }
  rewrite stored_set by done. cbn [snd].
  erewrite get_cache_item;
    [|cbn; unfold getItem; cbn; by rewrite lookup_insert_eq].
  destruct (lapsed expiry written now); cbn [fst snd]; [|done].
  split; [done|]. rewrite stored_remove. by rewrite decide_True.
Qed.


Lemma stored_clear k w :
  stored (AuthCache.clear w).2 k
    = if decide (k ∈ CACHE_KEYS.values) then None else stored w k.
Proof.
  destruct w as [|ls]; [by case_decide|].
  unfold AuthCache.clear. cbn [snd].
  generalize (Window ls). induction CACHE_KEYS.values as [|key keys IH];
    intros w; cbn [foldl].
  - rewrite decide_False; [done|]. by intros ?%elem_of_nil.
  - rewrite IH, stored_remove.
    destruct (decide (k = key)) as [->|Hk].
    + rewrite (decide_True (P := key ∈ key :: keys)) by left.
      by case_decide.
    + destruct (decide (k ∈ keys)) as [Hin|Hout].
      * by rewrite decide_True by (by right).
      * rewrite decide_False; [done|].
        by intros [?|?]%elem_of_cons.
Qed.

Lemma clear_window ls :
  ∃ ls', (AuthCache.clear (Window ls)).2 = Window ls'.
Proof.
  unfold AuthCache.clear. cbn [snd]. revert ls.
  induction CACHE_KEYS.values as [|key keys IH]; intros ls; cbn [foldl].
  - by exists ls.
  - apply IH.
Qed.

Lemma session_key_no_cache_key : Session.key ∉ CACHE_KEYS.values.
Proof.
  intros Hin. repeat (apply elem_of_cons in Hin as [Hin|Hin]; [done|]).
  by apply elem_of_nil in Hin.
Qed.

(** X27. [clear] removes the items of the six cache keys and leaves every
    other item of the store as it is; the session of a quiz in progress is
    read from the store afterwards as before. *)
Theorem clear_spares_the_quiz w :
  let w' := (AuthCache.clear w).2 in
  (∀ k, k ∈ CACHE_KEYS.values → stored w' k = None) ∧
  (∀ k, k ∉ CACHE_KEYS.values → stored w' k = stored w k) ∧
  storedValue (Session.load w') = storedValue (Session.load w).
Proof.
  cbn zeta. split_and!.
  - intros k Hk. by rewrite stored_clear, decide_True.
  - intros k Hk. by rewrite stored_clear, decide_False.
  - pose proof (stored_clear Session.key w) as Hkey.
    rewrite decide_False in Hkey by apply session_key_no_cache_key.
    destruct w as [|ls]; [done|].
    destruct (clear_window ls) as [ls' Hclear]. rewrite Hclear in Hkey |- *.
    unfold Session.load, mount. cbn [storedValue].
    cbn [stored] in Hkey. by rewrite Hkey.
Qed.

(** X28. [isExpired] and [get] agree: when [isExpired] says [true] for a
    key, [get] returns [null] for it; when it says [false], there is an
    item and [get] leaves the store as it is. *)
Theorem isExpired_agrees_with_get key (now : Z) w :
  let read := AuthCache.get ToNumber key now w in
  (AuthCache.isExpired ToNumber key now w = true → read.1 = Some JNull) ∧
  (AuthCache.isExpired ToNumber key now w = false →
   read.2 = w ∧ is_Some (stored w key)).
Proof.
  cbn zeta. unfold AuthCache.isExpired, AuthCache.get.
  destruct w as [|ls]; [done|]. cbn [stored].
  destruct (getItem ls key) as [cached|]; [|done].
  case_decide; [done|].
  destruct (parse cached) as [item|]; [|done].
  destruct item; try done;
    destruct (truthy _); cbn [andb];
    try destruct (AuthCache.now_greater _ _ _); done.
Qed.

(** The window after [setUserSession] on a store that accepts every
    item. *)
Lemma setUserSession_stored session (rememberMe : option bool) (now : Z) w :
  accepting w →
  let remember := default false rememberMe in
  let expiry := if remember then Some (30 * 24 * 60 * 60 * 1000)%Z else None in
  let w' := AuthCache.setUserSession session rememberMe now w in
  accepting w' ∧
  stored w' CACHE_KEYS.LAST_SESSION
    = Some (stringify (cache_item session expiry now)) ∧
  stored w' CACHE_KEYS.AUTH_REMEMBER
    = Some (stringify (cache_item (JBool remember) None now)).
Proof.
  destruct w as [|ls]; [done|]. intros Haccepts. cbn zeta.
  unfold AuthCache.setUserSession.
  rewrite stored_set by apply Haccepts. cbn [snd].
  rewrite stored_set by apply Haccepts. cbn [snd stored].
  unfold getItem. cbn [items]. split_and!.
  - done.
  - rewrite lookup_insert_ne by done. by rewrite lookup_insert_eq.
  - by rewrite lookup_insert_eq.
Qed.

(** X29. After [setUserSession] in a browser whose store accepts every
    item, [isRemembered] gives the [rememberMe] that was passed, [false]
    when none was, and [getUserSession] returns the session; a remembered
    session lapses after 30 days, a session that is not remembered never
    does. *)
Theorem setUserSession_remembers session (rememberMe : option bool)
    (written now : Z) w :
  accepting w →
  let remember := default false rememberMe in
  let expiry := if remember then Some (30 * 24 * 60 * 60 * 1000)%Z else None in
  let w' := AuthCache.setUserSession session rememberMe written w in
  (AuthCache.isRemembered ToNumber now w').1 = remember ∧
  (AuthCache.getUserSession ToNumber now w').1
    = Some (if lapsed expiry written now then JNull else session).
Proof.
  intros Haccepts. cbn zeta.
  destruct (setUserSession_stored session rememberMe written w Haccepts)
    as (_ & Hsession & Hremember).
  cbn zeta in Hsession, Hremember. split.
  - unfold AuthCache.isRemembered.
    erewrite get_cache_item by exact Hremember. cbn [lapsed fst].
    by destruct (default false rememberMe).
  - unfold AuthCache.getUserSession.
    erewrite get_cache_item by exact Hsession.
    by destruct (lapsed _ written now).
Qed.

(** X30. A profile cached by [setUserProfile] after a sign-in lapses after
    7 days when the sign-in was remembered, and never when it was not. *)
Theorem setUserProfile_lapses_when_remembered session profile
    (rememberMe : option bool) (signed_in written now : Z) w :
  accepting w →
  let remember := default false rememberMe in
  let expiry := if remember then Some (7 * 24 * 60 * 60 * 1000)%Z else None in
  let w' := AuthCache.setUserProfile ToNumber profile written
              (AuthCache.setUserSession session rememberMe signed_in w) in
  (AuthCache.getUserProfile ToNumber now w').1
    = Some (if lapsed expiry written now then JNull else profile).
Proof.
  intros Haccepts. cbn zeta.
  destruct (setUserSession_stored session rememberMe signed_in w Haccepts)
    as (Haccepts' & _ & Hremember).
  cbn zeta in Hremember.
  set (w1 := AuthCache.setUserSession session rememberMe signed_in w) in *.
  unfold AuthCache.setUserProfile, AuthCache.isRemembered.
  erewrite get_cache_item by exact Hremember. cbn [lapsed].
  destruct w1 as [|ls1]; [done|].
  assert ((if default false rememberMe
           then Some (7 * 24 * 60 * 60 * 1000)%Z else None)
          = (if match Some (JBool (default false rememberMe)) with
                | Some (JBool true) => true
                | _ => false
                end
             then Some (7 * 24 * 60 * 60 * 1000)%Z else None)) as <-
    by (by destruct (default false rememberMe)).
  rewrite stored_set by apply Haccepts'. cbn [snd].
  unfold AuthCache.getUserProfile.
  erewrite get_cache_item;
    [|cbn; unfold getItem; cbn; by rewrite lookup_insert_eq].
  by destruct (lapsed _ written now).
Qed.

End CacheFacts.

Lemma cache_round_trip_witness :
  let w := (AuthCache.set CACHE_KEYS.USER_PREFERENCES sample_profile
              (Some 1000%Z) 5000
              (Window (mkLocalStorage ∅ (λ _ _, true)))).2 in
  let read := AuthCache.get no_number CACHE_KEYS.USER_PREFERENCES 7000 w in
  read.1 = Some (if lapsed (Some 1000%Z) 5000 7000
                 then JSON.JNull else sample_profile) ∧
  stored read.2 CACHE_KEYS.USER_PREFERENCES
    = (if lapsed (Some 1000%Z) 5000 7000 then None
       else stored w CACHE_KEYS.USER_PREFERENCES).
Proof.
  apply (cache_round_trip no_number CACHE_KEYS.USER_PREFERENCES sample_profile
           (Some 1000%Z) 5000 7000 (mkLocalStorage ∅ (λ _ _, true))).
  reflexivity.
Defined.

Lemma setUserSession_remembers_witness :
  let remember := default false (Some true) in
  let expiry := if remember then Some (30 * 24 * 60 * 60 * 1000)%Z else None in
  let w' := AuthCache.setUserSession sample_login (Some true) 5000
              sample_browser in
  (AuthCache.isRemembered no_number 2678405000 w').1 = remember ∧
  (AuthCache.getUserSession no_number 2678405000 w').1
    = Some (if lapsed expiry 5000 2678405000 then JSON.JNull
            else sample_login).
Proof.
  apply (setUserSession_remembers no_number sample_login (Some true) 5000
           2678405000 sample_browser).
  intros key value. reflexivity.
Defined.

Lemma setUserProfile_lapses_when_remembered_witness :
  let remember := default false (Some true) in
  let expiry := if remember then Some (7 * 24 * 60 * 60 * 1000)%Z else None in
  let w' := AuthCache.setUserProfile no_number sample_profile 6000
              (AuthCache.setUserSession sample_login (Some true) 5000
                 sample_browser) in
  (AuthCache.getUserProfile no_number 604806001 w').1
    = Some (if lapsed expiry 6000 604806001 then JSON.JNull
            else sample_profile).
Proof.
  apply (setUserProfile_lapses_when_remembered no_number sample_login
           sample_profile (Some true) 5000 6000 604806001 sample_browser).
  intros key value. reflexivity.
Defined.
